(** * The AIX archive-member loader of _ctypes (Modules/_ctypes/dlfcn_aix.c)

    A shallow embedding of [ctypes_dlopen], [ctypes_dlclose] and
    [ctypes_dlsym] together with the static helpers they dispatch to
    ([single_open], [single_close], [single_sym], [multiple_open],
    [multiple_close], [multiple_sym]).

    The C code is stateful: it allocates wrapper objects, calls the native
    loader ([dlopen], [dlclose], [dlsym]) and reads and writes [errno].  The
    embedding is a state-and-failure monad over a [World]; [None] stands for
    undefined behaviour (a read through a dangling or indeterminate pointer,
    an out-of-bounds access).  Every call into libc or the native loader is
    appended to the world's [trace], so statements such as "calls the native
    open once per member" or "frees the aggregate exactly once" are
    statements about that trace.

    What the embedding takes from outside the source file:
    - the constants of <dlfcn.h> and <errno.h> are parameters of a
      [System], with [EINVAL] non-zero;
    - [malloc], [strdup], [dlopen], [dlclose] and [dlsym] are functions of
      the [System] over a state of its own: they may fail, they may store
      any value in [errno], and they do not touch the wrapper objects;
    - [free] releases its block and nothing else: it stores nothing in
      [errno] and leaves the state of the [System] as it is;
    - a path is a C string, that is, it holds no NUL;
    - the [int] counters of [multiple_open] are natural numbers in the
      model: [count_members_int] is the counting loop with the counters as
      [int]s, and the two agree on a path shorter than [INT_MAX];
    - [malloc] returns NULL or a block of the size the code's expression
      stands for (its [size_t] arithmetic is taken not to wrap around).

    The module [Loadquery] embeds [py_loadquery] of
    Modules/_ctypes/_ctypes_aix.c in the same way, over a platform of its
    own. *)

From Stdlib Require Import ZArith List Ascii String Lia Bool.
From stdpp Require Import base option list gmap.

Local Open Scope Z_scope.

(** ** C strings

    A C string is modelled by the list of its characters before the
    terminating NUL.  A [char *] into a string is an offset; the string seen
    through the pointer [s + k] is [drop k s]. *)

Definition NUL : ascii := Ascii.zero.

Definition cstr (s : string) : list ascii := list_ascii_of_string s.

Definition strlen (s : list ascii) : nat := length s.

(** [strchr s c]: offset of the first occurrence of [c], [None] for a null result. *)
Fixpoint strchr (s : list ascii) (c : ascii) : option nat :=
  match s with
  | [] => None
  | x :: s' => if Ascii.eqb x c then Some 0%nat else S <$> strchr s' c
  end.

(** [strrchr s c]: offset of the last occurrence of [c]. *)
Fixpoint strrchr (s : list ascii) (c : ascii) : option nat :=
  match s with
  | [] => None
  | x :: s' =>
      match strrchr s' c with
      | Some k => Some (S k)
      | None => if Ascii.eqb x c then Some 0%nat else None
      end
  end.

(** [strncpy (dst, src, n)] writes exactly [n] bytes: the first [n]
    characters of [src], padded with NUL when [src] is shorter. *)
Definition strncpy (src : list ascii) (n : nat) : list ascii :=
  take n src ++ replicate (n - length src) NUL.

(** Writing [bytes] at offset [off] of a buffer; out of bounds is undefined. *)
Definition store_bytes (buf : list ascii) (off : nat) (bytes : list ascii)
  : option (list ascii) :=
  if (off + length bytes <=? length buf)%nat
  then Some (take off buf ++ bytes ++ drop (off + length bytes) buf)
  else None.

(** The C string held by a buffer: the bytes before its first NUL. *)
Definition read_cstr (buf : list ascii) : option (list ascii) :=
  k ← strchr buf NUL; Some (take k buf).

(** ** Pointers, objects and the platform *)

(** A [const char *path] argument: either a pointer value that is no string
    (NULL or one of the RTLD_ sentinels), or a pointer to a string. *)
Inductive Path :=
| PathPtr (p : Z)
| PathStr (s : list ascii).

(** The two static [Loader] tables; [object->loader] points to one of them. *)
Inductive Loader := singleLoader | multipleLoader.

(** Heap objects.  A field or slot that was never written is [None]. *)
Inductive Object :=
| SingleObject (loader : option Loader) (dlhandle : option Z)
| MultipleObjects (loader : option Loader) (dlhandles : list (option Z)).

Inductive Event :=
| EvMalloc (p : Z)
| EvStrdup (ok : bool)
| EvFree (p : Z)
| EvFreeBuf
| EvDlopen (path : Path) (mode : Z) (ret : Z)
| EvDlclose (h : Z) (ret : Z)
| EvDlsym (h : Z) (symbol : list ascii) (ret : Z) (err : Z).

(** What the source takes from <dlfcn.h>, <errno.h> and libc.  The constants
    are parameters.  A native call returns its result and what it stores in
    [errno]: [None] when it leaves [errno] alone, [Some e] when it sets it
    to [e].  The source says nothing on which calls store what, so any
    value may be stored, zero included (AIX documents its [dlsym] as
    setting [errno] to 0 when the symbol is not found). *)
Record System := {
  OS : Type;
  EINVAL : Z;
  EINVAL_nonzero : EINVAL ≠ 0;
  RTLD_MEMBER : Z;
  RTLD_DEFAULT : Z;
  RTLD_MYSELF : Z;
  RTLD_NEXT : Z;
  sys_malloc : OS → bool * option Z * OS;
  sys_dlopen : Path → Z → OS → Z * option Z * OS;
  sys_dlclose : Z → OS → Z * option Z * OS;
  sys_dlsym : Z → list ascii → OS → Z * option Z * OS
}.

Record World (Sys : System) := mkWorld {
  errno : Z;
  heap : gmap positive Object;
  brk : positive;
  os : OS Sys;
  trace : list Event
}.

Arguments mkWorld {Sys} _ _ _ _ _.
Arguments errno {Sys} _.
Arguments heap {Sys} _.
Arguments brk {Sys} _.
Arguments os {Sys} _.
Arguments trace {Sys} _.

(** ** The monad *)

Definition M (Sys : System) (A : Type) : Type := World Sys → option (A * World Sys).

Definition ret {Sys A} (a : A) : M Sys A := fun w => Some (a, w).

Definition bind {Sys A B} (c : M Sys A) (k : A → M Sys B) : M Sys B :=
  fun w => match c w with
           | Some (a, w') => k a w'
           | None => None
           end.

(** Undefined behaviour. *)
Definition ub {Sys A} : M Sys A := fun _ => None.

Definition lift {Sys A} (o : option A) : M Sys A :=
  match o with
  | Some a => ret a
  | None => ub
  end.

Declare Scope cmd_scope.
Delimit Scope cmd_scope with cmd.
Notation "x <- c ;; k" := (bind c (fun x => k))
  (at level 100, c at next level, right associativity) : cmd_scope.
Notation "c ;; k" := (bind c (fun _ => k))
  (at level 100, right associativity) : cmd_scope.
Local Open Scope cmd_scope.

(** [errno] after a library call that stored [e], where it was [old]. *)
Definition errno_after (e : option Z) (old : Z) : Z := default old e.

Section Model.
Context (Sys : System).

Abbreviation Cmd := (M Sys).

(** *** errno *)

Definition get_errno : Cmd Z := fun w => Some (errno w, w).

Definition set_errno (e : Z) : Cmd unit := fun w =>
  Some (tt, mkWorld e (heap w) (brk w) (os w) (trace w)).

(** *** libc and the native loader *)

Definition malloc (init : Object) : Cmd Z := fun w =>
  let '(ok, e, o) := sys_malloc Sys (os w) in
  if ok : bool
  then Some (Z.pos (brk w),
             mkWorld (errno_after e (errno w)) (<[brk w := init]> (heap w))
                     (Pos.succ (brk w)) o (trace w ++ [EvMalloc (Z.pos (brk w))]))
  else Some (0, mkWorld (errno_after e (errno w)) (heap w) (brk w) o
                        (trace w ++ [EvMalloc 0])).

(** [strdup]: the copy is a local buffer of [strlen + 1] bytes. *)
Definition strdup (s : list ascii) : Cmd (option (list ascii)) := fun w =>
  let '(ok, e, o) := sys_malloc Sys (os w) in
  Some (if ok : bool then Some (s ++ [NUL]) else None,
        mkWorld (errno_after e (errno w)) (heap w) (brk w) o (trace w ++ [EvStrdup ok])).

Definition free_buf (buf : option (list ascii)) : Cmd unit := fun w =>
  match buf with
  | Some _ => Some (tt, mkWorld (errno w) (heap w) (brk w) (os w)
                                (trace w ++ [EvFreeBuf]))
  | None => Some (tt, w)
  end.

Definition deref (p : Z) : Cmd Object := fun w =>
  match p with
  | Z.pos a => o ← heap w !! a; Some (o, w)
  | _ => None
  end.

Definition assign (p : Z) (o : Object) : Cmd unit := fun w =>
  match p with
  | Z.pos a =>
      _ ← heap w !! a;
      Some (tt, mkWorld (errno w) (<[a := o]> (heap w)) (brk w) (os w) (trace w))
  | _ => None
  end.

(** [free (p)]: nothing for NULL, undefined for anything not allocated. *)
Definition free (p : Z) : Cmd unit := fun w =>
  match p with
  | 0 => Some (tt, w)
  | Z.pos a =>
      _ ← heap w !! a;
      Some (tt, mkWorld (errno w) (delete a (heap w)) (brk w) (os w)
                        (trace w ++ [EvFree p]))
  | Z.neg _ => None
  end.

Definition dlopen (path : Path) (mode : Z) : Cmd Z := fun w =>
  let '(h, e, o) := sys_dlopen Sys path mode (os w) in
  Some (h, mkWorld (errno_after e (errno w)) (heap w) (brk w) o
                   (trace w ++ [EvDlopen path mode h])).

Definition dlclose (h : Z) : Cmd Z := fun w =>
  let '(r, e, o) := sys_dlclose Sys h (os w) in
  Some (r, mkWorld (errno_after e (errno w)) (heap w) (brk w) o
                   (trace w ++ [EvDlclose h r])).

Definition dlsym (h : Z) (symbol : list ascii) : Cmd Z := fun w =>
  let '(r, e, o) := sys_dlsym Sys h symbol (os w) in
  Some (r, mkWorld (errno_after e (errno w)) (heap w) (brk w) o
                   (trace w ++ [EvDlsym h symbol r (errno_after e (errno w))])).

(** *** Field accesses *)

(** [((ObjectBase * )handle)->loader] *)
Definition load_loader (handle : Z) : Cmd Loader :=
  o <- deref handle ;;
  match o with
  | SingleObject l _ | MultipleObjects l _ => lift l
  end.

Definition store_loader (handle : Z) (l : Loader) : Cmd unit :=
  o <- deref handle ;;
  match o with
  | SingleObject _ h => assign handle (SingleObject (Some l) h)
  | MultipleObjects _ hs => assign handle (MultipleObjects (Some l) hs)
  end.

(** [((SingleObject * )handle)->dlhandle] *)
Definition load_dlhandle (handle : Z) : Cmd Z :=
  o <- deref handle ;;
  match o with
  | SingleObject _ h => lift h
  | MultipleObjects _ _ => ub
  end.

Definition store_dlhandle (handle : Z) (h : Z) : Cmd unit :=
  o <- deref handle ;;
  match o with
  | SingleObject l _ => assign handle (SingleObject l (Some h))
  | MultipleObjects _ _ => ub
  end.

(** [((MultipleObjects * )handle)->dlhandles] *)
Definition load_dlhandles (handle : Z) : Cmd (list (option Z)) :=
  o <- deref handle ;;
  match o with
  | MultipleObjects _ hs => ret hs
  | SingleObject _ _ => ub
  end.

(** [loaded->dlhandles[i] = h] *)
Definition store_slot (handle : Z) (i : nat) (h : Z) : Cmd unit :=
  o <- deref handle ;;
  match o with
  | MultipleObjects l hs =>
      if (i <? length hs)%nat
      then assign handle (MultipleObjects l (<[i := Some h]> hs))
      else ub
  | SingleObject _ _ => ub
  end.

(** *** single_close, single_sym, single_open *)

Definition single_close (handle : Z) : Cmd Z :=
  if negb (handle =? 0) then
    dlhandle <- load_dlhandle handle ;;
    r <- dlclose dlhandle ;;
    free handle ;;
    ret r
  else
    set_errno (EINVAL Sys) ;;
    ret (EINVAL Sys).

Definition single_sym (handle : Z) (symbol : list ascii) : Cmd Z :=
  if negb (handle =? 0) then
    dlhandle <- load_dlhandle handle ;;
    dlsym dlhandle symbol
  else
    set_errno (EINVAL Sys) ;;
    ret 0.

Definition single_open (path : Path) (mode : Z) : Cmd Z :=
  object <- malloc (SingleObject None None) ;;
  if negb (object =? 0) then
    h <- dlopen path mode ;;
    store_dlhandle object h ;;
    if negb (h =? 0) then
      store_loader object singleLoader ;;
      ret object
    else
      free object ;;
      ret 0
  else ret 0.

(** *** multiple_close *)

(** [while ( *dlhandles) { if (dlclose ( *dlhandles) != 0) ret = EINVAL; ++dlhandles; }]
    The list is the array seen through the moving pointer [dlhandles]. *)
Fixpoint multiple_close_loop (dlhandles : list (option Z)) (r : Z) : Cmd Z :=
  match dlhandles with
  | Some h :: dlhandles' =>
      if h =? 0 then ret r
      else
        c <- dlclose h ;;
        multiple_close_loop dlhandles' (if negb (c =? 0) then EINVAL Sys else r)
  | _ => ub
  end.

Definition multiple_close (handle : Z) : Cmd Z :=
  if negb (handle =? 0) then
    dlhandles <- load_dlhandles handle ;;
    r <- multiple_close_loop dlhandles 0 ;;
    free handle ;;
    if r =? 0 then ret r
    else
      set_errno (EINVAL Sys) ;;
      ret (EINVAL Sys)
  else
    set_errno (EINVAL Sys) ;;
    ret (EINVAL Sys).

(** *** multiple_sym *)

(** [while ( *dlhandles) { ret = dlsym ( *dlhandles, symbol);
                          if (ret || errno) return ret; ++dlhandles; } return NULL;] *)
Fixpoint multiple_sym_loop (dlhandles : list (option Z)) (symbol : list ascii) : Cmd Z :=
  match dlhandles with
  | Some h :: dlhandles' =>
      if h =? 0 then ret 0
      else
        r <- dlsym h symbol ;;
        e <- get_errno ;;
        if negb (r =? 0) || negb (e =? 0) then ret r
        else multiple_sym_loop dlhandles' symbol
  | _ => ub
  end.

Definition multiple_sym (handle : Z) (symbol : list ascii) : Cmd Z :=
  if negb (handle =? 0) then
    dlhandles <- load_dlhandles handle ;;
    multiple_sym_loop dlhandles symbol
  else
    set_errno (EINVAL Sys) ;;
    ret 0.

(** *** multiple_open *)

(** [for (i = 0; members[i]; ++i) if (members[i] == ',') ++memberno;]
    The [int] counters are natural numbers here. *)
Fixpoint count_members (members : list ascii) (memberno : nat) : nat :=
  match members with
  | [] => memberno
  | c :: members' =>
      count_members members' (if Ascii.eqb c "," then S memberno else memberno)
  end.

(** The same loop with the counters as the [int]s they are, giving [i] and
    [memberno] as the loop leaves them: [None] when [++memberno] or [++i]
    overflows. *)
Fixpoint count_members_int (INT_MAX : Z) (members : list ascii) (i memberno : Z)
  : option (Z * Z) :=
  match members with
  | [] => Some (i, memberno)
  | c :: members' =>
      memberno' ← (if Ascii.eqb c ","
                   then if memberno <? INT_MAX then Some (memberno + 1) else None
                   else Some memberno);
      if i <? INT_MAX then count_members_int INT_MAX members' (i + 1) memberno'
      else None
  end.

(** The [while (members)] loop.  [members] and [memberbuf] are offsets into
    [path] and [pathbuf]; the result is the value of [members] when the loop
    is left: [Some _] after the [break], [None] once the last member is
    open.  Every turn moves [members] forward, so [fuel = strlen (members)]
    turns are enough. *)
Fixpoint multiple_open_loop (fuel : nat) (path : list ascii) (memberbuf : nat)
    (mode : Z) (loaded : Z) (pathbuf : list ascii) (members memberno : nat)
  : Cmd (option nat) :=
  match fuel with
  | O => ub
  | S fuel' =>
      let mstr := drop members path in
      nextmember <- lift (match strchr mstr "," with
                          | Some k => Some (members + k)%nat
                          | None => if (strlen mstr =? 0)%nat then None
                                    else Some (members + strlen mstr - 1)%nat
                          end) ;;
      let n := (nextmember - members)%nat in
      pathbuf <- lift (store_bytes pathbuf memberbuf (strncpy mstr n)) ;;
      pathbuf <- lift (store_bytes pathbuf (memberbuf + n) [")"%char; NUL]) ;;
      name <- lift (read_cstr pathbuf) ;;
      h <- dlopen (PathStr name) mode ;;
      store_slot loaded memberno h ;;
      if h =? 0 then ret (Some members)
      else
        store_slot loaded (S memberno) 0 ;;
        c <- lift (path !! nextmember) ;;
        if Ascii.eqb c "," then
          multiple_open_loop fuel' path memberbuf mode loaded pathbuf
                             (S nextmember) (S memberno)
        else ret None
  end.

Definition multiple_open (path : list ascii) (members : nat) (mode : Z) : Cmd Z :=
  pathbuf <- strdup path ;;
  loaded <-
    match pathbuf with
    | Some buf =>
        let memberbuf := members in
        let memberno := count_members (drop members path) 1 in
        loaded <- malloc (MultipleObjects None (replicate (1 + memberno) None)) ;;
        if negb (loaded =? 0) then
          store_loader loaded multipleLoader ;;
          members' <- multiple_open_loop (strlen (drop members path)) path memberbuf
                                         mode loaded buf members 0 ;;
          match members' with
          | Some _ => multiple_close loaded ;; ret 0
          | None => ret loaded
          end
        else ret loaded
    | None => ret 0
    end ;;
  free_buf pathbuf ;;
  ret loaded.

(** *** The facade *)

Definition is_sentinel (p : Z) : bool :=
  (p =? RTLD_DEFAULT Sys) || (p =? RTLD_MYSELF Sys) || (p =? RTLD_NEXT Sys).

(** The test of [ctypes_dlopen] for "filename(member,member...)": the offset
    of [opening] when the three nested conditions hold. *)
Definition member_syntax (path : list ascii) : option nat :=
  match strrchr path ")" with
  | Some closing =>
      if (strlen (drop closing path) =? 1)%nat then
        match strrchr path "(" with
        | Some opening =>
            if (0 <? opening)%nat
               && (2 <? strlen (drop opening path))%nat
               && negb (bool_decide (is_Some (strchr (drop opening path) "/")))
            then Some opening
            else None
        | None => None
        end
      else None
  | None => None
  end.

Definition ctypes_dlopen (path : Path) (mode : Z) : Cmd Z :=
  match path with
  | PathPtr p =>
      if negb (p =? 0) && negb (is_sentinel p)
      then ub
      else single_open path mode
  | PathStr s =>
      match member_syntax s with
      | Some opening =>
          let mode := Z.lor mode (RTLD_MEMBER Sys) in
          if bool_decide (is_Some (strchr (drop opening s) ","))
          then multiple_open s (opening + 1) mode
          else single_open path mode
      | None => single_open path mode
      end
  end.

Definition dl_close (l : Loader) : Z → Cmd Z :=
  match l with
  | singleLoader => single_close
  | multipleLoader => multiple_close
  end.

Definition dl_sym (l : Loader) : Z → list ascii → Cmd Z :=
  match l with
  | singleLoader => single_sym
  | multipleLoader => multiple_sym
  end.

Definition ctypes_dlclose (handle : Z) : Cmd Z :=
  if negb (handle =? 0) && negb (is_sentinel handle) then
    l <- load_loader handle ;;
    dl_close l handle
  else dlclose handle.

Definition ctypes_dlsym (handle : Z) (symbol : list ascii) : Cmd Z :=
  if negb (handle =? 0) && negb (is_sentinel handle) then
    l <- load_loader handle ;;
    dl_sym l handle symbol
  else dlsym handle symbol.

End Model.

(** ** Reading a trace *)

Definition dlopen_calls (t : list Event) : list (Path * Z) :=
  omap (fun ev => match ev with EvDlopen p m _ => Some (p, m) | _ => None end) t.

Definition dlopen_rets (t : list Event) : list Z :=
  omap (fun ev => match ev with EvDlopen _ _ r => Some r | _ => None end) t.

Definition dlclose_calls (t : list Event) : list Z :=
  omap (fun ev => match ev with EvDlclose h _ => Some h | _ => None end) t.

Definition dlsym_calls (t : list Event) : list Z :=
  omap (fun ev => match ev with EvDlsym h _ _ _ => Some h | _ => None end) t.

Definition frees (t : list Event) : list Z :=
  omap (fun ev => match ev with EvFree p => Some p | _ => None end) t.

Definition malloc_failed (t : list Event) : bool :=
  existsb (fun ev => match ev with
                     | EvMalloc 0 | EvStrdup false => true
                     | _ => false
                     end) t.

(** Native handles a trace has opened: the non-null results of its native opens. *)
Definition opened (t : list Event) : list Z :=
  filter (fun h => h ≠ 0) (dlopen_rets t).

(** ** Multiple handles *)

(** [handle] points to an aggregate over the native handles [hs]: the
    [multipleLoader] table, the handles in order, and the null slot. *)
Definition multiple_handle {Sys} (w : World Sys) (handle : Z) (hs : list Z) : Prop :=
  match handle with
  | Z.pos a =>
      heap w !! a = Some (MultipleObjects (Some multipleLoader)
                                          ((Some <$> hs) ++ [Some 0]))
  | _ => False
  end ∧ Forall (fun h => h ≠ 0) hs.

(** The results of the native closes of [hs], run in order from the state [o]. *)
Fixpoint close_results (Sys : System) (hs : list Z) (o : OS Sys) : list Z :=
  match hs with
  | [] => []
  | h :: hs' =>
      let '(r, _, o') := sys_dlclose Sys h o in
      r :: close_results Sys hs' o'
  end.

(** The native lookups one aggregate lookup performs over the handles [hs],
    started with [errno = e] in the state [o]: the events, the result and
    the final [errno]. *)
Inductive probing (Sys : System) (symbol : list ascii)
  : list Z → Z → OS Sys → list Event → Z → Z → Prop :=
| probing_nil e o :
    probing Sys symbol [] e o [] 0 e
| probing_stop h hs e o r c o' :
    sys_dlsym Sys h symbol o = (r, c, o') →
    r ≠ 0 ∨ errno_after c e ≠ 0 →
    probing Sys symbol (h :: hs) e o [EvDlsym h symbol r (errno_after c e)] r (errno_after c e)
| probing_next h hs e o c o' evs r e' :
    sys_dlsym Sys h symbol o = (0, c, o') →
    errno_after c e = 0 →
    probing Sys symbol hs 0 o' evs r e' →
    probing Sys symbol (h :: hs) e o (EvDlsym h symbol 0 0 :: evs) r e'.

(** What the native lookups of [symbol] in the handles [hs] give when they
    are made one after the other, from the state [o] with [errno = e]: the
    result of each, and [errno] after it. *)
Fixpoint lookup_results (Sys : System) (symbol : list ascii) (hs : list Z)
    (e : Z) (o : OS Sys) : list (Z * Z) :=
  match hs with
  | [] => []
  | h :: hs' =>
      let '(r, c, o') := sys_dlsym Sys h symbol o in
      (r, errno_after c e) :: lookup_results Sys symbol hs' (errno_after c e) o'
  end.

(** ** Member lists

    The member names of "filename(member,member...)": the text between the
    parentheses split at its commas, and back. *)

Fixpoint split_commas (s : list ascii) : list (list ascii) :=
  match s with
  | [] => [[]]
  | c :: s' =>
      if Ascii.eqb c "," then [] :: split_commas s'
      else match split_commas s' with
           | m :: ms => (c :: m) :: ms
           | [] => [[c]]
           end
  end.

Fixpoint join_commas (ms : list (list ascii)) : list ascii :=
  match ms with
  | [] => []
  | m :: ms' =>
      match ms' with
      | [] => m
      | _ :: _ => m ++ ","%char :: join_commas ms'
      end
  end.

(** The path naming the single member [m] of the archive [filename]. *)
Definition member_path (filename m : list ascii) : list ascii :=
  filename ++ "("%char :: m ++ [")"%char].

(** The shape [ctypes_dlopen] takes for member syntax: a non-empty file
    name, then the last "(" of the string, a non-empty text free of "/",
    and ")" as the last character. *)
Definition member_syntax_shape (path filename content : list ascii) : Prop :=
  path = member_path filename content
  ∧ filename ≠ []
  ∧ content ≠ []
  ∧ ("("%char ∉ content)
  ∧ ("/"%char ∉ content).

(** The same shape with "the text is not empty" replaced by "one of the
    comma-separated members is not empty". *)
Definition member_syntax_nonempty_member (path filename content : list ascii) : Prop :=
  path = member_path filename content
  ∧ filename ≠ []
  ∧ (∃ m, m ∈ split_commas content ∧ m ≠ [])
  ∧ ("("%char ∉ content)
  ∧ ("/"%char ∉ content).

(** The native opens of the members [ms] of [filename], with their results. *)
Definition open_events (filename : list ascii) (mode : Z)
    (ms : list (list ascii)) (rets : list Z) : list Event :=
  zip_with (fun m h => EvDlopen (PathStr (member_path filename m)) mode h) ms rets.

(** The ways a multi-member open can end. *)
Inductive multiple_outcome {Sys : System} (filename : list ascii) (mode : Z)
    (ms : list (list ascii)) (w w' : World Sys) : Z → list Event → Prop :=
| outcome_no_buffer :
    heap w' = heap w →
    multiple_outcome filename mode ms w w' 0 [EvStrdup false]
| outcome_no_aggregate :
    heap w' = heap w →
    multiple_outcome filename mode ms w w' 0 [EvStrdup true; EvMalloc 0; EvFreeBuf]
| outcome_opened hs :
    length hs = length ms →
    Forall (fun h => h ≠ 0) hs →
    heap w' = <[brk w := MultipleObjects (Some multipleLoader)
                                         ((Some <$> hs) ++ [Some 0])]> (heap w) →
    multiple_outcome filename mode ms w w' (Z.pos (brk w))
      ([EvStrdup true; EvMalloc (Z.pos (brk w))]
       ++ open_events filename mode ms hs ++ [EvFreeBuf])
| outcome_unwound hs rs :
    (length hs < length ms)%nat →
    Forall (fun h => h ≠ 0) hs →
    length rs = length hs →
    heap w' !! brk w = None →
    multiple_outcome filename mode ms w w' 0
      ([EvStrdup true; EvMalloc (Z.pos (brk w))]
       ++ open_events filename mode ms (hs ++ [0])
       ++ zip_with EvDlclose hs rs
       ++ [EvFree (Z.pos (brk w)); EvFreeBuf]).

(** The native opens a member list asks for: one per member, each of the
    path rewritten to name that member alone. *)
Definition expected_calls (filename : list ascii) (mode : Z)
    (ms : list (list ascii)) : list (Path * Z) :=
  (fun m => (PathStr (member_path filename m), mode)) <$> ms.

(** The ways a single open can end. *)
Inductive single_outcome {Sys : System} (path : Path) (mode : Z)
    (w w' : World Sys) : Z → list Event → Prop :=
| single_no_memory :
    heap w' = heap w →
    single_outcome path mode w w' 0 [EvMalloc 0]
| single_opened h :
    h ≠ 0 →
    heap w' = <[brk w := SingleObject (Some singleLoader) (Some h)]> (heap w) →
    single_outcome path mode w w' (Z.pos (brk w))
      [EvMalloc (Z.pos (brk w)); EvDlopen path mode h]
| single_failed :
    heap w' !! brk w = None →
    single_outcome path mode w w' 0
      [EvMalloc (Z.pos (brk w)); EvDlopen path mode 0; EvFree (Z.pos (brk w))].

(** A world with another heap, or another [errno]. *)
Definition with_heap {Sys} (hp : gmap positive Object) (w : World Sys) : World Sys :=
  mkWorld (errno w) hp (brk w) (os w) (trace w).

Definition with_errno {Sys} (e : Z) (w : World Sys) : World Sys :=
  mkWorld e (heap w) (brk w) (os w) (trace w).

(** ** Handles of the loader *)

(** [handle] points to a Single wrapper of the native handle [h]. *)
Definition single_handle {Sys} (w : World Sys) (handle h : Z) : Prop :=
  match handle with
  | Z.pos a => heap w !! a = Some (SingleObject (Some singleLoader) (Some h))
  | _ => False
  end.

(** The allocator's discipline: nothing is allocated at or above [brk]. *)
Definition brk_fresh {Sys} (w : World Sys) : Prop :=
  ∀ a, (brk w ≤ a)%positive → heap w !! a = None.

(** The wrappers a trace has allocated. *)
Definition allocs (t : list Event) : list Z :=
  omap (fun ev => match ev with
                  | EvMalloc p => if p =? 0 then None else Some p
                  | _ => None
                  end) t.


(** [handle] is a handle of this loader over the native handles [hs]: a
    Single wrapper of one handle or an aggregate over [hs]. *)
Definition loader_handle {Sys} (w : World Sys) (handle : Z) (hs : list Z) : Prop :=
  (∃ h, hs = [h] ∧ single_handle w handle h) ∨ multiple_handle w handle hs.

(** Path buffers a trace has duplicated, and released. *)
Definition buffers_made (t : list Event) : nat :=
  length (omap (fun ev => match ev with EvStrdup true => Some tt | _ => None end) t).

Definition buffers_freed (t : list Event) : nat :=
  length (omap (fun ev => match ev with EvFreeBuf => Some tt | _ => None end) t).


(** ** Concrete platforms

    A platform given by tables, used to run the code on concrete inputs.
    Its state counts the allocations made so far; [mallocs n] tells whether
    allocation number [n] succeeds.  A failing [malloc] sets [errno] to
    ENOMEM (12), a failing native open to ENOENT (2); [closes] and [syms]
    give the result of a native close and lookup and what it stores in
    [errno]. *)

Definition table_system (mallocs : nat → bool) (opens : Path → Z)
    (closes : Z → Z * option Z) (syms : Z → list ascii → Z * option Z) : System :=
  {| OS := nat;
     EINVAL := 22;
     EINVAL_nonzero := ltac:(discriminate);
     RTLD_MEMBER := 0x40000;
     RTLD_DEFAULT := -1;
     RTLD_MYSELF := -2;
     RTLD_NEXT := -3;
     sys_malloc := fun n => (mallocs n, if mallocs n then None else Some 12, S n);
     sys_dlopen := fun p _ n => (opens p, if opens p =? 0 then Some 2 else None, n);
     sys_dlclose := fun h n => (closes h, n);
     sys_dlsym := fun h s n => (syms h s, n) |}.

Definition path_is (p : Path) (s : string) : bool :=
  match p with
  | PathStr l => String.eqb (string_of_list_ascii l) s
  | PathPtr _ => false
  end.

Definition name_is (l : list ascii) (s : string) : bool :=
  String.eqb (string_of_list_ascii l) s.

(** libc.a with its two members: [shr.o] defines [printf], [shr_64.o]
    defines [printf64].  A lookup that does not find the name returns null
    and leaves [errno] alone. *)
Definition libc_opens (p : Path) : Z :=
  if path_is p "libc.a(shr.o)" then 101
  else if path_is p "libc.a(shr_64.o)" then 102
  else if path_is p "libfoo.so" then 103
  else 0.

Definition libc_syms (h : Z) (s : list ascii) : Z * option Z :=
  if (h =? 101) && name_is s "printf" then (1001, None)
  else if (h =? 102) && name_is s "printf64" then (2002, None)
  else (0, None).

Definition libc_system : System :=
  table_system (fun _ => true) libc_opens (fun _ => (0, None)) libc_syms.

(** The same archive on a platform whose loader cannot open [shr_64.o]. *)
Definition libc32_opens (p : Path) : Z :=
  if path_is p "libc.a(shr.o)" then 101 else 0.

Definition libc32_system : System :=
  table_system (fun _ => true) libc32_opens (fun _ => (0, None)) libc_syms.

(** A platform where no member can be opened. *)
Definition broken_system : System :=
  table_system (fun _ => true) (fun _ => 0) (fun _ => (0, None)) libc_syms.

(** A platform out of memory. *)
Definition oom_system : System :=
  table_system (fun _ => false) libc_opens (fun _ => (0, None)) libc_syms.

(** A platform whose native close and lookup accept a null handle. *)
Definition lenient_system : System :=
  table_system (fun _ => true) libc_opens (fun _ => (0, None)) (fun _ _ => (7, None)).

(** A platform whose lookup in [shr.o] (handle 101) fails with EIO (5),
    while [shr_64.o] (handle 102) resolves every name. *)
Definition faulty_syms (h : Z) (s : list ascii) : Z * option Z :=
  if h =? 101 then (0, Some 5) else (2002, None).

Definition faulty_system : System :=
  table_system (fun _ => true) libc_opens (fun _ => (0, None)) faulty_syms.

(** The archive on a platform whose lookup sets [errno] to 0 when it does
    not find the name, as AIX documents its [dlsym]. *)
Definition clearing_syms (h : Z) (s : list ascii) : Z * option Z :=
  if (h =? 101) && name_is s "printf" then (1001, None)
  else if (h =? 102) && name_is s "printf64" then (2002, None)
  else (0, Some 0).

Definition clearing_system : System :=
  table_system (fun _ => true) libc_opens (fun _ => (0, None)) clearing_syms.

(** A platform whose native close of [shr.o] (handle 101) fails. *)
Definition stuck_closes (h : Z) : Z * option Z :=
  if h =? 101 then (-1, None) else (0, None).

Definition stuck_system : System :=
  table_system (fun _ => true) libc_opens stuck_closes libc_syms.

(** The world at program start. *)
Definition initial_world (Sys : System) (o : OS Sys) : World Sys :=
  mkWorld 0 ∅ 1 o [].

(** What a run shows: its result, [errno] and the calls it made. *)
Definition observe {Sys A} (r : option (A * World Sys))
  : option (A * Z * list Event) :=
  '(a, w) ← r; Some (a, errno w, trace w).

(** The native opens of a run. *)
Definition native_opens {Sys A} (r : option (A * World Sys)) : option (list (Path * Z)) :=
  '(_, w) ← r; Some (dlopen_calls (trace w)).

(** The world after "libc.a(shr.o,shr_64.o)" was opened at program start:
    the aggregate sits at address 1. *)
Definition loaded_world (Sys : System) (o : OS Sys) : World Sys :=
  mkWorld 0
    {[ 1%positive := MultipleObjects (Some multipleLoader)
                                     [Some 101; Some 102; Some 0] ]}
    2 o [].

(** A world with an aggregate over three native handles at address 1: 100,
    in which [libc_syms] finds no name, then 101 and 102. *)
Definition archive_world (Sys : System) (o : OS Sys) : World Sys :=
  mkWorld 0
    {[ 1%positive := MultipleObjects (Some multipleLoader)
                                     [Some 100; Some 101; Some 102; Some 0] ]}
    2 o [].

(** The world after "libfoo.so" was opened at program start: its wrapper
    sits at address 1. *)
Definition wrapped_world (Sys : System) (o : OS Sys) : World Sys :=
  mkWorld 0
    {[ 1%positive := SingleObject (Some singleLoader) (Some 103) ]}
    2 o [].

(** A platform whose native close always fails, with EBADF (9). *)
Definition jammed_system : System :=
  table_system (fun _ => true) libc_opens (fun _ => (-1, Some 9)) libc_syms.

(** ** loadquery (Modules/_ctypes/_ctypes_aix.c)

    [py_loadquery] asks the system loader for one of four listings and
    turns the buffer it gets into a Python list.  What comes from outside
    the file is a [Platform]: the constants of <sys/ldr.h> and <errno.h>,
    [malloc], [loadquery], and the Python runtime, of which only this is
    kept: a call that allocates can fail, and then returns its failure
    value with the error indicator set. *)

Module Loadquery.

(** The Python values the function builds: the values of a dictionary, and
    the entries of the list. *)
Inductive PyItem :=
| ItemStr (s : list ascii)
| ItemNone
| ItemInt (n : Z).

Inductive PyVal :=
| PyStr (s : list ascii)
| PyDict (items : list (string * PyItem)).

Inductive PyExc := PyExc_ValueError | PyExc_MemoryError | PyExc_SystemError.

(** The error indicator: set by [PyErr_SetString (exc, strerror (e))], or by
    a Python call that failed. *)
Inductive PyErr :=
| ErrString (exc : PyExc) (e : Z)
| ErrRaised.

(** [struct ld_info], as far as it is read: the offset of the next structure
    (an unsigned integer, 0 in the last one), the file name, and the member
    name that follows the file name's NUL. *)
Record ld_info := mk_ld_info {
  ldinfo_next : N;
  ldinfo_filename : list ascii;
  ldinfo_member : list ascii
}.

(** [struct ld_xinfo]: the same (the file name sits at the offset
    [ldinfo_filename] from the structure), and the sizes. *)
Record ld_xinfo := mk_ld_xinfo {
  ldxinfo_next : N;
  ldxinfo_filename : list ascii;
  ldxinfo_member : list ascii;
  ldinfo_textsize : Z;
  ldinfo_datasize : Z;
  ldinfo_tdatasize : Z;
  ldinfo_tdataoff : Z;
  ldinfo_tls_rnum : Z
}.

(** What [ldibuf] points to: nothing yet, or what [loadquery] wrote for its
    flag.  Messages are the strings of the pointer array before its null
    pointer; structures are given by their byte offset in the buffer. *)
Inductive Buffer :=
| BufJunk
| BufMessages (pmsg : list (list ascii))
| BufLibpath (libpath : list ascii)
| BufInfo (ldi : gmap N ld_info)
| BufXInfo (ldxi : gmap N ld_xinfo).

Inductive Event :=
| LqMalloc (size : Z) (ok : bool)
| LqFree
| LqLoadquery (flags size ret : Z)
| LqListNew (ok : bool)
| LqBuildValue (v : PyVal) (ok : bool)
| LqAppend (v : PyVal) (ok : bool)
| LqClear
| LqDecref
| LqSetString (exc : PyExc) (e : Z).

Record Platform := {
  OS : Type;
  INT_MAX : Z;
  EINVAL : Z;
  ENOMEM : Z;
  L_GETINFO : Z;
  L_GETMESSAGES : Z;
  L_GETLIBPATH : Z;
  L_GETXINFO : Z;
  sys_malloc : Z → OS → bool * option Z * OS;
  sys_loadquery : Z → Z → OS → Z * option Z * Buffer * OS;
  py_alloc : OS → bool * OS
}.

Record World (P : Platform) := mkWorld {
  errno : Z;
  pyerr : option PyErr;
  os : OS P;
  trace : list Event
}.

Arguments mkWorld {P} _ _ _ _.
Arguments errno {P} _.
Arguments pyerr {P} _.
Arguments os {P} _.
Arguments trace {P} _.

Definition Cmd (P : Platform) (A : Type) : Type := World P → option (A * World P).

Definition ret {P A} (a : A) : Cmd P A := fun w => Some (a, w).

Definition bind {P A B} (c : Cmd P A) (k : A → Cmd P B) : Cmd P B :=
  fun w => match c w with
           | Some (a, w') => k a w'
           | None => None
           end.

(** Undefined behaviour. *)
Definition ub {P A} : Cmd P A := fun _ => None.

Definition lift {P A} (o : option A) : Cmd P A :=
  match o with
  | Some a => ret a
  | None => ub
  end.

Declare Scope lq_scope.
Delimit Scope lq_scope with lq.
Notation "x <- c ;; k" := (bind c (fun x => k))
  (at level 100, c at next level, right associativity) : lq_scope.
Notation "c ;; k" := (bind c (fun _ => k))
  (at level 100, right associativity) : lq_scope.
Local Open Scope lq_scope.

Section Model.
Context (P : Platform).

(** *** libc and the system loader *)

Definition get_errno : Cmd P Z := fun w => Some (errno w, w).

Definition malloc (size : Z) : Cmd P (option Buffer) := fun w =>
  let '(ok, e, o) := sys_malloc P size (os w) in
  Some (if ok : bool then Some BufJunk else None,
        mkWorld (errno_after e (errno w)) (pyerr w) o (trace w ++ [LqMalloc size ok])).

(** [free (ldibuf)]: nothing for NULL. *)
Definition free (ldibuf : option Buffer) : Cmd P unit := fun w =>
  match ldibuf with
  | Some _ => Some (tt, mkWorld (errno w) (pyerr w) (os w) (trace w ++ [LqFree]))
  | None => Some (tt, w)
  end.

(** [loadquery (flags, ldibuf, bufsize)]: the result, and the buffer as the
    call leaves it. *)
Definition loadquery (flags bufsize : Z) : Cmd P (Z * Buffer) := fun w =>
  let '(r, e, buf, o) := sys_loadquery P flags bufsize (os w) in
  Some ((r, buf), mkWorld (errno_after e (errno w)) (pyerr w) o
                          (trace w ++ [LqLoadquery flags bufsize r])).

(** *** The Python runtime *)

(** [PyErr_SetString (exc, strerror (e))] *)
Definition PyErr_SetString (exc : PyExc) (e : Z) : Cmd P unit := fun w =>
  Some (tt, mkWorld (errno w) (Some (ErrString exc e)) (os w)
                    (trace w ++ [LqSetString exc e])).

(** A Python call that allocates: it succeeds, or fails with the error
    indicator set. *)
Definition py_call (ev : bool → Event) : Cmd P bool := fun w =>
  let '(ok, o) := py_alloc P (os w) in
  Some (ok, mkWorld (errno w) (if ok : bool then pyerr w else Some ErrRaised) o
                    (trace w ++ [ev ok])).

(** [PyArg_ParseTuple (args, "i:loadquery", &flags)]: [args] is what the
    parse yields, [None] when it fails. *)
Definition PyArg_ParseTuple (args : option Z) : Cmd P (option Z) := fun w =>
  match args with
  | Some flags => Some (Some flags, w)
  | None => Some (None, mkWorld (errno w) (Some ErrRaised) (os w) (trace w))
  end.

(** [PyList_New (0)] *)
Definition PyList_New : Cmd P (option (list PyVal)) :=
  ok <- py_call LqListNew ;;
  ret (if ok : bool then Some [] else None).

(** [Py_BuildValue (format, ...)] for the value [v] the format describes. *)
Definition Py_BuildValue (v : PyVal) : Cmd P (option PyVal) :=
  ok <- py_call (LqBuildValue v) ;;
  ret (if ok : bool then Some v else None).

(** [PyList_Append (result, entry)]: the return value and the list. *)
Definition PyList_Append (result : list PyVal) (entry : PyVal)
  : Cmd P (Z * list PyVal) :=
  ok <- py_call (LqAppend entry) ;;
  ret (if ok : bool then (0, result ++ [entry]) else (-1, result)).

Definition Py_CLEAR : Cmd P unit := fun w =>
  Some (tt, mkWorld (errno w) (pyerr w) (os w) (trace w ++ [LqClear])).

Definition Py_DECREF : Cmd P unit := fun w =>
  Some (tt, mkWorld (errno w) (pyerr w) (os w) (trace w ++ [LqDecref])).

(** [Py_BuildValue ("s", s)] gives None for a null pointer. *)
Definition member_value (member : list ascii) : PyItem :=
  (* if (! *member) member = NULL; *)
  match member with
  | [] => ItemNone
  | _ :: _ => ItemStr member
  end.

(** *** The buffer loop

    [ldibuf = malloc (bufsize);
     while (ldibuf != NULL
            && (errflag = loadquery (flags, ldibuf, bufsize)) == -1
            && errno == ENOMEM) {
         free (ldibuf); bufsize += 1024; ldibuf = malloc (bufsize); }]

    The function takes [ldibuf] as the [malloc] left it and returns
    [ldibuf], [errflag] ([None] while not assigned) and [bufsize].
    [bufsize] is an [int]: the addition overflows past [INT_MAX], so that
    [INT_MAX / 1024] turns are all there can be. *)
Fixpoint loadquery_retry (fuel : nat) (flags : Z) (ldibuf : option Buffer)
    (errflag : option Z) (bufsize : Z) : Cmd P (option Buffer * option Z * Z) :=
  match ldibuf with
  | None => ret (None, errflag, bufsize)
  | Some _ =>
      x <- loadquery flags bufsize ;;
      let '(r, buf) := x in
      e <- get_errno ;;
      if (r =? -1) && (e =? ENOMEM P) then
        free (Some buf) ;;
        if INT_MAX P <? bufsize + 1024 then ub
        else
          match fuel with
          | O => ub
          | S fuel' =>
              ldibuf' <- malloc (bufsize + 1024) ;;
              loadquery_retry fuel' flags ldibuf' (Some r) (bufsize + 1024)
          end
      else ret (Some buf, Some r, bufsize)
  end.

(** *** L_GETMESSAGES

    [while ( *pmsg) { entry = Py_BuildValue ("s", *pmsg); if (!entry) break;
                     if (PyList_Append (result, entry) < 0) break;
                     Py_CLEAR (entry); ++pmsg; }]
    The list is the array seen through the moving pointer; the result is the
    list built and whether [*pmsg] is non-null when the loop is left. *)
Fixpoint getmessages_loop (pmsg : list (list ascii)) (result : list PyVal)
  : Cmd P (list PyVal * bool) :=
  match pmsg with
  | [] => ret (result, false)
  | msg :: pmsg' =>
      entry <- Py_BuildValue (PyStr msg) ;;
      match entry with
      | None => ret (result, true)
      | Some entry =>
          x <- PyList_Append result entry ;;
          let '(r, result) := x in
          if r <? 0 then ret (result, true)
          else
            Py_CLEAR ;;
            getmessages_loop pmsg' result
      end
  end.

(** *** L_GETLIBPATH

    [while ( *libpath) { next = strchr (libpath, ':');
                        if (!next) next = libpath + strlen (libpath);
                        entry = Py_BuildValue ("s#", libpath, next - libpath);
                        ...
                        libpath = *next ? next+1 : next; }]
    [libpath] is the string seen through the pointer.  Every turn moves it
    forward, so [strlen (libpath)] turns are enough. *)
Fixpoint getlibpath_loop (fuel : nat) (libpath : list ascii) (result : list PyVal)
  : Cmd P (list PyVal * bool) :=
  match libpath with
  | [] => ret (result, false)
  | _ :: _ =>
      match fuel with
      | O => ub
      | S fuel' =>
          let next := match strchr libpath ":" with
                      | Some k => k
                      | None => strlen libpath
                      end in
          entry <- Py_BuildValue (PyStr (take next libpath)) ;;
          match entry with
          | None => ret (result, true)
          | Some entry =>
              x <- PyList_Append result entry ;;
              let '(r, result) := x in
              if r <? 0 then ret (result, true)
              else
                Py_CLEAR ;;
                getlibpath_loop fuel'
                  (match drop next libpath with
                   | [] => []
                   | _ :: rest => rest
                   end) result
          end
      end
  end.

(** *** L_GETINFO and L_GETXINFO

    [do { ldi = (ldi ? ldi->ldinfo_next + (void * )ldi : ldibuf);
          ... entry = Py_BuildValue (...); if (!entry) break;
          if (PyList_Append (result, entry) < 0) break;
          Py_CLEAR (entry); } while (ldi->ldinfo_next);]
    The two loops differ in the structure read and in the entry built:
    [next] and [entry_of] stand for these.  [ldi] is the offset of the
    current structure with its contents, [None] for NULL.  The result is
    the list built and [ldi->ldinfo_next] of the structure the loop was left
    at.  The offsets grow, so there are no more turns than structures. *)
Section Chain.
Context {R : Type} (next : R → N) (entry_of : R → PyVal).

Fixpoint chain_loop (fuel : nat) (ldibuf : gmap N R) (ldi : option (N * R))
    (result : list PyVal) : Cmd P (list PyVal * N) :=
  match fuel with
  | O => ub
  | S fuel' =>
      let off := match ldi with
                 | Some (p, r) => (next r + p)%N
                 | None => 0%N
                 end in
      r <- lift (ldibuf !! off) ;;
      entry <- Py_BuildValue (entry_of r) ;;
      match entry with
      | None => ret (result, next r)
      | Some entry =>
          x <- PyList_Append result entry ;;
          let '(c, result) := x in
          if c <? 0 then ret (result, next r)
          else
            Py_CLEAR ;;
            if (next r =? 0)%N then ret (result, next r)
            else chain_loop fuel' ldibuf (Some (off, r)) result
      end
  end.

End Chain.

(** [Py_BuildValue ("{ssss}", "filename", filename, "member", member)] *)
Definition info_entry (ldi : ld_info) : PyVal :=
  PyDict [("filename"%string, ItemStr (ldinfo_filename ldi));
          ("member"%string, member_value (ldinfo_member ldi))].

(** [Py_BuildValue ("{sssssksksksksI}", ...)] *)
Definition xinfo_entry (ldxi : ld_xinfo) : PyVal :=
  PyDict [("filename"%string, ItemStr (ldxinfo_filename ldxi));
          ("member"%string, member_value (ldxinfo_member ldxi));
          ("textsize"%string, ItemInt (ldinfo_textsize ldxi));
          ("datasize"%string, ItemInt (ldinfo_datasize ldxi));
          ("tdatasize"%string, ItemInt (ldinfo_tdatasize ldxi));
          ("tdataoff"%string, ItemInt (ldinfo_tdataoff ldxi));
          ("tls_rnum"%string, ItemInt (ldinfo_tls_rnum ldxi))].

(** *** py_loadquery *)

(** The [switch (flags)]. *)
Definition known_flags (flags : Z) : bool :=
  (flags =? L_GETINFO P) || (flags =? L_GETMESSAGES P)
  || (flags =? L_GETLIBPATH P) || (flags =? L_GETXINFO P).

(** The part of the [do { } while (0)] after [result = PyList_New (0)] gave
    a list: the list as the part leaves it, and whether it was left by a
    [break]. *)
Definition fill_list (flags : Z) (ldibuf : Buffer) (result : list PyVal)
  : Cmd P (list PyVal * bool) :=
  if flags =? L_GETMESSAGES P then
    pmsg <- lift (match ldibuf with BufMessages pmsg => Some pmsg | _ => None end) ;;
    getmessages_loop pmsg result
  else if flags =? L_GETLIBPATH P then
    libpath <- lift (match ldibuf with BufLibpath s => Some s | _ => None end) ;;
    getlibpath_loop (strlen libpath) libpath result
  else if flags =? L_GETINFO P then
    ldi <- lift (match ldibuf with BufInfo ldi => Some ldi | _ => None end) ;;
    x <- chain_loop ldinfo_next info_entry (size ldi) ldi None result ;;
    let '(result, next) := x in
    ret (result, negb (next =? 0)%N)
  else if flags =? L_GETXINFO P then
    ldxi <- lift (match ldibuf with BufXInfo ldxi => Some ldxi | _ => None end) ;;
    x <- chain_loop ldxinfo_next xinfo_entry (size ldxi) ldxi None result ;;
    let '(result, next) := x in
    ret (result, negb (next =? 0)%N)
  else ret (result, false).

(** The [do { } while (0)]: the values of [final_result] and of [result]
    after it; [result] is [None] while it has not been assigned. *)
Definition query (flags : Z) (ldibuf : option Buffer) (errflag : option Z)
  : Cmd P (option (list PyVal) * option (option (list PyVal))) :=
  match ldibuf with
  | None =>
      e <- get_errno ;;
      PyErr_SetString PyExc_MemoryError e ;;
      ret (None, None)
  | Some buf =>
      errflag <- lift errflag ;;
      if errflag =? -1 then
        e <- get_errno ;;
        PyErr_SetString PyExc_SystemError e ;;
        ret (None, None)
      else
        result <- PyList_New ;;
        match result with
        | None => ret (None, Some None)
        | Some result =>
            x <- fill_list flags buf result ;;
            let '(result, broke) := x in
            if broke : bool then ret (None, Some (Some result))
            else ret (Some result, Some (Some result))
        end
  end.

Definition py_loadquery (args : option Z) : Cmd P (option (list PyVal)) :=
  flags <- PyArg_ParseTuple args ;;
  match flags with
  | None => ret None
  | Some flags =>
      if known_flags flags then
        ldibuf <- malloc 1024 ;;
        x <- loadquery_retry (Z.to_nat (INT_MAX P / 1024)) flags ldibuf None 1024 ;;
        let '(ldibuf, errflag, bufsize) := x in
        x <- query flags ldibuf errflag ;;
        let '(final_result, result) := x in
        (* if (!final_result && result) Py_DECREF (result); *)
        match final_result with
        | Some _ => ret tt
        | None =>
            result <- lift result ;;
            match result with
            | Some _ => Py_DECREF
            | None => ret tt
            end
        end ;;
        free ldibuf ;;
        ret final_result
      else
        PyErr_SetString PyExc_ValueError (EINVAL P) ;;
        ret None
  end.

End Model.

(** *** Reading a run *)

(** The calls of [n] turns of the buffer loop entered with [bufsize = b]. *)
Fixpoint attempts (flags b : Z) (n : nat) : list Event :=
  match n with
  | O => []
  | S n' =>
      [LqLoadquery flags b (-1); LqFree; LqMalloc (b + 1024) true]
      ++ attempts flags (b + 1024) n'
  end.


Definition loadquery_calls (t : list Event) : list (Z * Z) :=
  omap (fun ev => match ev with LqLoadquery f s _ => Some (f, s) | _ => None end) t.

(** The entries of a colon-separated list, as [getlibpath_loop] cuts them. *)
Fixpoint libpath_fields (fuel : nat) (libpath : list ascii) : list (list ascii) :=
  match libpath with
  | [] => []
  | _ :: _ =>
      match fuel with
      | O => []
      | S fuel' =>
          let next := match strchr libpath ":" with
                      | Some k => k
                      | None => strlen libpath
                      end in
          take next libpath
          :: libpath_fields fuel' (match drop next libpath with
                                   | [] => []
                                   | _ :: rest => rest
                                   end)
      end
  end.

Fixpoint join_colons (ms : list (list ascii)) : list ascii :=
  match ms with
  | [] => []
  | m :: ms' =>
      match ms' with
      | [] => m
      | _ :: _ => m ++ ":"%char :: join_colons ms'
      end
  end.

(** The structures [loadquery] has linked from the offset [off] on: each
    but the last gives the distance to the next. *)
Inductive chain {R : Type} (next : R → N) (ldibuf : gmap N R) : N → list R → Prop :=
| chain_last off r :
    ldibuf !! off = Some r → next r = 0%N → chain next ldibuf off [r]
| chain_next off r rs :
    ldibuf !! off = Some r → next r ≠ 0%N →
    chain next ldibuf (next r + off) rs →
    chain next ldibuf off (r :: rs).

(** The events of one entry built, appended and released. *)
Definition entry_events (v : PyVal) : list Event :=
  [LqBuildValue v true; LqAppend v true; LqClear].

Definition lq_frees (t : list Event) : nat :=
  length (omap (fun ev => match ev with LqFree => Some tt | _ => None end) t).

Definition lq_mallocs (t : list Event) : nat :=
  length (omap (fun ev => match ev with LqMalloc _ true => Some tt | _ => None end) t).

Definition lq_decrefs (t : list Event) : nat :=
  length (omap (fun ev => match ev with LqDecref => Some tt | _ => None end) t).

Definition lq_lists (t : list Event) : nat :=
  length (omap (fun ev => match ev with LqListNew true => Some tt | _ => None end) t).

(** The events of a loop over entries: nothing but the building, appending
    and releasing of entries. *)
Definition entry_trace (evs : list Event) : Prop :=
  Forall (fun ev => match ev with
                    | LqBuildValue _ _ | LqAppend _ _ | LqClear => True
                    | _ => False
                    end) evs.

(** The buffer loop of [py_loadquery (flags)] run from [w]: the first
    [malloc], then the [while]; [res] is [ldibuf], [errflag] and [bufsize]
    when the loop is left, in the world [w']. *)
Definition buffer_loop (P : Platform) (flags : Z) (w : World P)
    (res : option Buffer * option Z * Z) (w' : World P) : Prop :=
  ∃ ldibuf w1,
    malloc P 1024 w = Some (ldibuf, w1)
    ∧ loadquery_retry P (Z.to_nat (INT_MAX P / 1024)) flags ldibuf None 1024 w1
      = Some (res, w').

(** *** A platform given by tables

    [loadquery] wants [need] bytes: it fails with ENOMEM (12) on a smaller
    buffer and otherwise writes [listing flags] and returns 0.  [malloc]
    succeeds for the sizes [mallocs] accepts.  The state counts the calls
    into the Python runtime; call number [n] fails when [py_fails n]. *)
Definition table_platform (mallocs : Z → bool) (need : Z)
    (listing : Z → Buffer) (py_fails : nat → bool) : Platform :=
  {| OS := nat;
     INT_MAX := 2147483647;
     EINVAL := 22;
     ENOMEM := 12;
     L_GETINFO := 2;
     L_GETMESSAGES := 1;
     L_GETLIBPATH := 3;
     L_GETXINFO := 8;
     sys_malloc := fun size n => (mallocs size, if mallocs size then None else Some 12, n);
     sys_loadquery := fun flags size n =>
       if size <? need then (-1, Some 12, BufJunk, n)
       else (0, None, listing flags, n);
     py_alloc := fun n => (negb (py_fails n), S n) |}.

(** Two loaded objects: the program, and a member of libc.a. *)
Definition example_ldi : gmap N ld_info :=
  {[ 0%N := mk_ld_info 40 (cstr "/usr/bin/python") [];
     40%N := mk_ld_info 0 (cstr "/usr/lib/libc.a") (cstr "shr.o") ]}.

Definition example_ldxi : gmap N ld_xinfo :=
  {[ 0%N := mk_ld_xinfo 0 (cstr "/usr/lib/libc.a") (cstr "shr_64.o") 4096 512 0 0 0 ]}.

Definition example_listing (flags : Z) : Buffer :=
  if flags =? 1 then BufMessages [cstr "0509-022 Cannot load module.";
                                  cstr "0509-026 System error."]
  else if flags =? 3 then BufLibpath (cstr "/usr/lib:/lib:")
  else if flags =? 2 then BufInfo example_ldi
  else if flags =? 8 then BufXInfo example_ldxi
  else BufJunk.

(** A platform where everything succeeds and the listing needs 3000 bytes. *)
Definition example_platform : Platform :=
  table_platform (fun _ => true) 3000 example_listing (fun _ => false).

(** The same with a listing that fits the first buffer. *)
Definition small_platform : Platform :=
  table_platform (fun _ => true) 100 example_listing (fun _ => false).

(** A platform whose Python runtime runs out of memory at its fourth
    call: the first entry is built and appended, the second is not built. *)
Definition short_platform : Platform :=
  table_platform (fun _ => true) 100 example_listing (fun n => (n =? 3)%nat).

(** A platform without memory for the buffer. *)
Definition oom_platform : Platform :=
  table_platform (fun _ => false) 100 example_listing (fun _ => false).

Definition initial_world (P : Platform) (o : OS P) : World P :=
  mkWorld 0 None o [].

(** What a run shows: its result, the error indicator and the calls. *)
Definition observe {P A} (r : option (A * World P))
  : option (A * option PyErr * list Event) :=
  '(a, w) ← r; Some (a, pyerr w, trace w).

(** [fill_list] on the buffer [buf] returns, whatever the Python runtime
    does, and makes no call but those of building a list. *)
Definition fills (P : Platform) (flags : Z) (buf : Buffer) : Prop :=
  ∀ w3 : World P,
    ∃ l broke w4 evs,
      fill_list P flags buf [] w3 = Some ((l, broke), w4)
      ∧ trace w4 = trace w3 ++ evs
      ∧ entry_trace evs
      ∧ (broke = true → pyerr w4 = Some ErrRaised).

End Loadquery.

(* ================================================================== *)
(** * Properties *)

(** ** C strings *)

Section Strings.
Implicit Types (s : list ascii) (c : ascii).

Lemma strchr_None s c : strchr s c = None ↔ c ∉ s.
Proof.
  induction s as [|x s IH]; cbn.
  - split; [|done]. intros _ H. inversion H.
  - destruct (Ascii.eqb_spec x c) as [->|Hne].
    + split; [done|]. intros H. destruct H. by left.
    + rewrite fmap_None, IH, not_elem_of_cons.
      split; [intros ?; split; congruence|tauto].
Qed.

Lemma strchr_is_Some s c : is_Some (strchr s c) ↔ c ∈ s.
Proof.
  rewrite <- not_eq_None_Some, strchr_None.
  destruct (decide (c ∈ s)); tauto.
Qed.

Lemma strchr_app s1 s2 c : c ∉ s1 → strchr (s1 ++ c :: s2) c = Some (length s1).
Proof.
  induction s1 as [|x s1 IH]; intros Hnot; cbn.
  - by rewrite Ascii.eqb_refl.
  - apply not_elem_of_cons in Hnot as [Hne Hnot].
    destruct (Ascii.eqb_spec x c) as [->|_]; [done|]. by rewrite IH.
Qed.

Lemma strrchr_None s c : strrchr s c = None ↔ c ∉ s.
Proof.
  induction s as [|x s IH]; cbn.
  - split; [|done]. intros _ H. inversion H.
  - rewrite not_elem_of_cons. destruct (strrchr s c) as [k|].
    + split; [done|]. intros [_ H]. by apply IH in H.
    + destruct (Ascii.eqb_spec x c) as [->|Hne].
      * split; [done|]. intros [Hne _]. by destruct Hne.
      * split; [|done]. intros _. split; [congruence|]. by apply IH.
Qed.

Lemma strrchr_app s1 s2 c : c ∉ s2 → strrchr (s1 ++ c :: s2) c = Some (length s1).
Proof.
  intros Hnot. apply strrchr_None in Hnot.
  induction s1 as [|x s1 IH]; cbn.
  - by rewrite Hnot, Ascii.eqb_refl.
  - by rewrite IH.
Qed.

Lemma strrchr_Some s c k :
  strrchr s c = Some k →
  ∃ s1 s2, s = s1 ++ c :: s2 ∧ length s1 = k ∧ c ∉ s2.
Proof.
  revert k. induction s as [|x s IH]; intros k; cbn; [done|].
  destruct (strrchr s c) as [j|] eqn:Hj.
  - intros [= <-]. destruct (IH j eq_refl) as (s1 & s2 & -> & <- & Hnot).
    by exists (x :: s1), s2.
  - destruct (Ascii.eqb_spec x c) as [->|_]; [|done]. intros [= <-].
    exists [], s. split_and!; try done. by apply strrchr_None.
Qed.

End Strings.

(** ** Member lists *)

Section Members.
Implicit Types (s m : list ascii) (ms : list (list ascii)).

Lemma split_commas_nonempty s : split_commas s ≠ [].
Proof.
  destruct s as [|c s]; cbn; [done|].
  destruct (Ascii.eqb c ","); [done|]. by destruct (split_commas s).
Qed.

Lemma join_split s : join_commas (split_commas s) = s.
Proof.
  induction s as [|c s IH]; cbn [split_commas]; [done|].
  pose proof (split_commas_nonempty s) as Hne.
  destruct (Ascii.eqb_spec c ",") as [->|_].
  - destruct (split_commas s) as [|m ms]; [done|]. cbn in *. by rewrite IH.
  - destruct (split_commas s) as [|m ms]; [done|].
    rewrite <- IH. by destruct ms.
Qed.

Lemma split_comma_free s : Forall (fun m => ","%char ∉ m) (split_commas s).
Proof.
  induction s as [|c s IH]; cbn [split_commas].
  - repeat constructor. apply not_elem_of_nil.
  - destruct (Ascii.eqb_spec c ",") as [->|Hne].
    + constructor; [apply not_elem_of_nil|done].
    + destruct (split_commas s) as [|m ms].
      * repeat constructor. rewrite list_elem_of_singleton. congruence.
      * inversion IH; subst. constructor; [|done].
        rewrite not_elem_of_cons. split; [congruence|done].
Qed.

Lemma split_no_comma s : ","%char ∉ s → split_commas s = [s].
Proof.
  induction s as [|c s IH]; intros Hnot; [done|].
  apply not_elem_of_cons in Hnot as [Hne Hnot]. cbn.
  destruct (Ascii.eqb_spec c ",") as [->|_]; [done|]. by rewrite IH.
Qed.

Lemma split_elem_subseteq s m x : m ∈ split_commas s → x ∈ m → x ∈ s.
Proof.
  revert m. induction s as [|c s IH]; intros m; cbn [split_commas].
  - rewrite list_elem_of_singleton. by intros ->.
  - destruct (Ascii.eqb_spec c ",") as [->|_].
    + rewrite elem_of_cons. intros [->|Hm] Hx; [by apply elem_of_nil in Hx|].
      right. by apply IH with m.
    + destruct (split_commas s) as [|m' ms] eqn:Hs.
      * by destruct (split_commas_nonempty s).
      * rewrite elem_of_cons. intros [->|Hm] Hx.
        -- apply elem_of_cons in Hx as [->|Hx]; [by left|].
           right. apply IH with m'; [by left|done].
        -- right. apply IH with m; [by right|done].
Qed.

Lemma count_members_split s :
  ∀ k, count_members (s ++ [")"%char]) (S k) = (k + length (split_commas s))%nat.
Proof.
  induction s as [|c s IH]; intros k; cbn [app count_members split_commas].
  - cbn. lia.
  - pose proof (split_commas_nonempty s) as Hne.
    destruct (Ascii.eqb c ","); rewrite IH.
    + cbn. lia.
    + destruct (split_commas s); [done|]. cbn. lia.
Qed.

End Members.

(** ** Rewriting the path buffer *)

Section Buffer.
Implicit Types (pre m rest buf : list ascii).

Lemma strncpy_member m rest : strncpy (m ++ rest) (length m) = m.
Proof.
  unfold strncpy. rewrite take_app_length, length_app.
  replace (length m - (length m + length rest))%nat with 0%nat by lia.
  apply app_nil_r.
Qed.

Lemma rewrite_member pre m rest buf :
  take (length pre) buf = pre →
  (length pre + length m + 2 ≤ length buf)%nat →
  store_bytes buf (length pre) (strncpy (m ++ rest) (length m))
    ≫= (fun b => store_bytes b (length pre + length m) [")"%char; NUL])
  = Some (pre ++ m ++ ")"%char :: NUL :: drop (length pre + length m + 2) buf).
Proof.
  intros Hpre Hlen. rewrite strncpy_member. unfold store_bytes.
  destruct (Nat.leb_spec (length pre + length m) (length buf)); [|lia].
  rewrite Hpre. cbn [mbind option_bind].
  rewrite !length_app, length_drop. cbn [length].
  destruct (Nat.leb_spec (length pre + length m + 2)
              (length pre + (length m + (length buf - (length pre + length m)))));
    [|lia].
  f_equal. rewrite (app_assoc pre m).
  rewrite take_app_length' by (rewrite length_app; lia).
  rewrite (drop_app_add' (pre ++ m) _ (length pre + length m) 2)
    by (rewrite length_app; lia).
  rewrite drop_drop, <- app_assoc. do 4 f_equal.
Qed.

Lemma read_member pre m rest :
  NUL ∉ pre → NUL ∉ m →
  read_cstr (pre ++ m ++ ")"%char :: NUL :: rest) = Some (pre ++ m ++ [")"%char]).
Proof.
  intros Hpre Hm. unfold read_cstr.
  replace (pre ++ m ++ ")"%char :: NUL :: rest)
    with ((pre ++ m ++ [")"%char]) ++ NUL :: rest)
    by (by rewrite <- !app_assoc).
  rewrite strchr_app.
  - cbn. by rewrite take_app_length.
  - rewrite !not_elem_of_app, list_elem_of_singleton. done.
Qed.

Lemma next_member m x rest (members : nat) :
  ","%char ∉ m →
  x = ","%char ∨ x = ")"%char ∧ rest = [] →
  match strchr (m ++ x :: rest) "," with
  | Some k => Some (members + k)%nat
  | None => if (strlen (m ++ x :: rest) =? 0)%nat then None
            else Some (members + strlen (m ++ x :: rest) - 1)%nat
  end = Some (members + length m)%nat.
Proof.
  intros Hm [->|[-> ->]].
  - by rewrite strchr_app.
  - assert (strchr (m ++ [")"%char]) "," = None) as ->.
    { apply strchr_None. rewrite not_elem_of_app, list_elem_of_singleton. done. }
    unfold strlen. rewrite length_app. cbn [length].
    destruct (Nat.eqb_spec (length m + 1) 0); [lia|]. f_equal. lia.
Qed.

End Buffer.

(** ** Running commands *)

Section Steps.
Context {Sys : System}.

Lemma bind_lift_Some {A B} (v : A) (k : A → M Sys B) (w : World Sys) :
  bind (lift (Some v)) k w = k v w.
Proof. done. Qed.

Lemma bind_lift_chain {A B C} (o : option A) (f : A → option B) (v : B)
    (k : B → M Sys C) (w : World Sys) :
  o ≫= f = Some v →
  bind (lift o) (fun x => bind (lift (f x)) k) w = k v w.
Proof. destruct o as [x|]; cbn; [|done]. intros ->. done. Qed.

Lemma deref_run (a : positive) (o : Object) (w : World Sys) :
  heap w !! a = Some o → deref Sys (Z.pos a) w = Some (o, w).
Proof. intros H. unfold deref. by rewrite H. Qed.

Lemma assign_run (a : positive) (o o' : Object) (w : World Sys) :
  heap w !! a = Some o →
  assign Sys (Z.pos a) o' w
  = Some (tt, mkWorld (errno w) (<[a := o']> (heap w)) (brk w) (os w) (trace w)).
Proof. intros H. unfold assign. by rewrite H. Qed.

Lemma store_slot_run (a : positive) (l : option Loader) (slots : list (option Z))
    (i : nat) (h : Z) (w : World Sys) :
  heap w !! a = Some (MultipleObjects l slots) →
  (i < length slots)%nat →
  store_slot Sys (Z.pos a) i h w
  = Some (tt, mkWorld (errno w)
                (<[a := MultipleObjects l (<[i := Some h]> slots)]> (heap w))
                (brk w) (os w) (trace w)).
Proof.
  intros Hheap Hi. unfold store_slot, bind. rewrite (deref_run _ _ _ Hheap).
  destruct (Nat.ltb_spec i (length slots)); [|lia].
  by rewrite (assign_run _ _ _ _ Hheap).
Qed.

End Steps.

(** ** The aggregate close *)

Section Close.
Context (Sys : System).

Lemma multiple_close_loop_spec (hs : list Z) :
  ∀ (rest : list (option Z)) (r0 : Z) (w : World Sys),
    Forall (fun h => h ≠ 0) hs →
    ∃ w',
      multiple_close_loop Sys ((Some <$> hs) ++ Some 0 :: rest) r0 w
      = Some (if forallb (Z.eqb 0) (close_results Sys hs (os w))
              then r0 else EINVAL Sys, w')
      ∧ heap w' = heap w
      ∧ brk w' = brk w
      ∧ trace w' = trace w ++ zip_with EvDlclose hs (close_results Sys hs (os w)).
Proof.
  induction hs as [|h hs IH]; intros rest r0 w Hnz.
  - exists w. cbn. rewrite app_nil_r. done.
  - inversion Hnz as [|? ? Hh Hhs]; subst.
    cbn [fmap list_fmap app multiple_close_loop close_results].
    destruct (Z.eqb_spec h 0) as [|_]; [done|].
    unfold bind at 1, dlclose at 1.
    destruct (sys_dlclose Sys h (os w)) as [[c e] o'] eqn:Hc.
    set (w1 := mkWorld _ _ _ _ _).
    destruct (IH rest (if negb (c =? 0) then EINVAL Sys else r0) w1 Hhs)
      as (w' & Hrun & Hheap & Hbrk & Htr).
    exists w'. rewrite Hrun. cbn [os w1 forallb zip_with].
    repeat split; try done.
    + f_equal. f_equal. rewrite (Z.eqb_sym 0 c).
      destruct (c =? 0); cbn; [done|]. by destruct (forallb _ _).
    + rewrite Htr. cbn. by rewrite <- app_assoc.
Qed.

Lemma close_results_length (hs : list Z) :
  ∀ o : OS Sys, length (close_results Sys hs o) = length hs.
Proof.
  induction hs as [|h hs IH]; intros o; cbn; [done|].
  destruct (sys_dlclose Sys h o) as [[r e] o']. cbn. by rewrite IH.
Qed.

Lemma dlclose_calls_zip (hs rs : list Z) :
  length rs = length hs → dlclose_calls (zip_with EvDlclose hs rs) = hs.
Proof.
  revert rs. induction hs as [|h hs IH]; intros [|r rs] Hlen; cbn in *; try done.
  unfold dlclose_calls in IH. rewrite IH; [done|lia].
Qed.

Lemma forallb_eqb_Exists (rs : list Z) :
  forallb (Z.eqb 0) rs = false ↔ Exists (fun c => c ≠ 0) rs.
Proof.
  induction rs as [|c rs IH]; cbn [forallb].
  - split; [done|]. by inversion 1.
  - rewrite andb_false_iff, IH, Exists_cons, Z.eqb_neq.
    split; (intros [H|H]; [left; congruence|by right]).
Qed.

Lemma multiple_close_run (a : positive) (l : option Loader) (hs : list Z)
    (rest : list (option Z)) (w : World Sys) :
  heap w !! a = Some (MultipleObjects l ((Some <$> hs) ++ Some 0 :: rest)) →
  Forall (fun h => h ≠ 0) hs →
  let rs := close_results Sys hs (os w) in
  ∃ r w',
    multiple_close Sys (Z.pos a) w = Some (r, w')
    ∧ trace w' = trace w ++ zip_with EvDlclose hs rs ++ [EvFree (Z.pos a)]
    ∧ heap w' = delete a (heap w)
    ∧ brk w' = brk w
    ∧ (r ≠ 0 ↔ Exists (fun c => c ≠ 0) rs)
    ∧ (r = 0 ∨ r = EINVAL Sys ∧ errno w' = EINVAL Sys).
Proof.
  intros Hobj Hnz rs.
  unfold multiple_close. cbn [Z.eqb negb].
  unfold bind at 1, load_dlhandles, bind at 1. rewrite (deref_run _ _ _ Hobj).
  cbn [ret].
  destruct (multiple_close_loop_spec hs rest 0 w Hnz)
    as (w1 & Hrun & Hheap & Hbrk & Htr).
  unfold bind at 1. rewrite Hrun. fold rs.
  unfold bind at 1, free. rewrite Hheap, Hobj. cbn [mbind option_bind].
  destruct (forallb (Z.eqb 0) rs) eqn:Hall.
  - cbn. eexists _, _. split; [done|]. cbn.
    rewrite Htr, <- app_assoc.
    split_and!; [done..| |by left].
    split; [done|]. intros Hex%forallb_eqb_Exists. congruence.
  - pose proof (EINVAL_nonzero Sys) as HE.
    destruct (Z.eqb_spec (EINVAL Sys) 0) as [|_]; [done|]. cbn.
    eexists _, _. split; [done|]. cbn.
    rewrite Htr, <- app_assoc.
    split_and!; [done..| |by right].
    split; [|done]. intros _. by apply forallb_eqb_Exists.
Qed.

(** C5.  Closing an aggregate over the native handles [hs] calls the native
    close on every member, in order and whatever the earlier closes
    returned; it frees the aggregate once, after which the handle is
    dangling; and it reports failure (a non-zero result, which is [EINVAL]
    with [errno] set to it) exactly when one of the native closes returned
    non-zero. *)
Theorem multiple_close_every_member (w : World Sys) (handle : Z) (hs : list Z) :
  multiple_handle w handle hs →
  let rs := close_results Sys hs (os w) in
  ∃ r w',
    multiple_close Sys handle w = Some (r, w')
    ∧ length rs = length hs
    ∧ trace w' = trace w ++ zip_with EvDlclose hs rs ++ [EvFree handle]
    ∧ deref Sys handle w' = None
    ∧ (r ≠ 0 ↔ Exists (fun c => c ≠ 0) rs)
    ∧ (r = 0 ∨ r = EINVAL Sys ∧ errno w' = EINVAL Sys).
Proof.
  intros [Hobj Hnz] rs.
  destruct handle as [|a|a]; try done.
  destruct (multiple_close_run a _ hs [] w Hobj Hnz)
    as (r & w' & Hrun & Htr & Hheap & _ & Hiff & Hret).
  exists r, w'. split_and!; try done.
  - apply close_results_length.
  - unfold deref. by rewrite Hheap, lookup_delete_eq.
Qed.

End Close.

(** ** The aggregate lookup *)

Section Lookup.
Context (Sys : System) (symbol : list ascii).

Lemma errno_after_nonzero (c : option Z) (e : Z) :
  c ≠ Some 0 → e ≠ 0 → errno_after c e ≠ 0.
Proof. destruct c as [x|]; cbn; [congruence|done]. Qed.

Lemma multiple_sym_loop_spec (hs : list Z) :
  ∀ (rest : list (option Z)) (w : World Sys),
    Forall (fun h => h ≠ 0) hs →
    ∃ r w' evs,
      multiple_sym_loop Sys ((Some <$> hs) ++ Some 0 :: rest) symbol w = Some (r, w')
      ∧ trace w' = trace w ++ evs
      ∧ heap w' = heap w
      ∧ brk w' = brk w
      ∧ probing Sys symbol hs (errno w) (os w) evs r (errno w').
Proof.
  induction hs as [|h hs IH]; intros rest w Hnz.
  - exists 0, w, []. cbn. rewrite app_nil_r. split_and!; try done. constructor.
  - inversion Hnz as [|? ? Hh Hhs]; subst.
    cbn [fmap list_fmap app multiple_sym_loop].
    destruct (Z.eqb_spec h 0) as [|_]; [done|].
    unfold bind at 1, dlsym at 1.
    destruct (sys_dlsym Sys h symbol (os w)) as [[r c] o'] eqn:Hsym.
    set (w1 := mkWorld _ _ _ _ _).
    unfold bind at 1, get_errno at 1. cbn [errno w1].
    destruct (negb (r =? 0) || negb (errno_after c (errno w) =? 0)) eqn:Hstop.
    + exists r, w1, [EvDlsym h symbol r (errno_after c (errno w))].
      split_and!; try done. cbn. eapply probing_stop; [done|].
      apply orb_true_iff in Hstop as [H|H]; apply negb_true_iff, Z.eqb_neq in H; auto.
    + apply orb_false_iff in Hstop as [Hr He].
      apply negb_false_iff, Z.eqb_eq in Hr, He. subst r.
      destruct (IH rest w1 Hhs) as (r & w' & evs & Hrun & Htr & Hheap & Hbrk & Hp).
      exists r, w', (EvDlsym h symbol 0 0 :: evs). rewrite Hrun.
      split_and!; try done.
      * rewrite Htr. cbn. rewrite He, <- app_assoc. done.
      * cbn in Hp. rewrite He in Hp. eapply probing_next; done.
Qed.

Lemma probing_prefix hs e o evs r e' :
  probing Sys symbol hs e o evs r e' →
  dlsym_calls evs `prefix_of` hs ∧ length (dlsym_calls evs) = length evs.
Proof.
  induction 1 as [| |h hs e o c o' evs r e' Hs He Hp [IH1 IH2]]; cbn.
  - split; [apply prefix_nil|done].
  - split; [|done]. apply prefix_cons, prefix_nil.
  - split; [by apply prefix_cons|]. unfold dlsym_calls in IH2. by rewrite IH2.
Qed.

(** A probe that returns an address or leaves [errno] set is the last one,
    and its result and [errno] are those of the lookup. *)
Lemma probing_stops hs e o evs r e' :
  probing Sys symbol hs e o evs r e' →
  ∀ i h s x c,
    evs !! i = Some (EvDlsym h s x c) → x ≠ 0 ∨ c ≠ 0 →
    r = x ∧ e' = c ∧ length evs = S i.
Proof.
  induction 1 as [| |h hs e o c o' evs r e' Hs He Hp IH];
    intros i h' s x c' Hi Hstop.
  - done.
  - destruct i; [|done]. by inversion Hi; subst.
  - destruct i as [|i]; cbn in Hi.
    + inversion Hi; subst. by destruct Hstop.
    + destruct (IH i h' s x c' Hi Hstop) as (-> & -> & Hlen).
      cbn. by rewrite Hlen.
Qed.

(** When every probe returned null and left [errno] clear, every member
    was probed. *)
Lemma probing_exhausts hs e o evs r e' :
  probing Sys symbol hs e o evs r e' →
  Forall (fun ev => ∃ h, ev = EvDlsym h symbol 0 0) evs →
  dlsym_calls evs = hs ∧ r = 0.
Proof.
  induction 1 as [| h hs e o r c o' Hs Hstop |h hs e o c o' evs r e' Hs He Hp IH];
    intros Hall.
  - done.
  - apply Forall_cons in Hall as [[h' Heq] _]. inversion Heq; subst.
    by destruct Hstop.
  - apply Forall_cons in Hall as [_ Hall]. destruct (IH Hall) as [IH1 ->].
    cbn. unfold dlsym_calls in IH1. by rewrite IH1.
Qed.

Lemma multiple_sym_run (w : World Sys) (handle : Z) (hs : list Z) :
  multiple_handle w handle hs →
  ∃ r w' evs,
    multiple_sym Sys handle symbol w = Some (r, w')
    ∧ trace w' = trace w ++ evs
    ∧ heap w' = heap w
    ∧ probing Sys symbol hs (errno w) (os w) evs r (errno w').
Proof.
  intros [Hobj Hnz].
  destruct handle as [|a|a]; try done.
  unfold multiple_sym. cbn [Z.eqb negb].
  unfold bind at 1, load_dlhandles, bind at 1, deref. rewrite Hobj. cbn.
  destruct (multiple_sym_loop_spec hs [] w Hnz)
    as (r & w' & evs & Hrun & Htr & Hheap & _ & Hp).
  exists r, w', evs. done.
Qed.

(** The first native lookup that returns an address or leaves [errno] set
    ends the aggregate lookup: the members up to it were probed, and its
    result and [errno] are those of the lookup. *)
Lemma probing_first_stop hs e o evs r e' :
  probing Sys symbol hs e o evs r e' →
  ∀ k X c,
    lookup_results Sys symbol hs e o !! k = Some (X, c) →
    X ≠ 0 ∨ c ≠ 0 →
    (∀ j, (j < k)%nat → lookup_results Sys symbol hs e o !! j = Some (0, 0)) →
    r = X ∧ e' = c ∧ dlsym_calls evs = take (S k) hs.
Proof.
  induction 1 as [| h hs e o r c o' Hs Hstop |h hs e o c o' evs r e' Hs He Hp IH];
    intros k X c' Hk HX Hbefore.
  - done.
  - cbn [lookup_results] in Hk, Hbefore. rewrite Hs in Hk, Hbefore.
    destruct k as [|k].
    + cbn in Hk. injection Hk as <- <-. cbn. by rewrite take_0.
    + specialize (Hbefore 0%nat ltac:(lia)). cbn in Hbefore.
      injection Hbefore as -> Hc. by destruct Hstop.
  - cbn [lookup_results] in Hk, Hbefore. rewrite Hs, He in Hk, Hbefore.
    destruct k as [|k].
    + cbn in Hk. injection Hk as <- <-. by destruct HX.
    + cbn in Hk. destruct (IH k X c' Hk HX) as (-> & -> & Hcalls).
      { intros j Hj. apply (Hbefore (S j)). lia. }
      split_and!; try done. cbn. unfold dlsym_calls in Hcalls. by rewrite Hcalls.
Qed.

(** When no native lookup returns an address or leaves [errno] set, every
    member is probed. *)
Lemma probing_all_clear hs e o evs r e' :
  probing Sys symbol hs e o evs r e' →
  Forall (fun rc => rc = (0, 0)) (lookup_results Sys symbol hs e o) →
  r = 0 ∧ dlsym_calls evs = hs.
Proof.
  induction 1 as [| h hs e o r c o' Hs Hstop |h hs e o c o' evs r e' Hs He Hp IH];
    intros Hall.
  - done.
  - cbn [lookup_results] in Hall. rewrite Hs in Hall.
    apply Forall_cons in Hall as [[= -> Hc] _]. by destruct Hstop.
  - cbn [lookup_results] in Hall. rewrite Hs, He in Hall.
    apply Forall_cons in Hall as [_ Hall]. destruct (IH Hall) as [-> Hcalls].
    split; [done|]. cbn. unfold dlsym_calls in Hcalls. by rewrite Hcalls.
Qed.

(** C3.  A lookup through an aggregate over [hs] probes member handles only,
    in open order (the handles probed are a prefix of [hs]); a probe that
    returns a non-null address is the last probe of the call and its address
    is the result.  Whatever the number of members: when the native lookups
    of the first [k] members return null and leave [errno] at zero and the
    native lookup of the next member returns a non-null [X], the lookup
    probes exactly these [k + 1] members and returns [X].  For the members
    [A; B], when the native lookup in [A] returns null and leaves [errno]
    at zero and the native lookup in [B] then returns [X], the result is
    [X]. *)
Theorem multiple_sym_first_match (w : World Sys) (handle : Z) (hs : list Z) :
  multiple_handle w handle hs →
  ∃ r w' evs,
    multiple_sym Sys handle symbol w = Some (r, w')
    ∧ trace w' = trace w ++ evs
    ∧ dlsym_calls evs `prefix_of` hs
    ∧ length (dlsym_calls evs) = length evs
    ∧ (∀ i h x c, evs !! i = Some (EvDlsym h symbol x c) → x ≠ 0 →
                  r = x ∧ length evs = S i)
    ∧ (∀ k X c,
         lookup_results Sys symbol hs (errno w) (os w) !! k = Some (X, c) →
         X ≠ 0 →
         (∀ j, (j < k)%nat →
               lookup_results Sys symbol hs (errno w) (os w) !! j = Some (0, 0)) →
         r = X ∧ errno w' = c ∧ dlsym_calls evs = take (S k) hs)
    ∧ (∀ A B X cA oA cB oB,
         hs = [A; B] →
         sys_dlsym Sys A symbol (os w) = (0, cA, oA) →
         errno_after cA (errno w) = 0 →
         sys_dlsym Sys B symbol oA = (X, cB, oB) →
         r = X ∧ dlsym_calls evs = [A; B]).
Proof.
  intros Hm.
  destruct (multiple_sym_run w handle hs Hm) as (r & w' & evs & Hrun & Htr & _ & Hp).
  exists r, w', evs. destruct (probing_prefix _ _ _ _ _ _ Hp) as [Hpre Hlen].
  split_and!; try done.
  - intros i h x c Hi Hx.
    destruct (probing_stops _ _ _ _ _ _ Hp i h symbol x c Hi) as (? & _ & ?); auto.
  - intros k X c Hk HX Hbefore.
    apply (probing_first_stop _ _ _ _ _ _ Hp k X c Hk); auto.
  - intros A B X cA oA cB oB -> HA HeA HB.
    inversion Hp as [| ? ? ? ? ? ? ? HA' Hstop | ? ? ? ? ? ? ? ? ? HA' _ Hp']; subst.
    + rewrite HA in HA'. inversion HA'; subst. by destruct Hstop.
    + rewrite HA in HA'. inversion HA'; subst.
      inversion Hp' as [| ? ? ? ? ? ? ? HB' _ | ? ? ? ? ? ? ? ? ? HB' _ Hp'']; subst;
        rewrite HB in HB'; inversion HB'; subst; [done|].
      inversion Hp''; subst. done.
Qed.

(** C4.  In a lookup through an aggregate, a probe that returns null with
    [errno] set afterwards is the last probe of the call: the lookup returns
    null with that [errno], and no later member is probed. *)
Theorem multiple_sym_error_stops (w : World Sys) (handle : Z) (hs : list Z) :
  multiple_handle w handle hs →
  ∃ r w' evs,
    multiple_sym Sys handle symbol w = Some (r, w')
    ∧ trace w' = trace w ++ evs
    ∧ dlsym_calls evs `prefix_of` hs
    ∧ (∀ i h c, evs !! i = Some (EvDlsym h symbol 0 c) → c ≠ 0 →
                r = 0 ∧ errno w' = c ∧ length evs = S i
                ∧ dlsym_calls evs = take (S i) hs).
Proof.
  intros Hm.
  destruct (multiple_sym_run w handle hs Hm) as (r & w' & evs & Hrun & Htr & _ & Hp).
  exists r, w', evs. destruct (probing_prefix _ _ _ _ _ _ Hp) as [Hpre Hlen].
  split_and!; try done.
  intros i h c Hi Hc.
  destruct (probing_stops _ _ _ _ _ _ Hp i h symbol 0 c Hi) as (? & ? & Hl); auto.
  split_and!; try done.
  destruct Hpre as [k ->]. rewrite take_app_length'; [done|]. congruence.
Qed.

(** C10, as amended.  The error test of the aggregate lookup reads the
    ambient [errno], which the lookup itself never clears: entered with
    [errno] non-zero, a lookup whose first member's native lookup returns
    null and does not set [errno] to zero returns null after that single
    probe, whatever the later members would have returned. *)
Theorem multiple_sym_stale_errno (w : World Sys) (handle : Z) (h : Z) (hs : list Z)
    (c : option Z) (o' : OS Sys) :
  multiple_handle w handle (h :: hs) →
  errno w ≠ 0 →
  sys_dlsym Sys h symbol (os w) = (0, c, o') →
  c ≠ Some 0 →
  ∃ w',
    multiple_sym Sys handle symbol w = Some (0, w')
    ∧ trace w' = trace w ++ [EvDlsym h symbol 0 (errno_after c (errno w))]
    ∧ errno w' ≠ 0.
Proof.
  intros Hm He Hs Hc.
  destruct (multiple_sym_run w handle _ Hm) as (r & w' & evs & Hrun & Htr & _ & Hp).
  pose proof (errno_after_nonzero c _ Hc He) as Hr.
  inversion Hp as [| ? ? ? ? ? ? ? Hs' _ | ? ? ? ? ? ? ? ? ? Hs' He' _]; subst;
    rewrite Hs in Hs'; inversion Hs'; subst; [|done].
  exists w'. rewrite Hrun, Htr. split_and!; congruence.
Qed.

End Lookup.

(** ** Recognising member syntax *)

Section Recognise.
Implicit Types (path filename content : list ascii).

Lemma member_syntax_Some path o :
  member_syntax path = Some o ↔
  ∃ filename content,
    member_syntax_shape path filename content ∧ length filename = o.
Proof.
  unfold member_syntax, member_syntax_shape, member_path. split.
  - destruct (strrchr path ")") as [closing|] eqn:Hc; [|done].
    apply strrchr_Some in Hc as (s1 & s2 & -> & <- & _).
    rewrite drop_app_length. cbn [strlen length].
    destruct s2 as [|? ?]; [|done]. cbn [Nat.eqb].
    destruct (strrchr (s1 ++ [")"%char]) "(") as [opening|] eqn:Ho; [|done].
    apply strrchr_Some in Ho as (f & rest & Heq & <- & Hnot).
    rewrite Heq, drop_app_length. cbn [strlen length].
    destruct (0 <? length f)%nat eqn:Hf; [|done].
    destruct (2 <? S (length rest))%nat eqn:Hlen; [|done].
    case_bool_decide as Hslash; [done|]. cbn. intros [= <-].
    apply Nat.ltb_lt in Hf, Hlen.
    rewrite strchr_is_Some, not_elem_of_cons in Hslash.
    destruct Hslash as [_ Hslash].
    destruct rest as [|x rest _] using rev_ind; [cbn in Hlen; lia|].
    rewrite length_app in Hlen. cbn in Hlen.
    change (f ++ "("%char :: rest ++ [x]) with (f ++ ("("%char :: rest) ++ [x]) in Heq.
    rewrite app_assoc in Heq. apply app_inj_tail in Heq as [_ <-].
    rewrite not_elem_of_app in Hnot, Hslash.
    exists f, rest. split_and!; try done; try tauto.
    + intros ->. cbn in Hf. lia.
    + intros ->. cbn in Hlen. lia.
  - intros (f & content & (-> & Hf & Hcontent & Hopen & Hslash) & <-).
    change (f ++ "("%char :: content ++ [")"%char])
      with (f ++ ("("%char :: content) ++ [")"%char]).
    rewrite app_assoc, strrchr_app by (intros H; inversion H).
    rewrite drop_app_length. cbn [strlen length Nat.eqb].
    rewrite <- app_assoc. cbn [app].
    rewrite strrchr_app by (rewrite not_elem_of_app, not_elem_of_cons;
                            split; [done|split; [done|intros H; inversion H]]).
    rewrite drop_app_length. cbn [strlen length].
    assert (Hl1 : (0 <? length f)%nat = true)
      by (apply Nat.ltb_lt; destruct f; cbn; [done|lia]).
    assert (Hl2 : (2 <? S (length (content ++ [")"%char])))%nat = true)
      by (apply Nat.ltb_lt; rewrite length_app; destruct content; cbn; [done|lia]).
    rewrite Hl1, Hl2. cbn [andb].
    rewrite bool_decide_eq_false_2; [done|].
    rewrite strchr_is_Some, not_elem_of_cons, not_elem_of_app, list_elem_of_singleton.
    split_and!; done.
Qed.

End Recognise.

(** ** The multi-member open *)

Lemma slots_insert_first (hdone : list Z) (junk : list (option Z)) (h : Z) :
  (0 < length junk)%nat →
  <[length hdone := Some h]> ((Some <$> hdone) ++ junk)
  = (Some <$> hdone) ++ Some h :: drop 1 junk.
Proof.
  intros Hj. rewrite insert_app_r_alt by (rewrite length_fmap; lia).
  rewrite length_fmap, Nat.sub_diag. destruct junk; [cbn in Hj; lia|done].
Qed.

Lemma slots_insert_second (hdone : list Z) (junk : list (option Z)) (h h' : Z) :
  (1 < length junk)%nat →
  <[S (length hdone) := Some h']> ((Some <$> hdone) ++ Some h :: drop 1 junk)
  = (Some <$> hdone) ++ Some h :: Some h' :: drop 2 junk.
Proof.
  intros Hj. rewrite insert_app_r_alt by (rewrite length_fmap; lia).
  rewrite length_fmap. replace (S (length hdone) - length hdone)%nat with 1%nat by lia.
  destruct junk as [|? [|? ?]]; cbn in *; try lia. done.
Qed.

Section OpenLoop.
Context (Sys : System) (filename : list ascii) (mode : Z) (a : positive)
        (l : option Loader).

Lemma join_commas_cons m ms :
  ∃ x rest,
    join_commas (m :: ms) ++ [")"%char] = m ++ x :: rest
    ∧ (x = ","%char ∧ ms ≠ [] ∧ rest = join_commas ms ++ [")"%char]
       ∨ x = ")"%char ∧ ms = [] ∧ rest = []).
Proof.
  destruct ms as [|m2 ms].
  - exists ")"%char, []. split; [done|]. by right.
  - exists ","%char, (join_commas (m2 :: ms) ++ [")"%char]).
    split; [|by left]. cbn [join_commas]. by rewrite <- app_assoc.
Qed.

Lemma multiple_open_loop_spec (path : list ascii) :
  NUL ∉ filename →
  ∀ ms, ms ≠ [] → Forall (fun m => (","%char ∉ m) ∧ (NUL ∉ m)) ms →
  ∀ fuel cdone hdone junk buf (w : World Sys),
    path = (filename ++ ["("%char]) ++ cdone ++ join_commas ms ++ [")"%char] →
    (length (join_commas ms) < fuel)%nat →
    take (length (filename ++ ["("%char])) buf = filename ++ ["("%char] →
    length buf = S (length path) →
    heap w !! a = Some (MultipleObjects l ((Some <$> hdone) ++ junk)) →
    (length ms < length junk)%nat →
    ∃ hs (failed : bool) res w',
      multiple_open_loop Sys fuel path (length (filename ++ ["("%char])) mode
        (Z.pos a) buf (length (filename ++ ["("%char]) + length cdone)
        (length hdone) w = Some (res, w')
      ∧ Forall (fun h => h ≠ 0) hs
      ∧ (if failed then (length hs < length ms)%nat ∧ is_Some res
         else length hs = length ms ∧ res = None)
      ∧ trace w' = trace w ++ open_events filename mode ms
                                (hs ++ if failed then [0] else [])
      ∧ heap w' = <[a := MultipleObjects l
                           ((Some <$> hdone) ++ (Some <$> hs)
                            ++ Some 0 :: drop (S (length hs)) junk)]> (heap w)
      ∧ brk w' = brk w.
Proof.
  intros Hfile ms. set (pre := filename ++ ["("%char]).
  assert (Hpre0 : NUL ∉ pre).
  { unfold pre. rewrite not_elem_of_app, list_elem_of_singleton. done. }
  induction ms as [|m ms IH]; [done|].
  intros _ Hall fuel cdone hdone junk buf w Hpath Hfuel Hbuf Hlen Hheap Hjunk.
  apply Forall_cons in Hall as [[Hcomma Hnul] Hall'].
  destruct (join_commas_cons m ms) as (x & rest & Hjoin & Hx).
  assert (Hdrop : drop (length pre + length cdone) path = m ++ x :: rest).
  { rewrite Hpath, app_assoc, <- Hjoin.
    apply drop_app_length'. by rewrite length_app. }
  assert (Hfuel' : (length m < fuel)%nat).
  { apply (f_equal length) in Hjoin. rewrite !length_app in Hjoin.
    cbn [length] in Hjoin. lia. }
  destruct fuel as [|fuel]; [lia|].
  cbn [multiple_open_loop]. rewrite Hdrop.
  rewrite next_member; [|done|tauto].
  rewrite bind_lift_Some.
  replace (length pre + length cdone + length m - (length pre + length cdone))%nat
    with (length m) by lia.
  assert (Hpathlen : length path
            = (length pre + length cdone + length m + S (length rest))%nat).
  { rewrite Hpath, Hjoin, !length_app. cbn [length]. lia. }
  rewrite (bind_lift_chain _ _ _ _ _
             (rewrite_member pre m (x :: rest) buf Hbuf ltac:(lia))).
  rewrite read_member by done. rewrite bind_lift_Some.
  set (buf' := pre ++ m ++ ")"%char :: NUL :: _).
  unfold bind at 1, dlopen at 1.
  destruct (sys_dlopen Sys (PathStr (pre ++ m ++ [")"%char])) mode (os w))
    as [[h e] o'] eqn:Hopen.
  set (w1 := mkWorld _ _ _ _ _).
  unfold bind at 1.
  rewrite (store_slot_run a l _ (length hdone) h w1 Hheap)
    by (rewrite length_app, length_fmap; cbn in Hjunk; lia).
  rewrite slots_insert_first by (cbn in Hjunk; lia).
  cbn [errno heap brk os trace w1].
  set (w2 := mkWorld _ _ _ _ _).
  assert (Hname : pre ++ m ++ [")"%char] = member_path filename m).
  { unfold pre, member_path. by rewrite <- app_assoc. }
  destruct (Z.eqb_spec h 0) as [->|Hh].
  { exists [], true, (Some (length pre + length cdone)%nat), w2.
    split_and!; try done.
    - cbn. lia.
    - unfold open_events. cbn [app zip_with trace w2 w1].
      by rewrite zip_with_nil_r, Hname. }
  unfold bind at 1.
  assert (Hheap2 : heap w2 !! a
            = Some (MultipleObjects l ((Some <$> hdone) ++ Some h :: drop 1 junk)))
    by apply lookup_insert_eq.
  rewrite (store_slot_run a l _ (S (length hdone)) 0 w2 Hheap2)
    by (rewrite length_app, length_fmap; cbn [length] in *;
        rewrite length_drop; lia).
  rewrite slots_insert_second by (cbn in Hjunk; lia).
  cbn [errno heap brk os trace w2]. rewrite insert_insert_eq.
  set (w3 := mkWorld _ _ _ _ _).
  assert (Hx' : path !! (length pre + length cdone + length m)%nat = Some x).
  { rewrite Hpath, Hjoin, !app_assoc.
    apply list_lookup_middle. rewrite !length_app. lia. }
  rewrite Hx', bind_lift_Some.
  destruct Hx as [(-> & Hms & ->) | (-> & -> & ->)].
  - cbn [Ascii.eqb Bool.eqb andb].
    assert (Hpath' : path = pre ++ (cdone ++ m ++ [","%char])
                              ++ join_commas ms ++ [")"%char]).
    { rewrite Hpath, Hjoin, <- !app_assoc. done. }
    assert (Hheap3 : heap w3 !! a
              = Some (MultipleObjects l ((Some <$> (hdone ++ [h]))
                                         ++ Some 0 :: drop 2 junk))).
    { cbn [heap w3]. rewrite lookup_insert_eq, fmap_app, <- app_assoc. done. }
    destruct (IH Hms Hall' fuel (cdone ++ m ++ [","%char]) (hdone ++ [h])
                (Some 0 :: drop 2 junk) buf' w3 Hpath')
      as (hs & failed & res & w' & Hrun & Hnz & Hres & Htr & Hhp & Hbrk); try done.
    + apply (f_equal length) in Hjoin.
      rewrite !length_app in Hjoin. cbn [length] in Hjoin.
      rewrite !length_app in Hjoin. cbn [length] in Hjoin. lia.
    + unfold buf'. by rewrite take_app_length.
    + unfold buf'. rewrite !length_app. cbn [length]. rewrite length_drop. lia.
    + cbn [length]. rewrite length_drop. cbn in Hjunk. lia.
    + exists (h :: hs), failed, res, w'.
      replace (S (length pre + length cdone + length m))
        with (length pre + length (cdone ++ m ++ [","%char]))%nat
        by (rewrite !length_app; cbn [length]; lia).
      replace (S (length hdone)) with (length (hdone ++ [h]))
        by (rewrite length_app; cbn [length]; lia).
      rewrite Hrun. split_and!; try done.
      * by constructor.
      * cbn [length]. destruct failed; destruct Hres; split; try done; lia.
      * rewrite Htr. unfold open_events. cbn [app zip_with trace w3 w2 w1].
        rewrite <- app_assoc, Hname. done.
      * rewrite Hhp. cbn [heap w3]. rewrite insert_insert_eq.
        rewrite fmap_app, <- app_assoc. cbn [fmap list_fmap app length drop].
        do 5 f_equal. by rewrite drop_drop.
  - cbn [Ascii.eqb Bool.eqb andb].
    exists [h], false, None, w3. split_and!; try done.
    + by repeat constructor.
    + unfold open_events. cbn [app zip_with trace w3 w2 w1]. by rewrite Hname.
Qed.

End OpenLoop.

Section Open.
Context (Sys : System).

Lemma multiple_open_run (filename content : list ascii) (mode : Z) (w : World Sys) :
  NUL ∉ filename → NUL ∉ content →
  ∃ r w' evs,
    multiple_open Sys (member_path filename content) (length filename + 1) mode w
    = Some (r, w')
    ∧ trace w' = trace w ++ evs
    ∧ multiple_outcome filename mode (split_commas content) w w' r evs.
Proof.
  intros Hfile Hcontent.
  set (path := member_path filename content).
  set (ms := split_commas content).
  assert (Hpath : path = (filename ++ ["("%char]) ++ [] ++ join_commas ms ++ [")"%char]).
  { unfold path, member_path, ms. rewrite join_split, <- app_assoc. done. }
  assert (Hmem : (length filename + 1)%nat = length (filename ++ ["("%char]))
    by (by rewrite length_app).
  assert (Hdrop : drop (length filename + 1) path = content ++ [")"%char]).
  { unfold path, member_path. rewrite Hmem.
    change (filename ++ "("%char :: content ++ [")"%char])
      with (filename ++ ["("%char] ++ content ++ [")"%char]).
    by rewrite app_assoc, drop_app_length. }
  unfold multiple_open. unfold bind at 1, strdup at 1.
  destruct (sys_malloc Sys (os w)) as [[ok1 e1] o1] eqn:Hm1.
  set (w1 := mkWorld _ _ _ _ _).
  destruct ok1.
  2:{ cbn. exists 0. eexists _, [EvStrdup false].
      split; [done|]. split; [done|]. by constructor. }
  rewrite Hdrop, (count_members_split content 0). fold ms. cbn [Nat.add].
  unfold bind at 1. unfold bind at 1, malloc at 1. cbn [os w1].
  destruct (sys_malloc Sys o1) as [[ok2 e2] o2] eqn:Hm2.
  destruct ok2.
  2:{ cbn. exists 0. eexists _, [EvStrdup true; EvMalloc 0; EvFreeBuf].
      split; [done|]. split; [by rewrite <- !app_assoc|]. by constructor. }
  cbn [brk w1 Z.eqb negb heap errno trace].
  set (w2 := mkWorld _ _ _ _ _).
  set (a := brk w).
  unfold bind at 1, store_loader at 1, bind at 1.
  assert (Hh2 : heap w2 !! a
            = Some (MultipleObjects None (replicate (S (length ms)) None)))
    by apply lookup_insert_eq.
  rewrite (deref_run _ _ _ Hh2), (assign_run _ _ _ _ Hh2).
  cbn [errno heap brk os trace w2]. rewrite insert_insert_eq.
  set (w3 := mkWorld _ _ _ _ _).
  assert (Hh3 : heap w3 !! a
            = Some (MultipleObjects (Some multipleLoader)
                      ((Some <$> []) ++ replicate (S (length ms)) None)))
    by apply lookup_insert_eq.
  assert (Hms : Forall (fun m => (","%char ∉ m) ∧ (NUL ∉ m)) ms).
  { pose proof (split_comma_free content) as Hc. fold ms in Hc.
    rewrite Forall_forall in Hc |- *. intros m Hm. split; [by apply Hc|].
    intros Hin. apply Hcontent. by apply (split_elem_subseteq content m). }
  destruct (multiple_open_loop_spec Sys filename mode a (Some multipleLoader) path
              Hfile ms (split_commas_nonempty content) Hms
              (strlen (content ++ [")"%char])) [] [] (replicate (S (length ms)) None)
              (path ++ [NUL]) w3 Hpath)
    as (hs & failed & res & w4 & Hrun & Hnz & Hres & Htr & Hhp & Hbrk); try done.
  { unfold ms, strlen. rewrite join_split, length_app. cbn. lia. }
  { rewrite Hpath, <- (app_assoc (filename ++ ["("%char])). apply take_app_length. }
  { rewrite length_app. cbn. lia. }
  { rewrite length_replicate. lia. }
  cbn [length] in Hrun. rewrite Nat.add_0_r, <- Hmem in Hrun.
  unfold bind at 1. unfold bind at 1. rewrite Hrun.
  destruct failed.
  - destruct Hres as [Hlt [n ->]].
    assert (Hh4 : heap w4 !! a
              = Some (MultipleObjects (Some multipleLoader)
                        ((Some <$> hs) ++ Some 0
                         :: drop (S (length hs)) (replicate (S (length ms)) None)))).
    { rewrite Hhp. apply lookup_insert_eq. }
    destruct (multiple_close_run Sys a _ hs _ w4 Hh4 Hnz)
      as (r & w5 & Hclose & Htr5 & Hhp5 & Hbrk5 & _).
    rewrite Hclose. cbn [ret]. unfold bind at 1, free_buf. cbn [ret].
    exists 0. eexists _, _. split; [done|]. cbn [trace].
    rewrite Htr5, Htr. cbn [trace w3]. rewrite <- !app_assoc.
    split; [done|]. cbn [app].
    apply (outcome_unwound filename mode ms w _ hs
             (close_results Sys hs (os w4))); try done.
    + apply close_results_length.
    + cbn [heap]. rewrite Hhp5. apply lookup_delete_eq.
  - destruct Hres as [Hlen ->]. cbn [ret]. unfold bind at 1, free_buf. cbn [ret].
    exists (Z.pos a). eexists _, _. split; [done|]. cbn [trace].
    rewrite Htr. cbn [trace w3]. rewrite app_nil_r, <- !app_assoc.
    split; [done|]. cbn [app].
    apply (outcome_opened filename mode ms w _ hs); try done.
    cbn [heap]. rewrite Hhp. cbn [heap w3]. rewrite insert_insert_eq.
    rewrite Hlen, drop_ge by (by rewrite length_replicate). done.
Qed.

End Open.

(** ** Reading the trace of an open *)

Section Traces.
Context (filename : list ascii) (mode : Z).

Lemma dlopen_rets_open_events ms rets :
  (length rets ≤ length ms)%nat →
  dlopen_rets (open_events filename mode ms rets) = rets.
Proof.
  revert rets. induction ms as [|m ms IH]; intros [|r rets] Hlen; cbn in *;
    try done; try lia.
  unfold dlopen_rets, open_events in IH. rewrite IH; [done|lia].
Qed.

Lemma dlopen_calls_open_events ms rets :
  (length rets ≤ length ms)%nat →
  dlopen_calls (open_events filename mode ms rets)
  = take (length rets) (expected_calls filename mode ms).
Proof.
  revert rets. induction ms as [|m ms IH]; intros [|r rets] Hlen; cbn in *;
    try done; try lia.
  unfold dlopen_calls, open_events in IH. rewrite IH; [done|lia].
Qed.

Lemma dlclose_calls_open_events ms rets :
  dlclose_calls (open_events filename mode ms rets) = [].
Proof.
  revert rets. induction ms as [|m ms IH]; intros [|r rets]; cbn; try done; try apply IH.
Qed.

Lemma frees_open_events ms rets : frees (open_events filename mode ms rets) = [].
Proof.
  revert rets. induction ms as [|m ms IH]; intros [|r rets]; cbn; try done; try apply IH.
Qed.

Lemma malloc_failed_open_events ms rets :
  malloc_failed (open_events filename mode ms rets) = false.
Proof.
  revert rets. induction ms as [|m ms IH]; intros [|r rets]; cbn; try done; try apply IH.
Qed.

Lemma dlopen_rets_closes hs rs : dlopen_rets (zip_with EvDlclose hs rs) = [].
Proof.
  revert rs. induction hs as [|h hs IH]; intros [|r rs]; cbn; try done; try apply IH.
Qed.

Lemma dlopen_calls_closes hs rs : dlopen_calls (zip_with EvDlclose hs rs) = [].
Proof.
  revert rs. induction hs as [|h hs IH]; intros [|r rs]; cbn; try done; try apply IH.
Qed.

Lemma frees_closes hs rs : frees (zip_with EvDlclose hs rs) = [].
Proof.
  revert rs. induction hs as [|h hs IH]; intros [|r rs]; cbn; try done; try apply IH.
Qed.

Lemma malloc_failed_closes hs rs : malloc_failed (zip_with EvDlclose hs rs) = false.
Proof.
  revert rs. induction hs as [|h hs IH]; intros [|r rs]; cbn; try done; try apply IH.
Qed.

Lemma dlopen_rets_length (t : list Event) :
  length (dlopen_rets t) = length (dlopen_calls t).
Proof.
  induction t as [|ev t IH]; [done|].
  destruct ev; cbn; try done. unfold dlopen_rets, dlopen_calls in IH. by rewrite IH.
Qed.

Lemma filter_nonzero_all (hs : list Z) :
  Forall (fun h => h ≠ 0) hs → filter (fun h => h ≠ 0) hs = hs.
Proof.
  induction 1 as [|h hs Hh _ IH]; [done|].
  rewrite filter_cons_True by done. by rewrite IH.
Qed.

Lemma lookup_zero_nonzero (hs : list Z) (k : nat) :
  Forall (fun h => h ≠ 0) hs → (hs ++ [0]) !! k = Some 0 → k = length hs.
Proof.
  intros Hnz Hk. destruct (decide (k < length hs)%nat) as [Hlt|Hge].
  - rewrite lookup_app_l in Hk by done.
    rewrite Forall_forall in Hnz. destruct (Hnz 0); [|done].
    by apply list_elem_of_lookup_2 with k.
  - apply lookup_lt_Some in Hk. rewrite length_app in Hk. cbn in Hk. lia.
Qed.

Lemma opened_trace ms hs (a : positive) :
  (length hs ≤ length ms)%nat →
  let evs := [EvStrdup true; EvMalloc (Z.pos a)]
             ++ open_events filename mode ms hs ++ [EvFreeBuf] in
  dlopen_rets evs = hs
  ∧ dlopen_calls evs = take (length hs) (expected_calls filename mode ms)
  ∧ dlclose_calls evs = []
  ∧ frees evs = []
  ∧ malloc_failed evs = false.
Proof.
  intros Hlen evs. unfold evs, dlopen_rets, dlopen_calls, dlclose_calls, frees,
    malloc_failed.
  rewrite !omap_app, !existsb_app.
  fold (dlopen_rets (open_events filename mode ms hs)).
  fold (dlopen_calls (open_events filename mode ms hs)).
  fold (dlclose_calls (open_events filename mode ms hs)).
  fold (frees (open_events filename mode ms hs)).
  fold (malloc_failed (open_events filename mode ms hs)).
  rewrite dlopen_rets_open_events, dlopen_calls_open_events,
    dlclose_calls_open_events, frees_open_events, malloc_failed_open_events by done.
  cbn. by rewrite !app_nil_r.
Qed.

Lemma unwound_trace ms rets hs rs (a : positive) :
  (length rets ≤ length ms)%nat →
  length rs = length hs →
  let evs := [EvStrdup true; EvMalloc (Z.pos a)]
             ++ open_events filename mode ms rets
             ++ zip_with EvDlclose hs rs
             ++ [EvFree (Z.pos a); EvFreeBuf] in
  dlopen_rets evs = rets
  ∧ dlopen_calls evs = take (length rets) (expected_calls filename mode ms)
  ∧ dlclose_calls evs = hs
  ∧ frees evs = [Z.pos a]
  ∧ malloc_failed evs = false.
Proof.
  intros Hlen Hrs evs. unfold evs, dlopen_rets, dlopen_calls, dlclose_calls, frees,
    malloc_failed.
  rewrite !omap_app, !existsb_app.
  fold (dlopen_rets (open_events filename mode ms rets)).
  fold (dlopen_calls (open_events filename mode ms rets)).
  fold (dlclose_calls (open_events filename mode ms rets)).
  fold (frees (open_events filename mode ms rets)).
  fold (malloc_failed (open_events filename mode ms rets)).
  fold (dlopen_rets (zip_with EvDlclose hs rs)).
  fold (dlopen_calls (zip_with EvDlclose hs rs)).
  fold (dlclose_calls (zip_with EvDlclose hs rs)).
  fold (frees (zip_with EvDlclose hs rs)).
  fold (malloc_failed (zip_with EvDlclose hs rs)).
  rewrite dlopen_rets_open_events, dlopen_calls_open_events,
    dlclose_calls_open_events, frees_open_events, malloc_failed_open_events,
    dlopen_rets_closes, dlopen_calls_closes, dlclose_calls_zip, frees_closes,
    malloc_failed_closes by done.
  cbn. by rewrite !app_nil_r.
Qed.

End Traces.

(** ** The facade *)

Section Facade.
Context (Sys : System).

Lemma single_open_run (path : Path) (mode : Z) (w : World Sys) :
  ∃ r w' evs,
    single_open Sys path mode w = Some (r, w')
    ∧ trace w' = trace w ++ evs
    ∧ single_outcome path mode w w' r evs.
Proof.
  unfold single_open. unfold bind at 1, malloc at 1.
  destruct (sys_malloc Sys (os w)) as [[ok e] o] eqn:Hm.
  destruct ok.
  2:{ exists 0. eexists _, [EvMalloc 0]. cbn. split_and!; try done. by constructor. }
  cbn [Z.eqb negb]. set (w1 := mkWorld _ _ _ _ _). set (a := brk w).
  unfold bind at 1, dlopen at 1.
  destruct (sys_dlopen Sys path mode (os w1)) as [[h e'] o'] eqn:Ho.
  set (w2 := mkWorld _ _ _ _ _).
  assert (Hh2 : heap w2 !! a = Some (SingleObject None None)) by apply lookup_insert_eq.
  unfold bind at 1, store_dlhandle at 1, bind at 1.
  rewrite (deref_run _ _ _ Hh2), (assign_run _ _ _ _ Hh2).
  cbn [errno heap brk os trace w2 w1]. rewrite insert_insert_eq.
  set (w3 := mkWorld _ _ _ _ _).
  assert (Hh3 : heap w3 !! a = Some (SingleObject None (Some h)))
    by apply lookup_insert_eq.
  destruct (Z.eqb_spec h 0) as [->|Hh]; cbn [negb].
  - unfold bind at 1, free. cbn [heap w3]. rewrite lookup_insert_eq.
    cbn [mbind option_bind ret].
    exists 0. eexists _, [EvMalloc (Z.pos a); EvDlopen path mode 0; EvFree (Z.pos a)].
    cbn [trace w3 w2 w1]. rewrite <- !app_assoc. split_and!; try done.
    constructor. cbn [heap]. apply lookup_delete_eq.
  - unfold bind at 1, store_loader at 1, bind at 1.
    rewrite (deref_run _ _ _ Hh3), (assign_run _ _ _ _ Hh3).
    cbn [errno heap brk os trace w3 ret]. rewrite insert_insert_eq.
    exists (Z.pos a). eexists _, [EvMalloc (Z.pos a); EvDlopen path mode h].
    cbn [trace w3 w2 w1]. rewrite <- !app_assoc. split_and!; try done.
    by constructor.
Qed.

Lemma member_syntax_shape_nul path filename content :
  member_syntax_shape path filename content → NUL ∉ path →
  (NUL ∉ filename) ∧ (NUL ∉ content).
Proof.
  intros (-> & _) Hnul. unfold member_path in Hnul.
  rewrite not_elem_of_app, not_elem_of_cons, not_elem_of_app in Hnul. tauto.
Qed.

Lemma ctypes_dlopen_member_syntax path filename content mode :
  member_syntax_shape path filename content →
  ctypes_dlopen Sys (PathStr path) mode
  = if bool_decide (","%char ∈ content)
    then multiple_open Sys path (length filename + 1) (Z.lor mode (RTLD_MEMBER Sys))
    else single_open Sys (PathStr path) (Z.lor mode (RTLD_MEMBER Sys)).
Proof.
  intros Hshape.
  assert (Hsyn : member_syntax path = Some (length filename))
    by (apply member_syntax_Some; eauto).
  unfold ctypes_dlopen. rewrite Hsyn.
  destruct Hshape as (-> & _). unfold member_path. rewrite drop_app_length.
  assert (Hiff : is_Some (strchr ("("%char :: content ++ [")"%char]) ",")
                 ↔ ","%char ∈ content).
  { rewrite strchr_is_Some, elem_of_cons, elem_of_app, list_elem_of_singleton.
    split; [|tauto]. intros [?|[?|?]]; done. }
  destruct (decide (","%char ∈ content)) as [Hin|Hnot].
  - rewrite !bool_decide_eq_true_2; tauto.
  - rewrite !bool_decide_eq_false_2; tauto.
Qed.

(** C1.  A multi-member open in which a native open fails, say the one
    for member k+1 of N: it is the last native open of the attempt; the k
    handles opened before it are non-null and the native close is called on
    each of them once, in order, and on nothing else, so that the closes of
    the attempt are exactly its successful opens (what a close returns is
    ignored); the aggregate is freed once and its address dangles
    afterwards; and the open returns null. *)
Theorem multiple_open_failure_unwinds (w : World Sys)
    (path filename content : list ascii) (mode : Z) :
  member_syntax_shape path filename content →
  ","%char ∈ content →
  NUL ∉ path →
  ∃ r w' evs,
    ctypes_dlopen Sys (PathStr path) mode w = Some (r, w')
    ∧ trace w' = trace w ++ evs
    ∧ ∀ k, dlopen_rets evs !! k = Some 0 →
        (k < length (split_commas content))%nat
        ∧ length (dlopen_rets evs) = S k
        ∧ Forall (fun h => h ≠ 0) (take k (dlopen_rets evs))
        ∧ dlclose_calls evs = take k (dlopen_rets evs)
        ∧ dlclose_calls evs = opened evs
        ∧ EvMalloc (Z.pos (brk w)) ∈ evs
        ∧ frees evs = [Z.pos (brk w)]
        ∧ deref Sys (Z.pos (brk w)) w' = None
        ∧ r = 0.
Proof.
  intros Hshape Hcomma Hnul.
  destruct (member_syntax_shape_nul _ _ _ Hshape Hnul) as [Hf Hc].
  rewrite (ctypes_dlopen_member_syntax _ _ _ _ Hshape), bool_decide_eq_true_2 by done.
  destruct Hshape as (-> & _).
  destruct (multiple_open_run Sys filename content (Z.lor mode (RTLD_MEMBER Sys)) w Hf Hc)
    as (r & w' & evs & Hrun & Htr & Hout).
  exists r, w', evs. split_and!; try done.
  intros k Hk. destruct Hout as [Hheap|Hheap|hs Hlen Hnz Hheap|hs rs Hlt Hnz Hrs Hheap].
  - done.
  - done.
  - destruct (opened_trace filename (Z.lor mode (RTLD_MEMBER Sys))
                (split_commas content) hs (brk w)) as (Hrets & _); [lia|].
    rewrite Hrets in Hk. rewrite Forall_forall in Hnz. destruct (Hnz 0); [|done].
    by apply list_elem_of_lookup_2 with k.
  - destruct (unwound_trace filename (Z.lor mode (RTLD_MEMBER Sys))
                (split_commas content) (hs ++ [0]) hs rs (brk w))
      as (Hrets & _ & Hclose & Hfrees & _);
      [rewrite length_app; cbn; lia|done|].
    unfold opened. rewrite Hrets in Hk |- *. rewrite Hclose, Hfrees.
    apply lookup_zero_nonzero in Hk as ->; [|done].
    rewrite take_app_length, length_app. cbn [length].
    split_and!; try done; try lia.
    + rewrite filter_app, filter_nonzero_all by done.
      rewrite filter_cons_False by (intros H; by apply H). by rewrite app_nil_r.
    + cbn. apply elem_of_cons. right. by left.
    + unfold deref. by rewrite Hheap.
Qed.

(** C2, as amended.  Opening "filename(m1,...,mN)" calls the native open
    on the per-member paths "filename(mi)" in list order, each with the
    member-mode flag ORed into the caller's mode, and on nothing else: the
    calls are a prefix of the N expected ones.  The prefix ends with the
    first native open that fails; it is empty when an allocation fails; and
    it is all N calls when neither happens, which is the case whenever the
    open returns a handle. *)
Theorem member_open_calls (w : World Sys)
    (path filename content : list ascii) (mode : Z) :
  member_syntax_shape path filename content →
  NUL ∉ path →
  let expected := expected_calls filename (Z.lor mode (RTLD_MEMBER Sys))
                                 (split_commas content) in
  ∃ r w' evs,
    ctypes_dlopen Sys (PathStr path) mode w = Some (r, w')
    ∧ trace w' = trace w ++ evs
    ∧ length (dlopen_rets evs) = length (dlopen_calls evs)
    ∧ dlopen_calls evs `prefix_of` expected
    ∧ (∀ k, dlopen_rets evs !! k = Some 0 → length (dlopen_calls evs) = S k)
    ∧ (malloc_failed evs = true → dlopen_calls evs = [] ∧ r = 0)
    ∧ (malloc_failed evs = false → 0 ∉ dlopen_rets evs →
       dlopen_calls evs = expected ∧ r ≠ 0)
    ∧ (r ≠ 0 → dlopen_calls evs = expected).
Proof.
  intros Hshape Hnul expected.
  destruct (member_syntax_shape_nul _ _ _ Hshape Hnul) as [Hf Hc].
  rewrite (ctypes_dlopen_member_syntax _ _ _ _ Hshape).
  pose proof Hshape as (-> & _).
  set (mode' := Z.lor mode (RTLD_MEMBER Sys)) in *.
  case_bool_decide as Hcomma.
  - destruct (multiple_open_run Sys filename content mode' w Hf Hc)
      as (r & w' & evs & Hrun & Htr & Hout).
    exists r, w', evs. split; [done|]. split; [done|].
    split; [apply dlopen_rets_length|].
    assert (Hexp : length expected = length (split_commas content))
      by (unfold expected, expected_calls; apply length_fmap).
    destruct Hout as [Hheap|Hheap|hs Hlen Hnz Hheap|hs rs Hlt Hnz Hrs Hheap].
    + cbn. split_and!; try done. apply prefix_nil.
    + cbn. split_and!; try done. apply prefix_nil.
    + destruct (opened_trace filename mode' (split_commas content) hs (brk w))
        as (Hrets & Hcalls & _ & _ & Hmf); [lia|].
      rewrite Hrets, Hcalls, Hmf.
      fold expected. rewrite Hlen, <- Hexp, firstn_all.
      split_and!; try done.
      intros k Hk. rewrite Forall_forall in Hnz. destruct (Hnz 0); [|done].
      by apply list_elem_of_lookup_2 with k.
    + destruct (unwound_trace filename mode' (split_commas content) (hs ++ [0])
                  hs rs (brk w)) as (Hrets & Hcalls & _ & _ & Hmf);
        [rewrite length_app; cbn; lia|done|].
      rewrite Hrets, Hcalls, Hmf. fold expected.
      split_and!; try done.
      * apply prefix_take.
      * intros k Hk. apply lookup_zero_nonzero in Hk as ->; [|done].
        rewrite length_take, length_app. cbn [length]. lia.
      * intros _ Hnot. destruct Hnot.
        rewrite elem_of_app, list_elem_of_singleton. by right.
  - assert (Hsplit : split_commas content = [content]) by by apply split_no_comma.
    assert (Hexp : expected = [(PathStr (member_path filename content), mode')]).
    { unfold expected. by rewrite Hsplit. }
    destruct (single_open_run (PathStr (member_path filename content)) mode' w)
      as (r & w' & evs & Hrun & Htr & Hout).
    exists r, w', evs. split; [done|]. split; [done|]. rewrite Hexp.
    split; [apply dlopen_rets_length|].
    destruct Hout as [Hheap|h Hh Hheap|Hheap].
    + cbn. split_and!; try done. apply prefix_nil.
    + cbn. split_and!; try done. intros [|k]; cbn; [|done]. by intros [= ->].
    + cbn. split_and!; try done.
      * intros [|k]; cbn; done.
      * intros _ Hnot. destruct Hnot. by left.
Qed.

(** C9, as amended.  A multi-member open that returns a handle leaves, at
    that handle, an aggregate whose slots are the N non-null results of the
    native opens, in open order, followed by one null slot.  On that
    aggregate the close calls the native close on exactly those N handles,
    in order.  The lookup probes a prefix of them and never reads past the
    null slot: it probes the handles in order up to and including the first
    one whose native lookup returns an address or leaves [errno] set, and
    all N when there is no such one. *)
Theorem multiple_open_null_terminated (w : World Sys)
    (path filename content : list ascii) (mode : Z) :
  member_syntax_shape path filename content →
  ","%char ∈ content →
  NUL ∉ path →
  ∃ r w' evs,
    ctypes_dlopen Sys (PathStr path) mode w = Some (r, w')
    ∧ trace w' = trace w ++ evs
    ∧ (r ≠ 0 →
       let hs := dlopen_rets evs in
       length hs = length (split_commas content)
       ∧ multiple_handle w' r hs
       ∧ ∀ (w2 : World Sys) (symbol : list ascii),
           multiple_handle w2 r hs →
           (∃ c w3 evc,
               multiple_close Sys r w2 = Some (c, w3)
               ∧ trace w3 = trace w2 ++ evc
               ∧ dlclose_calls evc = hs)
           ∧ (∃ x w3 evl,
               multiple_sym Sys r symbol w2 = Some (x, w3)
               ∧ trace w3 = trace w2 ++ evl
               ∧ dlsym_calls evl `prefix_of` hs
               ∧ (Forall (fun ev => ∃ h, ev = EvDlsym h symbol 0 0) evl →
                  dlsym_calls evl = hs)
               ∧ (∀ k X c,
                    lookup_results Sys symbol hs (errno w2) (os w2) !! k = Some (X, c) →
                    X ≠ 0 ∨ c ≠ 0 →
                    (∀ j, (j < k)%nat →
                          lookup_results Sys symbol hs (errno w2) (os w2) !! j
                          = Some (0, 0)) →
                    dlsym_calls evl = take (S k) hs)
               ∧ (Forall (fun rc => rc = (0, 0))
                         (lookup_results Sys symbol hs (errno w2) (os w2)) →
                  dlsym_calls evl = hs))).
Proof.
  intros Hshape Hcomma Hnul.
  destruct (member_syntax_shape_nul _ _ _ Hshape Hnul) as [Hf Hc].
  rewrite (ctypes_dlopen_member_syntax _ _ _ _ Hshape), bool_decide_eq_true_2 by done.
  destruct Hshape as (-> & _).
  destruct (multiple_open_run Sys filename content (Z.lor mode (RTLD_MEMBER Sys)) w Hf Hc)
    as (r & w' & evs & Hrun & Htr & Hout).
  exists r, w', evs. split; [done|]. split; [done|].
  destruct Hout as [Hheap|Hheap|hs Hlen Hnz Hheap|hs rs Hlt Hnz Hrs Hheap]; try done.
  intros _.
  destruct (opened_trace filename (Z.lor mode (RTLD_MEMBER Sys))
              (split_commas content) hs (brk w)) as (Hrets & _); [lia|].
  cbv zeta. rewrite Hrets. split; [done|]. split.
  { split; [|done]. rewrite Hheap. apply lookup_insert_eq. }
  intros w2 symbol Hm2. split.
  - destruct Hm2 as [Hobj2 _].
    destruct (multiple_close_run Sys (brk w) _ hs [] w2 Hobj2 Hnz)
      as (c & w3 & Hclose & Htr3 & _).
    exists c, w3. eexists. split; [done|]. split; [done|].
    unfold dlclose_calls. rewrite omap_app.
    fold (dlclose_calls (zip_with EvDlclose hs (close_results Sys hs (os w2)))).
    rewrite dlclose_calls_zip by apply close_results_length. cbn. apply app_nil_r.
  - destruct (multiple_sym_run Sys symbol w2 _ hs Hm2)
      as (x & w3 & evl & Hsym & Htr3 & _ & Hp).
    exists x, w3, evl. split; [done|]. split; [done|].
    split; [by eapply probing_prefix|].
    split; [intros Hall; by eapply probing_exhausts|].
    split.
    + intros k X c Hk HX Hbefore.
      by destruct (probing_first_stop _ _ _ _ _ _ _ _ Hp k X c Hk HX Hbefore)
        as (_ & _ & ?).
    + intros Hall. by destruct (probing_all_clear _ _ _ _ _ _ _ _ Hp Hall).
Qed.

(** C7, as amended.  A path without parentheses, or whose last character is
    not ")", is opened by [single_open] with the path and the caller's mode
    as they are: when the wrapper allocation succeeds there is one native
    open, of that very path with that very mode; when it fails there is no
    native open and the result is null. *)
Theorem literal_path_open (w : World Sys) (path : list ascii) (mode : Z) :
  ("("%char ∉ path) ∧ (")"%char ∉ path) ∨ last path ≠ Some ")"%char →
  ctypes_dlopen Sys (PathStr path) mode w = single_open Sys (PathStr path) mode w
  ∧ ∃ r w' evs,
      ctypes_dlopen Sys (PathStr path) mode w = Some (r, w')
      ∧ trace w' = trace w ++ evs
      ∧ (malloc_failed evs = false → dlopen_calls evs = [(PathStr path, mode)])
      ∧ (malloc_failed evs = true → dlopen_calls evs = [] ∧ r = 0).
Proof.
  intros Hlit.
  assert (Hlast : last path ≠ Some ")"%char).
  { destruct Hlit as [[_ Hclose]|]; [|done].
    intros Hl. apply Hclose. by apply last_Some_elem_of. }
  assert (Hsyn : member_syntax path = None).
  { destruct (member_syntax path) as [o|] eqn:Ho; [|done].
    apply member_syntax_Some in Ho as (f & c & (-> & _) & _).
    destruct Hlast. unfold member_path.
    change (f ++ "("%char :: c ++ [")"%char]) with (f ++ ("("%char :: c) ++ [")"%char]).
    by rewrite app_assoc, last_snoc. }
  assert (Heq : ctypes_dlopen Sys (PathStr path) mode w
                = single_open Sys (PathStr path) mode w).
  { unfold ctypes_dlopen. by rewrite Hsyn. }
  split; [done|]. rewrite Heq.
  destruct (single_open_run (PathStr path) mode w) as (r & w' & evs & Hrun & Htr & Hout).
  exists r, w', evs. split; [done|]. split; [done|].
  destruct Hout as [Hheap|h Hh Hheap|Hheap]; cbn; done.
Qed.

(** C6, as amended.  [ctypes_dlopen] takes a path for member syntax exactly
    when it is a non-empty file name, "(", a non-empty text with no "(" and
    no "/", and ")" as the last character.  A text with a non-empty member
    between its commas is such a text, but the text need not have one.  A
    recognised path is opened with the member-mode flag, by [multiple_open]
    when the text has a comma and by [single_open] otherwise; any other
    string is opened literally. *)
Theorem member_syntax_recognised (path : list ascii) (mode : Z) :
  (is_Some (member_syntax path)
   ↔ ∃ filename content, member_syntax_shape path filename content)
  ∧ ((∃ filename content, member_syntax_nonempty_member path filename content)
     → is_Some (member_syntax path))
  ∧ (member_syntax path = None →
     ctypes_dlopen Sys (PathStr path) mode = single_open Sys (PathStr path) mode)
  ∧ (∀ filename content,
       member_syntax_shape path filename content →
       ctypes_dlopen Sys (PathStr path) mode
       = if bool_decide (","%char ∈ content)
         then multiple_open Sys path (length filename + 1)
                            (Z.lor mode (RTLD_MEMBER Sys))
         else single_open Sys (PathStr path) (Z.lor mode (RTLD_MEMBER Sys))).
Proof.
  split_and!.
  - split.
    + intros [o Ho]. apply member_syntax_Some in Ho as (f & c & Hshape & _). eauto.
    + intros (f & c & Hshape). exists (length f). apply member_syntax_Some. eauto.
  - intros (f & c & Hp & Hf & (m & Hm & Hne) & Hopen & Hslash).
    exists (length f). apply member_syntax_Some. exists f, c.
    split; [|done]. split_and!; try done.
    intros ->. cbn in Hm. apply list_elem_of_singleton in Hm. done.
  - intros Hnone. unfold ctypes_dlopen. by rewrite Hnone.
  - intros f c Hshape. by apply ctypes_dlopen_member_syntax.
Qed.

Lemma load_loader_multiple (w : World Sys) (handle : Z) (hs : list Z) :
  multiple_handle w handle hs →
  load_loader Sys handle w = Some (multipleLoader, w).
Proof.
  intros [Hobj _]. destruct handle as [|a|a]; try done.
  unfold load_loader, bind. by rewrite (deref_run _ _ _ Hobj).
Qed.

(** Through the facade, a handle to an aggregate reaches [multiple_close]
    and [multiple_sym]. *)
Lemma ctypes_dlclose_multiple (w : World Sys) (handle : Z) (hs : list Z) :
  multiple_handle w handle hs →
  is_sentinel Sys handle = false →
  ctypes_dlclose Sys handle w = multiple_close Sys handle w.
Proof.
  intros Hm Hs. unfold ctypes_dlclose. rewrite Hs.
  destruct handle as [|a|a]; try by destruct Hm.
  cbn [Z.eqb negb andb]. unfold bind at 1.
  by rewrite (load_loader_multiple _ _ _ Hm).
Qed.

Lemma ctypes_dlsym_multiple (w : World Sys) (handle : Z) (hs : list Z)
    (symbol : list ascii) :
  multiple_handle w handle hs →
  is_sentinel Sys handle = false →
  ctypes_dlsym Sys handle symbol w = multiple_sym Sys handle symbol w.
Proof.
  intros Hm Hs. unfold ctypes_dlsym. rewrite Hs.
  destruct handle as [|a|a]; try by destruct Hm.
  cbn [Z.eqb negb andb]. unfold bind at 1.
  by rewrite (load_loader_multiple _ _ _ Hm).
Qed.

(** C8, as amended.  The facade never dereferences a null handle: it hands
    it to the native close or lookup, like a sentinel, and returns what the
    native call returns, whatever the heap holds.  The operations of the two
    variants are the ones that reject a null handle: they return the failure
    value with [errno] set to [EINVAL], and call nothing. *)
Theorem null_handle_forwarded (w : World Sys) (symbol : list ascii) :
  ctypes_dlclose Sys 0 w = dlclose Sys 0 w
  ∧ ctypes_dlsym Sys 0 symbol w = dlsym Sys 0 symbol w
  ∧ (∀ hp, ctypes_dlclose Sys 0 (with_heap hp w)
           = prod_map id (with_heap hp) <$> ctypes_dlclose Sys 0 w)
  ∧ (∀ hp, ctypes_dlsym Sys 0 symbol (with_heap hp w)
           = prod_map id (with_heap hp) <$> ctypes_dlsym Sys 0 symbol w)
  ∧ single_close Sys 0 w = Some (EINVAL Sys, with_errno (EINVAL Sys) w)
  ∧ multiple_close Sys 0 w = Some (EINVAL Sys, with_errno (EINVAL Sys) w)
  ∧ single_sym Sys 0 symbol w = Some (0, with_errno (EINVAL Sys) w)
  ∧ multiple_sym Sys 0 symbol w = Some (0, with_errno (EINVAL Sys) w).
Proof.
  split_and!; try done.
  - intros hp. unfold ctypes_dlclose, dlclose. cbn.
    by destruct (sys_dlclose Sys 0 (os w)) as [[r e] o].
  - intros hp. unfold ctypes_dlsym, dlsym. cbn.
    by destruct (sys_dlsym Sys 0 symbol (os w)) as [[r e] o].
Qed.

End Facade.

(** ** The single-member loader and the facade, beyond the claims *)

Section SingleOpen.
Context (Sys : System).

Lemma single_open_cases (path : Path) (mode : Z) (w : World Sys) :
  ∃ r w' evs,
    single_open Sys path mode w = Some (r, w')
    ∧ trace w' = trace w ++ evs
    ∧ ((r = 0 ∧ evs = [EvMalloc 0] ∧ heap w' = heap w ∧ brk w' = brk w)
       ∨ (r = 0
          ∧ evs = [EvMalloc (Z.pos (brk w)); EvDlopen path mode 0;
                   EvFree (Z.pos (brk w))]
          ∧ heap w' = delete (brk w) (heap w)
          ∧ brk w' = Pos.succ (brk w))
       ∨ (∃ h, h ≠ 0
          ∧ r = Z.pos (brk w)
          ∧ evs = [EvMalloc (Z.pos (brk w)); EvDlopen path mode h]
          ∧ heap w' = <[brk w := SingleObject (Some singleLoader) (Some h)]> (heap w)
          ∧ brk w' = Pos.succ (brk w))).
Proof.
  unfold single_open. unfold bind at 1, malloc at 1.
  destruct (sys_malloc Sys (os w)) as [[ok e] o] eqn:Hm.
  destruct ok.
  2:{ exists 0. eexists _, [EvMalloc 0]. cbn. split_and!; try done. by left. }
  cbn [Z.eqb negb]. set (w1 := mkWorld _ _ _ _ _). set (a := brk w).
  unfold bind at 1, dlopen at 1.
  destruct (sys_dlopen Sys path mode (os w1)) as [[h e'] o'] eqn:Ho.
  set (w2 := mkWorld _ _ _ _ _).
  assert (Hh2 : heap w2 !! a = Some (SingleObject None None)) by apply lookup_insert_eq.
  unfold bind at 1, store_dlhandle at 1, bind at 1.
  rewrite (deref_run _ _ _ Hh2), (assign_run _ _ _ _ Hh2).
  cbn [errno heap brk os trace w2 w1]. rewrite insert_insert_eq.
  set (w3 := mkWorld _ _ _ _ _).
  assert (Hh3 : heap w3 !! a = Some (SingleObject None (Some h)))
    by apply lookup_insert_eq.
  destruct (Z.eqb_spec h 0) as [->|Hh]; cbn [negb].
  - unfold bind at 1, free. cbn [heap w3]. rewrite lookup_insert_eq.
    cbn [mbind option_bind ret].
    exists 0. eexists _, [EvMalloc (Z.pos a); EvDlopen path mode 0; EvFree (Z.pos a)].
    cbn [trace w3 w2 w1]. rewrite <- !app_assoc. split_and!; try done.
    right. left. cbn [heap brk]. by rewrite delete_insert_eq.
  - unfold bind at 1, store_loader at 1, bind at 1.
    rewrite (deref_run _ _ _ Hh3), (assign_run _ _ _ _ Hh3).
    cbn [errno heap brk os trace w3 ret]. rewrite insert_insert_eq.
    exists (Z.pos a). eexists _, [EvMalloc (Z.pos a); EvDlopen path mode h].
    cbn [trace w3 w2 w1]. rewrite <- !app_assoc. split_and!; try done.
    right. right. by exists h.
Qed.

Lemma brk_fresh_lookup (w : World Sys) : brk_fresh w → heap w !! brk w = None.
Proof. intros Hf. apply Hf. reflexivity. Qed.

Lemma brk_fresh_delete (w : World Sys) : brk_fresh w → delete (brk w) (heap w) = heap w.
Proof. intros Hf. apply delete_id. by apply brk_fresh_lookup. Qed.

(** X1.  [single_open] allocates one wrapper and, when it got one, calls the
    native open once, with the path and the mode it was given.  It returns a
    handle exactly when the native open returned one: the handle is the new
    wrapper, which holds that native handle and the [singleLoader] table.
    When it returns null (no memory for the wrapper, or the native open
    failed) no native handle is open, the wrapper it allocated is freed, and
    the heap is as it was. *)
Theorem single_open_wraps (path : Path) (mode : Z) (w : World Sys) :
  brk_fresh w →
  ∃ r w' evs,
    single_open Sys path mode w = Some (r, w')
    ∧ trace w' = trace w ++ evs
    ∧ brk_fresh w'
    ∧ (dlopen_calls evs = [] ∨ dlopen_calls evs = [(path, mode)])
    ∧ (r = 0 → heap w' = heap w ∧ opened evs = [] ∧ frees evs = allocs evs)
    ∧ (r ≠ 0 →
       ∃ h, h ≠ 0
         ∧ r = Z.pos (brk w)
         ∧ evs = [EvMalloc r; EvDlopen path mode h]
         ∧ heap w' = <[brk w := SingleObject (Some singleLoader) (Some h)]> (heap w)
         ∧ single_handle w' r h).
Proof.
  intros Hf.
  destruct (single_open_cases path mode w) as (r & w' & evs & Hrun & Htr & Hc).
  exists r, w', evs. split; [done|]. split; [done|].
  destruct Hc as [(-> & -> & Hh & Hb)|[(-> & -> & Hh & Hb)|(h & Hh0 & -> & -> & Hh & Hb)]].
  - split_and!; try done; [|by left].
    intros a Ha. rewrite Hh. apply Hf. by rewrite <- Hb.
  - rewrite brk_fresh_delete in Hh by done. split_and!; try done; [|by right].
    intros a Ha. rewrite Hh. apply Hf. rewrite Hb in Ha. lia.
  - split_and!; try done.
    + intros a Ha. rewrite Hh, Hb in *. rewrite lookup_insert_ne by lia. apply Hf. lia.
    + by right.
    + intros _. exists h. split_and!; try done. cbn. rewrite Hh. apply lookup_insert_eq.
Qed.

End SingleOpen.

Section MultipleOpenHeap.
Context (Sys : System).

Lemma multiple_open_cases (filename content : list ascii) (mode : Z) (w : World Sys) :
  NUL ∉ filename → NUL ∉ content →
  let ms := split_commas content in
  let a := brk w in
  ∃ r w' evs,
    multiple_open Sys (member_path filename content) (length filename + 1) mode w
    = Some (r, w')
    ∧ trace w' = trace w ++ evs
    ∧ (r = 0 ∧ evs = [EvStrdup false] ∧ heap w' = heap w ∧ brk w' = a
       ∨ r = 0 ∧ evs = [EvStrdup true; EvMalloc 0; EvFreeBuf]
         ∧ heap w' = heap w ∧ brk w' = a
       ∨ (∃ hs, r = Z.pos a
            ∧ length hs = length ms
            ∧ Forall (fun h => h ≠ 0) hs
            ∧ evs = [EvStrdup true; EvMalloc (Z.pos a)]
                    ++ open_events filename mode ms hs ++ [EvFreeBuf]
            ∧ heap w' = <[a := MultipleObjects (Some multipleLoader)
                                               ((Some <$> hs) ++ [Some 0])]> (heap w)
            ∧ brk w' = Pos.succ a)
       ∨ (∃ hs rs, r = 0
            ∧ (length hs < length ms)%nat
            ∧ Forall (fun h => h ≠ 0) hs
            ∧ length rs = length hs
            ∧ evs = [EvStrdup true; EvMalloc (Z.pos a)]
                    ++ open_events filename mode ms (hs ++ [0])
                    ++ zip_with EvDlclose hs rs
                    ++ [EvFree (Z.pos a); EvFreeBuf]
            ∧ heap w' = delete a (heap w)
            ∧ brk w' = Pos.succ a)).
Proof.
  intros Hfile Hcontent ms a.
  set (path := member_path filename content).
  assert (Hpath : path = (filename ++ ["("%char]) ++ [] ++ join_commas ms ++ [")"%char]).
  { unfold path, member_path, ms. rewrite join_split, <- app_assoc. done. }
  assert (Hmem : (length filename + 1)%nat = length (filename ++ ["("%char]))
    by (by rewrite length_app).
  assert (Hdrop : drop (length filename + 1) path = content ++ [")"%char]).
  { unfold path, member_path. rewrite Hmem.
    change (filename ++ "("%char :: content ++ [")"%char])
      with (filename ++ ["("%char] ++ content ++ [")"%char]).
    by rewrite app_assoc, drop_app_length. }
  unfold multiple_open. unfold bind at 1, strdup at 1.
  destruct (sys_malloc Sys (os w)) as [[ok1 e1] o1] eqn:Hm1.
  set (w1 := mkWorld _ _ _ _ _).
  destruct ok1.
  2:{ cbn. exists 0. eexists _, [EvStrdup false].
      split; [done|]. split; [done|]. by left. }
  rewrite Hdrop, (count_members_split content 0). fold ms. cbn [Nat.add].
  unfold bind at 1. unfold bind at 1, malloc at 1. cbn [os w1].
  destruct (sys_malloc Sys o1) as [[ok2 e2] o2] eqn:Hm2.
  destruct ok2.
  2:{ cbn. exists 0. eexists _, [EvStrdup true; EvMalloc 0; EvFreeBuf].
      split; [done|]. split; [by rewrite <- !app_assoc|]. right. by left. }
  cbn [brk w1 Z.eqb negb heap errno trace].
  set (w2 := mkWorld _ _ _ _ _). fold a.
  unfold bind at 1, store_loader at 1, bind at 1.
  assert (Hh2 : heap w2 !! a
            = Some (MultipleObjects None (replicate (S (length ms)) None)))
    by apply lookup_insert_eq.
  rewrite (deref_run _ _ _ Hh2), (assign_run _ _ _ _ Hh2).
  cbn [errno heap brk os trace w2]. rewrite insert_insert_eq.
  set (w3 := mkWorld _ _ _ _ _).
  assert (Hh3 : heap w3 !! a
            = Some (MultipleObjects (Some multipleLoader)
                      ((Some <$> []) ++ replicate (S (length ms)) None)))
    by apply lookup_insert_eq.
  assert (Hms : Forall (fun m => (","%char ∉ m) ∧ (NUL ∉ m)) ms).
  { pose proof (split_comma_free content) as Hc. fold ms in Hc.
    rewrite Forall_forall in Hc |- *. intros m Hm. split; [by apply Hc|].
    intros Hin. apply Hcontent. by apply (split_elem_subseteq content m). }
  destruct (multiple_open_loop_spec Sys filename mode a (Some multipleLoader) path
              Hfile ms (split_commas_nonempty content) Hms
              (strlen (content ++ [")"%char])) [] [] (replicate (S (length ms)) None)
              (path ++ [NUL]) w3 Hpath)
    as (hs & failed & res & w4 & Hrun & Hnz & Hres & Htr & Hhp & Hbrk); try done.
  { unfold ms, strlen. rewrite join_split, length_app. cbn. lia. }
  { rewrite Hpath, <- (app_assoc (filename ++ ["("%char])). apply take_app_length. }
  { rewrite length_app. cbn. lia. }
  { rewrite length_replicate. lia. }
  cbn [length] in Hrun. rewrite Nat.add_0_r, <- Hmem in Hrun.
  unfold bind at 1. unfold bind at 1. rewrite Hrun.
  destruct failed.
  - destruct Hres as [Hlt [n ->]].
    assert (Hh4 : heap w4 !! a
              = Some (MultipleObjects (Some multipleLoader)
                        ((Some <$> hs) ++ Some 0
                         :: drop (S (length hs)) (replicate (S (length ms)) None)))).
    { rewrite Hhp. apply lookup_insert_eq. }
    destruct (multiple_close_run Sys a _ hs _ w4 Hh4 Hnz)
      as (r & w5 & Hclose & Htr5 & Hhp5 & Hbrk5 & _).
    rewrite Hclose. cbn [ret]. unfold bind at 1, free_buf. cbn [ret].
    exists 0. eexists _, _. split; [done|]. cbn [trace].
    rewrite Htr5, Htr. cbn [trace w3]. rewrite <- !app_assoc.
    split; [done|]. cbn [app]. do 3 right.
    exists hs, (close_results Sys hs (os w4)). cbn [heap brk].
    rewrite Hbrk5, Hbrk, Hhp5, Hhp. cbn [heap brk w3].
    rewrite !delete_insert_eq. split_and!; try done.
    apply close_results_length.
  - destruct Hres as [Hlen ->]. cbn [ret]. unfold bind at 1, free_buf. cbn [ret].
    exists (Z.pos a). eexists _, _. split; [done|]. cbn [trace].
    rewrite Htr. cbn [trace w3]. rewrite app_nil_r, <- !app_assoc.
    split; [done|]. cbn [app]. do 2 right. left.
    exists hs. cbn [heap brk]. rewrite Hbrk, Hhp. cbn [heap brk w3].
    rewrite insert_insert_eq.
    rewrite Hlen, drop_ge by (by rewrite length_replicate). done.
Qed.

End MultipleOpenHeap.

Section TraceReaders.
Context (filename : list ascii) (mode : Z).

Lemma omap_open_events {B} (f : Event → option B) ms rets :
  (∀ p m r, f (EvDlopen p m r) = None) →
  omap f (open_events filename mode ms rets) = [].
Proof.
  intros Hf. revert rets.
  induction ms as [|m ms IH]; intros [|r rets]; cbn; try done.
  rewrite Hf. apply IH.
Qed.

Lemma omap_closes {B} (f : Event → option B) (hs rs : list Z) :
  (∀ h r, f (EvDlclose h r) = None) →
  omap f (zip_with EvDlclose hs rs) = [].
Proof.
  intros Hf. revert rs.
  induction hs as [|h hs IH]; intros [|r rs]; cbn; try done.
  rewrite Hf. apply IH.
Qed.

End TraceReaders.

Lemma dlclose_calls_app t1 t2 :
  dlclose_calls (t1 ++ t2) = dlclose_calls t1 ++ dlclose_calls t2.
Proof. apply omap_app. Qed.

Lemma dlopen_rets_app t1 t2 :
  dlopen_rets (t1 ++ t2) = dlopen_rets t1 ++ dlopen_rets t2.
Proof. apply omap_app. Qed.

Lemma frees_app t1 t2 : frees (t1 ++ t2) = frees t1 ++ frees t2.
Proof. apply omap_app. Qed.

Lemma allocs_app t1 t2 : allocs (t1 ++ t2) = allocs t1 ++ allocs t2.
Proof. apply omap_app. Qed.

Lemma allocs_closes hs rs : allocs (zip_with EvDlclose hs rs) = [].
Proof. by apply omap_closes. Qed.

Section FacadeOpen.
Context (Sys : System).

(** Where [ctypes_dlopen] sends a string: to [single_open] with the string
    as it is, or to [multiple_open] when it has member syntax with a comma. *)
Lemma ctypes_dlopen_dispatch (path : list ascii) (mode : Z) :
  (∃ mode', ctypes_dlopen Sys (PathStr path) mode = single_open Sys (PathStr path) mode')
  ∨ (∃ filename content,
        member_syntax_shape path filename content
        ∧ ctypes_dlopen Sys (PathStr path) mode
          = multiple_open Sys path (length filename + 1)
                          (Z.lor mode (RTLD_MEMBER Sys))).
Proof.
  destruct (member_syntax path) as [o|] eqn:Ho.
  - apply member_syntax_Some in Ho as (f & c & Hshape & _).
    rewrite (ctypes_dlopen_member_syntax Sys _ _ _ _ Hshape).
    case_bool_decide; [right|left]; eauto.
  - left. exists mode. unfold ctypes_dlopen. by rewrite Ho.
Qed.

(** The ways an open of a string can end, with the heap it leaves. *)
Lemma ctypes_dlopen_cases (path : list ascii) (mode : Z) (w : World Sys) :
  NUL ∉ path →
  ∃ r w' evs,
    ctypes_dlopen Sys (PathStr path) mode w = Some (r, w')
    ∧ trace w' = trace w ++ evs
    ∧ dlsym_calls evs = []
    ∧ buffers_made evs = buffers_freed evs
    ∧ (r = 0 ∧ allocs evs = [] ∧ frees evs = [] ∧ dlopen_rets evs = []
         ∧ dlclose_calls evs = []
         ∧ heap w' = heap w ∧ brk w' = brk w
       ∨ r = 0 ∧ allocs evs = [Z.pos (brk w)] ∧ frees evs = [Z.pos (brk w)]
         ∧ dlclose_calls evs = opened evs
         ∧ heap w' = delete (brk w) (heap w) ∧ brk w' = Pos.succ (brk w)
       ∨ r = Z.pos (brk w) ∧ allocs evs = [Z.pos (brk w)] ∧ frees evs = []
         ∧ dlclose_calls evs = []
         ∧ Forall (fun h => h ≠ 0) (dlopen_rets evs)
         ∧ brk w' = Pos.succ (brk w)
         ∧ ∃ obj, heap w' = <[brk w := obj]> (heap w)
             ∧ ((∃ h, dlopen_rets evs = [h]
                      ∧ obj = SingleObject (Some singleLoader) (Some h))
                ∨ obj = MultipleObjects (Some multipleLoader)
                          ((Some <$> dlopen_rets evs) ++ [Some 0]))).
Proof.
  intros Hnul.
  destruct (ctypes_dlopen_dispatch path mode)
    as [[mode' ->]|(f & c & Hshape & ->)].
  - destruct (single_open_cases Sys (PathStr path) mode' w)
      as (r & w' & evs & Hrun & Htr & Hc).
    exists r, w', evs. split; [done|]. split; [done|].
    destruct Hc as [(-> & -> & Hh & Hb)|[(-> & -> & Hh & Hb)
                   |(h & Hh0 & -> & -> & Hh & Hb)]].
    + split_and!; try done. by left.
    + split_and!; try done. right. left. done.
    + split_and!; try done. right. right. cbn.
      split_and!; try done; [by repeat constructor|].
      eexists. split; [done|]. left. by exists h.
  - destruct (member_syntax_shape_nul _ _ _ Hshape Hnul) as [Hf Hc].
    destruct Hshape as (-> & _).
    set (mode' := Z.lor mode (RTLD_MEMBER Sys)).
    destruct (multiple_open_cases Sys f c mode' w Hf Hc)
      as (r & w' & evs & Hrun & Htr & Hout).
    exists r, w', evs. split; [done|]. split; [done|].
    destruct Hout as [(-> & -> & Hh & Hb)|[(-> & -> & Hh & Hb)
                     |[(hs & -> & Hlen & Hnz & -> & Hh & Hb)
                      |(hs & rs & -> & Hlt & Hnz & Hrs & -> & Hh & Hb)]]].
    + split_and!; try done. by left.
    + split_and!; try done. by left.
    + destruct (opened_trace f mode' (split_commas c) hs (brk w))
        as (Hrets & _ & Hcl & Hfr & _); [lia|].
      rewrite Hrets, Hcl, Hfr.
      unfold dlsym_calls, buffers_made, buffers_freed, allocs.
      rewrite !omap_app, !omap_open_events by done. cbn.
      split_and!; try done. right. right. split_and!; try done.
      eexists. split; [done|]. by right.
    + destruct (unwound_trace f mode' (split_commas c) (hs ++ [0]) hs rs (brk w))
        as (Hrets & _ & Hcl & Hfr & _); [rewrite length_app; cbn; lia|done|].
      unfold opened. rewrite Hrets, Hcl, Hfr.
      unfold dlsym_calls, buffers_made, buffers_freed, allocs.
      rewrite !omap_app, !omap_open_events, !omap_closes by done. cbn.
      split_and!; try done. right. left. split_and!; try done.
      rewrite filter_app, filter_nonzero_all by done.
      rewrite filter_cons_False by (intros H; by apply H). by rewrite app_nil_r.
Qed.

End FacadeOpen.

Section Counters.
Context (INT_MAX : Z).


(** On a longer text they do overflow: [++i] does, after [INT_MAX]
    characters. *)
Lemma count_members_int_overflow (members : list ascii) :
  ∀ (i memberno : Z),
    i ≤ INT_MAX →
    INT_MAX < i + Z.of_nat (length members) →
    count_members_int INT_MAX members i memberno = None.
Proof.
  induction members as [|c members IH]; intros i memberno Hle Hi;
    cbn [count_members_int length] in *; [lia|].
  destruct (if Ascii.eqb c "," then _ else _) as [m|]; [|done]. cbn.
  destruct (Z.ltb_spec i INT_MAX); [|done]. apply IH; lia.
Qed.

End Counters.

Section FacadeExtras.
Context (Sys : System).

Lemma brk_fresh_frame (w w' : World Sys) :
  brk_fresh w →
  heap w' = delete (brk w) (heap w) → heap w' = heap w.
Proof. intros Hf ->. by apply brk_fresh_delete. Qed.


(** X9.  An open of a C string that returns null leaves the heap as it was:
    what it allocated it has freed, and every native handle it opened it
    has closed (the native closes are the non-null results of the native
    opens, in order).  In every outcome, success too, the copy of the path
    is released exactly when it was made. *)
Theorem ctypes_dlopen_failure_restores (path : list ascii) (mode : Z) (w : World Sys) :
  NUL ∉ path →
  brk_fresh w →
  ∃ r w' evs,
    ctypes_dlopen Sys (PathStr path) mode w = Some (r, w')
    ∧ trace w' = trace w ++ evs
    ∧ buffers_made evs = buffers_freed evs
    ∧ (r = 0 →
       heap w' = heap w
       ∧ dlclose_calls evs = opened evs
       ∧ frees evs = allocs evs).
Proof.
  intros Hnul Hf.
  destruct (ctypes_dlopen_cases Sys path mode w Hnul)
    as (r & w' & evs & Hrun & Htr & _ & Hbuf & Hc).
  exists r, w', evs. split; [done|]. split; [done|]. split; [done|].
  destruct Hc as [(-> & Hal & Hfr & Hrets & Hcl & Hh & Hb)
                 |[(-> & Hal & Hfr & Hcl & Hh & Hb)
                  |(-> & _)]]; [| |done].
  - intros _. unfold opened. rewrite Hal, Hfr, Hrets, Hcl. done.
  - intros _. rewrite Hal, Hfr. split_and!; try done. by apply brk_fresh_frame.
Qed.

Lemma load_loader_single (w : World Sys) (handle h : Z) :
  single_handle w handle h →
  load_loader Sys handle w = Some (singleLoader, w).
Proof.
  intros Hobj. destruct handle as [|a|a]; try done.
  unfold load_loader, bind. by rewrite (deref_run _ _ _ Hobj).
Qed.

Lemma ctypes_dlclose_single (w : World Sys) (a : positive) (h c : Z)
    (e : option Z) (o' : OS Sys) :
  single_handle w (Z.pos a) h →
  is_sentinel Sys (Z.pos a) = false →
  sys_dlclose Sys h (os w) = (c, e, o') →
  ctypes_dlclose Sys (Z.pos a) w
  = Some (c, mkWorld (errno_after e (errno w)) (delete a (heap w)) (brk w) o'
                     (trace w ++ [EvDlclose h c; EvFree (Z.pos a)])).
Proof.
  intros Hobj Hs Hc. unfold ctypes_dlclose. rewrite Hs.
  cbn [Z.eqb negb andb]. unfold bind at 1.
  rewrite (load_loader_single _ _ _ Hobj). cbn [dl_close].
  unfold single_close. cbn [Z.eqb negb].
  unfold bind at 1, load_dlhandle, bind at 1. cbn in Hobj.
  rewrite (deref_run _ _ _ Hobj). cbn [lift ret].
  unfold bind at 1, dlclose. rewrite Hc.
  unfold bind at 1, free. cbn [heap]. rewrite Hobj. cbn.
  by rewrite <- app_assoc.
Qed.

(** X2.  Closing a Single handle through the facade calls the native close
    once, on the wrapped native handle, and returns what that call
    returned, success or failure; [errno] is as the native close left it.
    The wrapper is freed whatever the native close returned, so the handle
    dangles afterwards; no other object is touched. *)
Theorem single_close_releases (w : World Sys) (handle h c : Z)
    (e : option Z) (o' : OS Sys) :
  single_handle w handle h →
  is_sentinel Sys handle = false →
  sys_dlclose Sys h (os w) = (c, e, o') →
  ∃ w',
    ctypes_dlclose Sys handle w = Some (c, w')
    ∧ trace w' = trace w ++ [EvDlclose h c; EvFree handle]
    ∧ errno w' = errno_after e (errno w)
    ∧ deref Sys handle w' = None
    ∧ (∀ a, Z.pos a ≠ handle → heap w' !! a = heap w !! a).
Proof.
  intros Hobj Hs Hc. destruct handle as [|a|a]; try done.
  rewrite (ctypes_dlclose_single w a h c e o' Hobj Hs Hc).
  eexists. split; [done|]. cbn. split_and!; try done.
  - by rewrite lookup_delete_eq.
  - intros a' Ha. rewrite lookup_delete_ne; [done|]. congruence.
Qed.

(** X3.  A lookup through a Single handle is the native lookup on the
    wrapped native handle: one native call, whose result and [errno] are
    those of the lookup; [errno] is not tested as it is in the aggregate
    lookup.  The heap is left as it was and the handle stays valid. *)
Theorem single_sym_forwards (w : World Sys) (handle h : Z) (symbol : list ascii) :
  single_handle w handle h →
  is_sentinel Sys handle = false →
  ctypes_dlsym Sys handle symbol w = dlsym Sys h symbol w
  ∧ ∃ x w',
      ctypes_dlsym Sys handle symbol w = Some (x, w')
      ∧ trace w' = trace w ++ [EvDlsym h symbol x (errno w')]
      ∧ heap w' = heap w
      ∧ single_handle w' handle h.
Proof.
  intros Hobj Hs.
  assert (Heq : ctypes_dlsym Sys handle symbol w = dlsym Sys h symbol w).
  { unfold ctypes_dlsym. rewrite Hs.
    destruct handle as [|a|a]; try done.
    cbn [Z.eqb negb andb]. unfold bind at 1.
    rewrite (load_loader_single _ _ _ Hobj). cbn [dl_sym].
    unfold single_sym. cbn [Z.eqb negb].
    unfold bind at 1, load_dlhandle, bind at 1. cbn in Hobj.
    by rewrite (deref_run _ _ _ Hobj). }
  split; [done|]. rewrite Heq. unfold dlsym.
  destruct (sys_dlsym Sys h symbol (os w)) as [[x e] o].
  eexists _, _. split; [done|]. cbn. split_and!; done.
Qed.

(** X4.  A sentinel handle (RTLD_DEFAULT, RTLD_MYSELF, RTLD_NEXT) is never
    dereferenced: the facade hands it to the native close or lookup and
    returns what that returns, whatever the heap holds.  A sentinel given
    as the path of an open, like a null path, goes to [single_open] with
    the mode as it is. *)
Theorem sentinel_passthrough (w : World Sys) (s : Z) (symbol : list ascii) (mode : Z) :
  is_sentinel Sys s = true →
  ctypes_dlclose Sys s w = dlclose Sys s w
  ∧ ctypes_dlsym Sys s symbol w = dlsym Sys s symbol w
  ∧ (∀ hp, ctypes_dlclose Sys s (with_heap hp w)
           = prod_map id (with_heap hp) <$> ctypes_dlclose Sys s w)
  ∧ (∀ hp, ctypes_dlsym Sys s symbol (with_heap hp w)
           = prod_map id (with_heap hp) <$> ctypes_dlsym Sys s symbol w)
  ∧ ctypes_dlopen Sys (PathPtr s) mode w = single_open Sys (PathPtr s) mode w
  ∧ ctypes_dlopen Sys (PathPtr 0) mode w = single_open Sys (PathPtr 0) mode w.
Proof.
  intros Hs.
  assert (Hc : ∀ w, ctypes_dlclose Sys s w = dlclose Sys s w).
  { intros w0. unfold ctypes_dlclose. rewrite Hs. by rewrite andb_false_r. }
  assert (Hy : ∀ w, ctypes_dlsym Sys s symbol w = dlsym Sys s symbol w).
  { intros w0. unfold ctypes_dlsym. rewrite Hs. by rewrite andb_false_r. }
  split_and!; try done.
  - intros hp. rewrite !Hc. unfold dlclose. cbn.
    by destruct (sys_dlclose Sys s (os w)) as [[r e] o].
  - intros hp. rewrite !Hy. unfold dlsym. cbn.
    by destruct (sys_dlsym Sys s symbol (os w)) as [[r e] o].
  - unfold ctypes_dlopen. rewrite Hs. by rewrite andb_false_r.
Qed.

End FacadeExtras.

Section RoundTrip.
Context (Sys : System).

Lemma dangling_handle (w : World Sys) (a : positive) :
  heap w !! a = None →
  is_sentinel Sys (Z.pos a) = false →
  ctypes_dlclose Sys (Z.pos a) w = None
  ∧ ∀ symbol, ctypes_dlsym Sys (Z.pos a) symbol w = None.
Proof.
  intros Hh Hs. unfold ctypes_dlclose, ctypes_dlsym. rewrite Hs.
  cbn [Z.eqb negb andb]. unfold bind, load_loader, bind, deref. by rewrite Hh.
Qed.

(** X5.  Open, then close.  When the open of a string returns a handle,
    closing that handle calls the native close on exactly the native
    handles the open got, in open order, each once; it frees exactly the
    wrapper the open allocated; and the heap is again as it was before the
    open.  The handle dangles afterwards: a second close, or a lookup
    through it, reads freed memory. *)
Theorem open_close_round_trip (path : list ascii) (mode : Z)
    (w w1 : World Sys) (r : Z) :
  NUL ∉ path →
  brk_fresh w →
  ctypes_dlopen Sys (PathStr path) mode w = Some (r, w1) →
  r ≠ 0 →
  is_sentinel Sys r = false →
  ∃ c w2 evs,
    ctypes_dlclose Sys r w1 = Some (c, w2)
    ∧ trace w2 = trace w ++ evs
    ∧ dlclose_calls evs = dlopen_rets evs
    ∧ frees evs = allocs evs
    ∧ heap w2 = heap w
    ∧ ctypes_dlclose Sys r w2 = None
    ∧ ∀ symbol, ctypes_dlsym Sys r symbol w2 = None.
Proof.
  intros Hnul Hf Hrun Hr Hs.
  destruct (ctypes_dlopen_cases Sys path mode w Hnul)
    as (r' & w' & evs & Hrun' & Htr & _ & _ & Hc).
  rewrite Hrun in Hrun'. injection Hrun' as <- <-.
  destruct Hc as [(-> & _)|[(-> & _)
                 |(-> & Hal & Hfr & Hcl & Hnz & Hb & obj & Hh & Hobj)]]; try done.
  set (a := brk w) in *.
  assert (Hfa : heap w !! a = None) by by apply brk_fresh_lookup.
  destruct Hobj as [(h & Hrets & ->)| ->].
  - assert (Hobj : single_handle w1 (Z.pos a) h).
    { cbn. rewrite Hh. apply lookup_insert_eq. }
    destruct (sys_dlclose Sys h (os w1)) as [[c e] o'] eqn:Hclose.
    rewrite (ctypes_dlclose_single Sys w1 a h c e o' Hobj Hs Hclose).
    eexists c, _, (evs ++ [EvDlclose h c; EvFree (Z.pos a)]).
    split; [done|]. cbn [trace heap]. rewrite Htr, <- app_assoc.
    split; [done|].
    rewrite !dlclose_calls_app, !dlopen_rets_app, !frees_app, !allocs_app.
    rewrite Hcl, Hrets, Hfr, Hal, Hh. cbn.
    rewrite delete_insert_id by done. split_and!; try done;
      by apply dangling_handle.
  - assert (Hobj : heap w1 !! a
                   = Some (MultipleObjects (Some multipleLoader)
                             ((Some <$> dlopen_rets evs) ++ [Some 0]))).
    { rewrite Hh. apply lookup_insert_eq. }
    rewrite (ctypes_dlclose_multiple Sys w1 (Z.pos a) (dlopen_rets evs) (conj Hobj Hnz) Hs).
    destruct (multiple_close_run Sys a _ (dlopen_rets evs) [] w1 Hobj Hnz)
      as (c & w2 & Hclose & Htr2 & Hh2 & _).
    exists c, w2. eexists. split; [done|].
    rewrite Htr2, Htr, <- app_assoc. split; [done|].
    assert (Hw2 : heap w2 = heap w).
    { rewrite Hh2, Hh. by rewrite delete_insert_id. }
    rewrite !dlclose_calls_app, !dlopen_rets_app, !frees_app, !allocs_app.
    rewrite dlclose_calls_zip by apply close_results_length.
    rewrite dlopen_rets_closes, frees_closes, allocs_closes.
    rewrite Hcl, Hfr, Hal. cbn. rewrite app_nil_r.
    rewrite <- Hw2 in Hfa.
    split_and!; try done; by apply dangling_handle.
Qed.

End RoundTrip.

Section LookupExtras.
Context (Sys : System) (symbol : list ascii).

Lemma probing_only_lookups hs e o evs r e' :
  probing Sys symbol hs e o evs r e' →
  Forall (fun ev => ∃ h x c, ev = EvDlsym h symbol x c) evs.
Proof.
  induction 1; repeat constructor; eauto.
Qed.

(** A null result with [errno] clear comes from probing every member. *)
Lemma probing_not_found hs e o evs r e' :
  probing Sys symbol hs e o evs r e' →
  r = 0 → e' = 0 →
  dlsym_calls evs = hs ∧ Forall (fun ev => ∃ h, ev = EvDlsym h symbol 0 0) evs.
Proof.
  induction 1 as [| h hs e o r c o' Hs Hstop |h hs e o c o' evs r e' Hs He Hp IH];
    intros Hr He'.
  - done.
  - subst. by destruct Hstop.
  - destruct (IH Hr He') as [IH1 IH2]. split.
    + cbn. unfold dlsym_calls in IH1. by rewrite IH1.
    + constructor; eauto.
Qed.

Lemma probing_clear hs e o evs r e' :
  probing Sys symbol hs e o evs r e' →
  Forall (fun ev => ∃ h, ev = EvDlsym h symbol 0 0) evs →
  (hs = [] → e = 0) →
  e' = 0.
Proof.
  induction 1 as [| h hs e o r c o' Hs Hstop |h hs e o c o' evs r e' Hs He Hp IH];
    intros Hall Hnil.
  - by apply Hnil.
  - apply Forall_cons in Hall as [[h' Heq] _]. by inversion Heq.
  - apply Forall_cons in Hall as [_ Hall]. by apply IH.
Qed.

(** X7.  An aggregate lookup over at least one member returns null with
    [errno] clear exactly when it probed every member and every probe
    returned null with [errno] clear. *)
Theorem multiple_sym_not_found (w : World Sys) (handle : Z) (hs : list Z) :
  multiple_handle w handle hs →
  hs ≠ [] →
  ∃ r w' evs,
    multiple_sym Sys handle symbol w = Some (r, w')
    ∧ trace w' = trace w ++ evs
    ∧ (r = 0 ∧ errno w' = 0
       ↔ dlsym_calls evs = hs
         ∧ Forall (fun ev => ∃ h, ev = EvDlsym h symbol 0 0) evs).
Proof.
  intros Hm Hne.
  destruct (multiple_sym_run Sys symbol w handle hs Hm)
    as (r & w' & evs & Hrun & Htr & _ & Hp).
  exists r, w', evs. split; [done|]. split; [done|]. split.
  - intros [Hr He]. by eapply probing_not_found.
  - intros [_ Hall]. split.
    + by destruct (probing_exhausts _ _ _ _ _ _ _ _ Hp Hall).
    + by eapply probing_clear.
Qed.

Lemma lookup_run (w : World Sys) (handle : Z) (hs : list Z) :
  loader_handle w handle hs →
  is_sentinel Sys handle = false →
  ∃ x w' evs,
    ctypes_dlsym Sys handle symbol w = Some (x, w')
    ∧ trace w' = trace w ++ evs
    ∧ heap w' = heap w
    ∧ dlsym_calls evs `prefix_of` hs
    ∧ Forall (fun ev => ∃ h x c, ev = EvDlsym h symbol x c) evs.
Proof.
  intros [(h & -> & Hobj)|Hm] Hs.
  - destruct handle as [|a|a]; try done.
    assert (Heq : ctypes_dlsym Sys (Z.pos a) symbol w = dlsym Sys h symbol w).
    { unfold ctypes_dlsym. rewrite Hs.
      cbn [Z.eqb negb andb]. unfold bind at 1.
      rewrite (load_loader_single _ _ _ _ Hobj). cbn [dl_sym].
      unfold single_sym. cbn [Z.eqb negb].
      unfold bind at 1, load_dlhandle, bind at 1. cbn in Hobj.
      by rewrite (deref_run _ _ _ Hobj). }
    rewrite Heq. unfold dlsym.
    destruct (sys_dlsym Sys h symbol (os w)) as [[x e] o].
    eexists _, _, _. split; [done|]. cbn. split_and!; try done.
    repeat constructor. eauto.
  - rewrite (ctypes_dlsym_multiple Sys w handle hs symbol Hm Hs).
    destruct (multiple_sym_run Sys symbol w handle hs Hm)
      as (x & w' & evs & Hrun & Htr & Hh & Hp).
    exists x, w', evs. split_and!; try done.
    + by eapply probing_prefix.
    + by eapply probing_only_lookups.
Qed.

Lemma lookup_keeps_handle_heap (w : World Sys) (handle : Z) (hs : list Z) :
  loader_handle w handle hs →
  is_sentinel Sys handle = false →
  ∃ x w', ctypes_dlsym Sys handle symbol w = Some (x, w') ∧ heap w' = heap w.
Proof.
  intros Hl Hs.
  destruct (lookup_run w handle hs Hl Hs) as (x & w' & evs & Hrun & _ & Hh & _).
  eauto.
Qed.

(** X6.  A lookup through a handle of the loader, Single or aggregate, makes
    native lookups only, of the symbol asked for, on native handles of that
    handle, in order.  It leaves the heap as it was, so the handle stays
    valid, for more lookups and for its close. *)
Theorem lookup_keeps_handle (w : World Sys) (handle : Z) (hs : list Z) :
  loader_handle w handle hs →
  is_sentinel Sys handle = false →
  ∃ x w' evs,
    ctypes_dlsym Sys handle symbol w = Some (x, w')
    ∧ trace w' = trace w ++ evs
    ∧ heap w' = heap w
    ∧ loader_handle w' handle hs
    ∧ dlsym_calls evs `prefix_of` hs
    ∧ Forall (fun ev => ∃ h x c, ev = EvDlsym h symbol x c) evs.
Proof.
  intros Hl Hs.
  destruct (lookup_run w handle hs Hl Hs) as (x & w' & evs & Hrun & Htr & Hh & Hpre & Hall).
  exists x, w', evs. split_and!; try done.
  destruct Hl as [(h & -> & Hobj)|[Hobj Hnz]]; destruct handle as [|a|a]; try done.
  - left. exists h. split; [done|]. cbn in *. by rewrite Hh.
  - right. split; [|done]. by rewrite Hh.
Qed.

End LookupExtras.

Section Malformed.
Context (Sys : System).

(** X10.  A string "filename(content)", the content holding no "(", is no
    member syntax when the file name is empty, when the content is empty,
    or when the content holds a "/": it is opened literally, by
    [single_open] with the string and the caller's mode as they are. *)
Theorem malformed_member_syntax_literal (filename content : list ascii) (mode : Z) :
  "("%char ∉ content →
  filename = [] ∨ content = [] ∨ "/"%char ∈ content →
  member_syntax (member_path filename content) = None
  ∧ ctypes_dlopen Sys (PathStr (member_path filename content)) mode
    = single_open Sys (PathStr (member_path filename content)) mode.
Proof.
  intros Hopen Hbad.
  assert (Hnone : member_syntax (member_path filename content) = None).
  { destruct (member_syntax (member_path filename content)) as [o|] eqn:Ho; [|done].
    apply member_syntax_Some in Ho as (f & c & (Hp & Hf & Hc & Hopen' & Hslash) & _).
    assert (Hlen : length filename = length f).
    { assert (H1 : strrchr (member_path filename content) "(" = Some (length filename)).
      { unfold member_path. apply strrchr_app.
        rewrite not_elem_of_app, list_elem_of_singleton. done. }
      rewrite Hp in H1. unfold member_path in H1.
      rewrite strrchr_app in H1; [congruence|].
      rewrite not_elem_of_app, list_elem_of_singleton. done. }
    unfold member_path in Hp.
    apply app_inj_1 in Hp as [-> Hp]; [|done].
    injection Hp as Hp. apply app_inj_tail in Hp as [-> _].
    destruct Hbad as [?|[?|?]]; done. }
  split; [done|]. unfold ctypes_dlopen. by rewrite Hnone.
Qed.

End Malformed.

Section Independence.
Context (Sys : System).

Lemma loader_handle_frame (w w' : World Sys) (handle : Z) (hs : list Z) :
  (∀ a, Z.pos a = handle → heap w' !! a = heap w !! a) →
  loader_handle w handle hs → loader_handle w' handle hs.
Proof.
  intros Hfr [(h & -> & Hobj)|[Hobj Hnz]]; destruct handle as [|a|a]; try done.
  - left. exists h. split; [done|]. cbn in *. by rewrite Hfr.
  - right. split; [|done]. by rewrite Hfr.
Qed.

Lemma loader_handle_allocated (w : World Sys) (handle : Z) (hs : list Z) :
  loader_handle w handle hs → ∃ a, handle = Z.pos a ∧ is_Some (heap w !! a).
Proof.
  intros [(h & -> & Hobj)|[Hobj Hnz]]; destruct handle as [|a|a]; try done;
    exists a; split; try done; cbn in Hobj; by rewrite Hobj.
Qed.

Lemma ctypes_dlclose_heap (w w' : World Sys) (a : positive) (hs : list Z) (c : Z) :
  loader_handle w (Z.pos a) hs →
  is_sentinel Sys (Z.pos a) = false →
  ctypes_dlclose Sys (Z.pos a) w = Some (c, w') →
  heap w' = delete a (heap w).
Proof.
  intros [(h & -> & Hobj)|Hm] Hs Hrun.
  - destruct (sys_dlclose Sys h (os w)) as [[c' e] o'] eqn:Hclose.
    rewrite (ctypes_dlclose_single Sys w a h c' e o' Hobj Hs Hclose) in Hrun.
    by injection Hrun as _ <-.
  - rewrite (ctypes_dlclose_multiple Sys w (Z.pos a) hs Hm Hs) in Hrun.
    destruct Hm as [Hobj Hnz].
    destruct (multiple_close_run Sys a _ hs [] w Hobj Hnz)
      as (c' & w2 & Hclose & _ & Hh2 & _).
    rewrite Hrun in Hclose. by injection Hclose as _ <-.
Qed.

(** X11.  Handles are independent.  An open of a string never returns a
    handle that is in use, and leaves every handle in use valid, over the
    same native handles; a close or a lookup through one handle leaves
    every other handle valid. *)
Theorem other_handles_untouched (w : World Sys) (other : Z) (hs : list Z) :
  loader_handle w other hs →
  brk_fresh w →
  (∀ path mode r w',
     NUL ∉ path →
     ctypes_dlopen Sys (PathStr path) mode w = Some (r, w') →
     r ≠ other ∧ loader_handle w' other hs)
  ∧ (∀ handle hs' c w',
       loader_handle w handle hs' →
       is_sentinel Sys handle = false →
       handle ≠ other →
       ctypes_dlclose Sys handle w = Some (c, w') →
       loader_handle w' other hs)
  ∧ (∀ handle hs' symbol x w',
       loader_handle w handle hs' →
       is_sentinel Sys handle = false →
       ctypes_dlsym Sys handle symbol w = Some (x, w') →
       loader_handle w' other hs).
Proof.
  intros Hother Hf.
  destruct (loader_handle_allocated _ _ _ Hother) as (b & -> & Hb).
  assert (Hbrk : b ≠ brk w).
  { intros ->. rewrite brk_fresh_lookup in Hb by done. by destruct Hb. }
  split_and!.
  - intros path mode r w' Hnul Hrun.
    destruct (ctypes_dlopen_cases Sys path mode w Hnul)
      as (r' & w'' & evs & Hrun' & _ & _ & _ & Hc).
    rewrite Hrun in Hrun'. injection Hrun' as <- <-.
    destruct Hc as [(-> & _ & _ & _ & _ & Hh & _)
                   |[(-> & _ & _ & _ & Hh & _)
                    |(-> & _ & _ & _ & _ & _ & obj & Hh & _)]].
    + split; [done|]. apply (loader_handle_frame w); [|done].
      intros a _. by rewrite Hh.
    + split; [done|]. apply (loader_handle_frame w); [|done].
      intros a [= ->]. rewrite Hh. by rewrite lookup_delete_ne.
    + split; [congruence|]. apply (loader_handle_frame w); [|done].
      intros a [= ->]. rewrite Hh. by rewrite lookup_insert_ne.
  - intros handle hs' c w' Hl Hs Hne Hrun.
    destruct (loader_handle_allocated _ _ _ Hl) as (a & -> & _).
    apply (loader_handle_frame w); [|done].
    intros a' [= ->]. rewrite (ctypes_dlclose_heap w w' a hs' c Hl Hs Hrun).
    rewrite lookup_delete_ne; [done|]. congruence.
  - intros handle hs' symbol x w' Hl Hs Hrun.
    destruct (lookup_keeps_handle_heap Sys symbol w handle hs' Hl Hs)
      as (x' & w'' & Hrun' & Hh).
    rewrite Hrun in Hrun'. injection Hrun' as <- <-.
    apply (loader_handle_frame w); [|done]. intros a _. by rewrite Hh.
Qed.

End Independence.

(** ** Concrete runs *)

Lemma loaded_world_multiple (Sys : System) (o : OS Sys) :
  multiple_handle (loaded_world Sys o) 1 [101; 102].
Proof. split; [reflexivity|]. repeat constructor; discriminate. Qed.

Lemma libc_path_shape :
  member_syntax_shape (cstr "libc.a(shr.o,shr_64.o)") (cstr "libc.a")
                      (cstr "shr.o,shr_64.o").
Proof.
  split_and!; [reflexivity|discriminate|discriminate| |];
    apply strchr_None; reflexivity.
Qed.

(** Closing the aggregate over [shr.o] and [shr_64.o] where the native
    close of [shr.o] fails: both members are closed, the aggregate is freed,
    and the result is [EINVAL]. *)
Lemma multiple_close_every_member_witness :
  multiple_handle (loaded_world stuck_system 2%nat) 1 [101; 102]
  ∧ ∃ w',
      multiple_close stuck_system 1 (loaded_world stuck_system 2%nat) = Some (22, w')
      ∧ trace w' = [EvDlclose 101 (-1); EvDlclose 102 0; EvFree 1]
      ∧ errno w' = 22.
Proof.
  split; [apply loaded_world_multiple|].
  destruct (multiple_close_every_member stuck_system (loaded_world stuck_system 2%nat)
              1 [101; 102] (loaded_world_multiple _ _))
    as (r & w' & Hrun & _ & Htr & _ & _ & [Hr|[Hr He]]).
  - vm_compute in Hrun. congruence.
  - exists w'. rewrite Hrun, Hr. split_and!; done.
Defined.

Lemma archive_world_multiple (Sys : System) (o : OS Sys) :
  multiple_handle (archive_world Sys o) 1 [100; 101; 102].
Proof. split; [done|]. repeat constructor; done. Qed.

(** Looking up [printf64] in an aggregate of three members, of which only
    the last, [shr_64.o], defines it: the first two are probed in order and
    return null with [errno] clear, the third is probed next and its address
    is the result. *)
Lemma multiple_sym_first_match_witness :
  multiple_handle (archive_world libc_system 2%nat) 1 [100; 101; 102]
  ∧ ∃ w',
      multiple_sym libc_system 1 (cstr "printf64") (archive_world libc_system 2%nat)
      = Some (2002, w')
      ∧ dlsym_calls (trace w') = [100; 101; 102].
Proof.
  split; [apply archive_world_multiple|].
  destruct (multiple_sym_first_match libc_system (cstr "printf64")
              (archive_world libc_system 2%nat) 1 [100; 101; 102]
              (archive_world_multiple _ _))
    as (r & w' & evs & Hrun & Htr & _ & _ & _ & Hfirst & _).
  destruct (Hfirst 2%nat 2002 0) as (-> & _ & Hcalls); [reflexivity|done| |].
  { intros [|[|j]] Hj; [reflexivity|reflexivity|lia]. }
  exists w'. rewrite Htr. split; done.
Defined.

(** Looking up a name on a platform whose lookup in [shr.o] fails with EIO:
    the lookup returns null with [errno = EIO] after that one probe, though
    [shr_64.o] would have resolved the name. *)
Lemma multiple_sym_error_stops_witness :
  multiple_handle (loaded_world faulty_system 2%nat) 1 [101; 102]
  ∧ sys_dlsym faulty_system 102 (cstr "printf64") 2%nat = (2002, None, 2%nat)
  ∧ ∃ w',
      multiple_sym faulty_system 1 (cstr "printf64") (loaded_world faulty_system 2%nat)
      = Some (0, w')
      ∧ errno w' = 5
      ∧ dlsym_calls (trace w') = [101].
Proof.
  split; [apply loaded_world_multiple|]. split; [reflexivity|].
  destruct (multiple_sym_error_stops faulty_system (cstr "printf64")
              (loaded_world faulty_system 2%nat) 1 [101; 102]
              (loaded_world_multiple _ _))
    as (r & w' & evs & Hrun & Htr & _ & Herr).
  pose proof Hrun as Hrun'. vm_compute in Hrun'.
  injection Hrun' as Hr Hw. subst r.
  assert (Hevs : evs = [EvDlsym 101 (cstr "printf64") 0 5]).
  { rewrite <- Hw in Htr. cbn in Htr. by rewrite <- Htr. }
  destruct (Herr 0%nat 101 5) as (_ & He & _ & Hcalls);
    [by rewrite Hevs|discriminate|].
  exists w'. rewrite Hrun, Htr. split_and!; done.
Defined.

(** Looking up [printf64] when [errno] is already 2 on entry, on a platform
    whose lookup leaves [errno] alone: the probe of [shr.o] returns null,
    [errno] is still set, and the lookup returns null without probing
    [shr_64.o], which defines the name. *)
Lemma multiple_sym_stale_errno_witness :
  multiple_handle (with_errno 2 (loaded_world libc_system 2%nat)) 1 [101; 102]
  ∧ errno (with_errno 2 (loaded_world libc_system 2%nat)) ≠ 0
  ∧ sys_dlsym libc_system 101 (cstr "printf64") 2%nat = (0, None, 2%nat)
  ∧ sys_dlsym libc_system 102 (cstr "printf64") 2%nat = (2002, None, 2%nat)
  ∧ ∃ w',
      multiple_sym libc_system 1 (cstr "printf64")
                   (with_errno 2 (loaded_world libc_system 2%nat))
      = Some (0, w')
      ∧ dlsym_calls (trace w') = [101].
Proof.
  assert (Hm : multiple_handle (with_errno 2 (loaded_world libc_system 2%nat)) 1
                               [101; 102]).
  { split; [reflexivity|]. repeat constructor; discriminate. }
  split_and!; [done|discriminate|reflexivity|reflexivity|].
  destruct (multiple_sym_stale_errno libc_system (cstr "printf64")
              (with_errno 2 (loaded_world libc_system 2%nat)) 1 101 [102] None 2%nat Hm)
    as (w' & Hrun & Htr & _); [discriminate|reflexivity|discriminate|].
  exists w'. rewrite Hrun, Htr. split; done.
Defined.

(** Opening "libc.a(shr.o,shr_64.o)" where [shr_64.o] cannot be opened: the
    second native open fails, the handle of [shr.o] is closed, the aggregate
    is freed and the open returns null. *)
Lemma multiple_open_failure_unwinds_witness :
  member_syntax_shape (cstr "libc.a(shr.o,shr_64.o)") (cstr "libc.a")
                      (cstr "shr.o,shr_64.o")
  ∧ (","%char ∈ cstr "shr.o,shr_64.o")
  ∧ (NUL ∉ cstr "libc.a(shr.o,shr_64.o)")
  ∧ ∃ w' evs,
      ctypes_dlopen libc32_system (PathStr (cstr "libc.a(shr.o,shr_64.o)")) 4
                    (initial_world libc32_system 0%nat) = Some (0, w')
      ∧ trace w' = evs
      ∧ dlopen_rets evs = [101; 0]
      ∧ dlclose_calls evs = [101]
      ∧ opened evs = [101]
      ∧ frees evs = [1]
      ∧ deref libc32_system 1 w' = None.
Proof.
  assert (Hcomma : ","%char ∈ cstr "shr.o,shr_64.o")
    by (apply strchr_is_Some; vm_compute; eauto).
  assert (Hnul : NUL ∉ cstr "libc.a(shr.o,shr_64.o)")
    by (apply strchr_None; reflexivity).
  split_and!; [apply libc_path_shape|done|done|].
  destruct (multiple_open_failure_unwinds libc32_system
              (initial_world libc32_system 0%nat) _ _ _ 4
              libc_path_shape Hcomma Hnul)
    as (r & w' & evs & Hrun & Htr & Hfail).
  pose proof Hrun as Hrun'. vm_compute in Hrun'.
  injection Hrun' as Hr Hw. subst r.
  assert (Hrets : dlopen_rets evs = [101; 0]).
  { rewrite <- Hw in Htr. cbn in Htr. by rewrite <- Htr. }
  destruct (Hfail 1%nat) as (_ & _ & _ & Hclose & Hopened & _ & Hfrees & Hderef & _);
    [by rewrite Hrets|].
  exists w', evs. rewrite Hrun, <- Hopened, Hclose, Hfrees, Hrets.
  split_and!; done.
Defined.

(** Opening "libc.a(shr.o,shr_64.o)" with mode 4 where both members open:
    the native opens are "libc.a(shr.o)" and "libc.a(shr_64.o)", both with
    the member-mode flag ORed into 4. *)
Lemma member_open_calls_witness :
  member_syntax_shape (cstr "libc.a(shr.o,shr_64.o)") (cstr "libc.a")
                      (cstr "shr.o,shr_64.o")
  ∧ (NUL ∉ cstr "libc.a(shr.o,shr_64.o)")
  ∧ ∃ w',
      ctypes_dlopen libc_system (PathStr (cstr "libc.a(shr.o,shr_64.o)")) 4
                    (initial_world libc_system 0%nat) = Some (1, w')
      ∧ dlopen_calls (trace w')
        = [(PathStr (cstr "libc.a(shr.o)"), Z.lor 4 (RTLD_MEMBER libc_system));
           (PathStr (cstr "libc.a(shr_64.o)"), Z.lor 4 (RTLD_MEMBER libc_system))].
Proof.
  assert (Hnul : NUL ∉ cstr "libc.a(shr.o,shr_64.o)")
    by (apply strchr_None; reflexivity).
  split_and!; [apply libc_path_shape|done|].
  destruct (member_open_calls libc_system (initial_world libc_system 0%nat) _ _ _ 4
              libc_path_shape Hnul)
    as (r & w' & evs & Hrun & Htr & _ & _ & _ & _ & _ & Hall).
  pose proof Hrun as Hrun'. vm_compute in Hrun'.
  injection Hrun' as Hr Hw. subst r.
  exists w'. split; [done|]. rewrite Htr. cbn [initial_world trace app].
  by rewrite Hall.
Defined.

(** The aggregate that opening "libc.a(shr.o,shr_64.o)" leaves holds the
    handles 101 and 102 and the null slot. *)
Lemma multiple_open_null_terminated_witness :
  member_syntax_shape (cstr "libc.a(shr.o,shr_64.o)") (cstr "libc.a")
                      (cstr "shr.o,shr_64.o")
  ∧ (","%char ∈ cstr "shr.o,shr_64.o")
  ∧ (NUL ∉ cstr "libc.a(shr.o,shr_64.o)")
  ∧ ∃ w',
      ctypes_dlopen libc_system (PathStr (cstr "libc.a(shr.o,shr_64.o)")) 4
                    (initial_world libc_system 0%nat) = Some (1, w')
      ∧ multiple_handle w' 1 [101; 102].
Proof.
  assert (Hcomma : ","%char ∈ cstr "shr.o,shr_64.o")
    by (apply strchr_is_Some; vm_compute; eauto).
  assert (Hnul : NUL ∉ cstr "libc.a(shr.o,shr_64.o)")
    by (apply strchr_None; reflexivity).
  split_and!; [apply libc_path_shape|done|done|].
  destruct (multiple_open_null_terminated libc_system
              (initial_world libc_system 0%nat) _ _ _ 4
              libc_path_shape Hcomma Hnul)
    as (r & w' & evs & Hrun & Htr & Hok).
  pose proof Hrun as Hrun'. vm_compute in Hrun'.
  injection Hrun' as Hr Hw. subst r.
  destruct Hok as (_ & Hm & _); [discriminate|].
  assert (Hrets : dlopen_rets evs = [101; 102]).
  { rewrite <- Hw in Htr. cbn in Htr. by rewrite <- Htr. }
  rewrite Hrets in Hm. exists w'. split; done.
Defined.

(** Opening "libfoo.so": one native open, of "libfoo.so" with mode 4. *)
Lemma literal_path_open_witness :
  (("("%char ∉ cstr "libfoo.so") ∧ (")"%char ∉ cstr "libfoo.so")
   ∨ last (cstr "libfoo.so") ≠ Some ")"%char)
  ∧ ∃ w',
      ctypes_dlopen libc_system (PathStr (cstr "libfoo.so")) 4
                    (initial_world libc_system 0%nat) = Some (1, w')
      ∧ dlopen_calls (trace w') = [(PathStr (cstr "libfoo.so"), 4)].
Proof.
  assert (Hlit : ("("%char ∉ cstr "libfoo.so") ∧ (")"%char ∉ cstr "libfoo.so")
                 ∨ last (cstr "libfoo.so") ≠ Some ")"%char).
  { left. split; apply strchr_None; reflexivity. }
  split; [done|].
  destruct (literal_path_open libc_system (initial_world libc_system 0%nat)
              (cstr "libfoo.so") 4 Hlit)
    as (_ & r & w' & evs & Hrun & Htr & Hcalls & _).
  pose proof Hrun as Hrun'. vm_compute in Hrun'.
  injection Hrun' as Hr Hw. subst r.
  exists w'. split; [done|]. rewrite Htr. cbn [initial_world trace app].
  apply Hcalls. rewrite <- Hw in Htr. cbn in Htr. by rewrite <- Htr.
Defined.

(** Against C10 as stated.  On a platform whose native lookup sets [errno]
    to 0 when it does not find the name, [errno] is 2 when the lookup of
    [printf64] begins and the native lookup in [shr.o] returns null; the
    lookup goes on to probe [shr_64.o] and returns its address. *)
Lemma stale_errno_cleared_by_lookup :
  multiple_handle (with_errno 2 (loaded_world clearing_system 2%nat)) 1 [101; 102]
  ∧ errno (with_errno 2 (loaded_world clearing_system 2%nat)) = 2
  ∧ sys_dlsym clearing_system 101 (cstr "printf64") 2%nat = (0, Some 0, 2%nat)
  ∧ observe (multiple_sym clearing_system 1 (cstr "printf64")
                          (with_errno 2 (loaded_world clearing_system 2%nat)))
    = Some (2002, 0, [EvDlsym 101 (cstr "printf64") 0 0;
                      EvDlsym 102 (cstr "printf64") 2002 0]).
Proof.
  split_and!; [|reflexivity..].
  split; [reflexivity|]. repeat constructor; discriminate.
Qed.

(** Against C2 as stated.  On a platform where no member opens,
    "libc.a(shr.o,shr_64.o)" names two members and the open makes one native
    open, of "libc.a(shr.o)", not the two the claim lists. *)
Lemma member_open_stops_at_first_failure :
  member_syntax_shape (cstr "libc.a(shr.o,shr_64.o)") (cstr "libc.a")
                      (cstr "shr.o,shr_64.o")
  ∧ split_commas (cstr "shr.o,shr_64.o") = [cstr "shr.o"; cstr "shr_64.o"]
  ∧ observe (ctypes_dlopen broken_system (PathStr (cstr "libc.a(shr.o,shr_64.o)")) 4
                           (initial_world broken_system 0%nat))
    = Some (0, 2, [EvStrdup true; EvMalloc 1;
                   EvDlopen (PathStr (cstr "libc.a(shr.o)")) 0x40004 0;
                   EvFree 1; EvFreeBuf])
  ∧ native_opens (ctypes_dlopen broken_system
                    (PathStr (cstr "libc.a(shr.o,shr_64.o)")) 4
                    (initial_world broken_system 0%nat))
    ≠ Some (expected_calls (cstr "libc.a") (Z.lor 4 (RTLD_MEMBER broken_system))
                           (split_commas (cstr "shr.o,shr_64.o"))).
Proof.
  split_and!; [apply libc_path_shape|reflexivity|reflexivity|].
  vm_compute. discriminate.
Qed.

(** Against C6 as stated.  "a(,)" has no non-empty member between its
    parentheses, and [ctypes_dlopen] takes it for member syntax all the same:
    it opens the member path "a()" with the member-mode flag. *)
Lemma comma_only_members_recognised :
  member_syntax (cstr "a(,)") = Some 1%nat
  ∧ split_commas (cstr ",") = [[]; []]
  ∧ ¬ (∃ filename content,
         member_syntax_nonempty_member (cstr "a(,)") filename content)
  ∧ observe (ctypes_dlopen libc_system (PathStr (cstr "a(,)")) 4
                           (initial_world libc_system 0%nat))
    = Some (0, 2, [EvStrdup true; EvMalloc 1;
                   EvDlopen (PathStr (cstr "a()")) 0x40004 0;
                   EvFree 1; EvFreeBuf]).
Proof.
  split_and!; [reflexivity|reflexivity| |reflexivity].
  intros (f & c & Hp & Hf & (m & Hm & Hne) & Hopen & Hslash).
  unfold member_path in Hp.
  assert (Hlen : strrchr (cstr "a(,)") "(" = Some (length f)).
  { rewrite Hp. apply strrchr_app.
    rewrite not_elem_of_app, list_elem_of_singleton. done. }
  vm_compute in Hlen. injection Hlen as Hlen.
  destruct f as [|x [|? ?]]; try done.
  cbn in Hp. injection Hp as _ Hp.
  change [","%char; ")"%char] with ([","%char] ++ [")"%char]) in Hp.
  apply app_inj_tail in Hp as [<- _].
  cbn in Hm. apply elem_of_cons in Hm as [->|Hm]; [done|].
  apply list_elem_of_singleton in Hm as ->. done.
Qed.

(** Against C7 as stated.  When the wrapper cannot be allocated, opening
    "libfoo.so" makes no native open at all. *)
Lemma literal_open_without_memory :
  (("("%char ∉ cstr "libfoo.so") ∧ (")"%char ∉ cstr "libfoo.so"))
  ∧ observe (ctypes_dlopen oom_system (PathStr (cstr "libfoo.so")) 4
                           (initial_world oom_system 0%nat))
    = Some (0, 12, [EvMalloc 0])
  ∧ native_opens (ctypes_dlopen oom_system (PathStr (cstr "libfoo.so")) 4
                                (initial_world oom_system 0%nat))
    = Some [].
Proof.
  split_and!; [apply strchr_None; reflexivity..|reflexivity|reflexivity].
Qed.

(** Against C8 as stated.  On a platform whose native close and lookup
    accept a null handle, the facade's close of a null handle reports
    success and its lookup returns an address; both went to the native call,
    and [errno] is untouched. *)
Lemma null_handle_reaches_native :
  observe (ctypes_dlclose lenient_system 0 (initial_world lenient_system 0%nat))
  = Some (0, 0, [EvDlclose 0 0])
  ∧ observe (ctypes_dlsym lenient_system 0 (cstr "printf")
                          (initial_world lenient_system 0%nat))
    = Some (7, 0, [EvDlsym 0 (cstr "printf") 7 0]).
Proof. split; reflexivity. Qed.

(** Against C9 as stated.  On the aggregate over [shr.o] and [shr_64.o], a
    lookup of [printf] is answered by [shr.o]: the lookup visits one of the
    two member handles, not both. *)
Lemma lookup_visits_one_of_two :
  observe ((handle <- ctypes_dlopen libc_system
                        (PathStr (cstr "libc.a(shr.o,shr_64.o)")) 4 ;;
            ctypes_dlsym libc_system handle (cstr "printf"))
             (initial_world libc_system 0%nat))
  = Some (1001, 0, [EvStrdup true; EvMalloc 1;
                    EvDlopen (PathStr (cstr "libc.a(shr.o)")) 0x40004 101;
                    EvDlopen (PathStr (cstr "libc.a(shr_64.o)")) 0x40004 102;
                    EvFreeBuf;
                    EvDlsym 101 (cstr "printf") 1001 0])
  ∧ dlsym_calls [EvDlsym 101 (cstr "printf") 1001 0] ≠ [101; 102].
Proof. split; [reflexivity|discriminate]. Qed.

Lemma initial_world_brk_fresh (Sys : System) (o : OS Sys) : brk_fresh (initial_world Sys o).
Proof. intros a _. apply lookup_empty. Qed.

Lemma single_open_wraps_witness :
  brk_fresh (initial_world libc_system 0%nat)
  ∧ ∃ w',
      single_open libc_system (PathStr (cstr "libfoo.so")) 4
                  (initial_world libc_system 0%nat) = Some (1, w')
      ∧ single_handle w' 1 103.
Proof.
  split; [apply initial_world_brk_fresh|].
  destruct (single_open_wraps libc_system (PathStr (cstr "libfoo.so")) 4
              (initial_world libc_system 0%nat) (initial_world_brk_fresh _ _))
    as (r & w' & evs & Hrun & Htr & _ & _ & _ & Hok).
  pose proof Hrun as Hrun'. vm_compute in Hrun'.
  injection Hrun' as Hr Hw. subst r.
  destruct Hok as (h & _ & _ & Hevs & _ & Hsh); [discriminate|].
  rewrite <- Hw in Htr. cbn in Htr. rewrite Hevs in Htr.
  injection Htr as <-. exists w'. split; done.
Defined.

Lemma wrapped_world_single (Sys : System) (o : OS Sys) :
  single_handle (wrapped_world Sys o) 1 103.
Proof. reflexivity. Qed.

Lemma single_close_releases_witness :
  single_handle (wrapped_world jammed_system 1%nat) 1 103
  ∧ is_sentinel jammed_system 1 = false
  ∧ sys_dlclose jammed_system 103 1%nat = (-1, Some 9, 1%nat)
  ∧ ∃ w',
      ctypes_dlclose jammed_system 1 (wrapped_world jammed_system 1%nat)
      = Some (-1, w')
      ∧ trace w' = [EvDlclose 103 (-1); EvFree 1]
      ∧ errno w' = 9
      ∧ deref jammed_system 1 w' = None.
Proof.
  split_and!; [apply wrapped_world_single|reflexivity|reflexivity|].
  destruct (single_close_releases jammed_system (wrapped_world jammed_system 1%nat)
              1 103 (-1) (Some 9) 1%nat (wrapped_world_single _ _) eq_refl eq_refl)
    as (w' & Hrun & Htr & He & Hd & _).
  exists w'. split_and!; done.
Defined.

Lemma single_sym_forwards_witness :
  single_handle (wrapped_world lenient_system 1%nat) 1 103
  ∧ is_sentinel lenient_system 1 = false
  ∧ ∃ w',
      ctypes_dlsym lenient_system 1 (cstr "printf") (wrapped_world lenient_system 1%nat)
      = Some (7, w')
      ∧ trace w' = [EvDlsym 103 (cstr "printf") 7 0]
      ∧ single_handle w' 1 103.
Proof.
  split_and!; [apply wrapped_world_single|reflexivity|].
  destruct (single_sym_forwards lenient_system (wrapped_world lenient_system 1%nat)
              1 103 (cstr "printf") (wrapped_world_single _ _) eq_refl)
    as (Heq & x & w' & Hrun & Htr & _ & Hobj).
  pose proof Hrun as Hrun'. rewrite Heq in Hrun'. vm_compute in Hrun'.
  injection Hrun' as Hx Hw. subst x.
  exists w'. split_and!; try done.
  rewrite Htr. rewrite <- Hw. reflexivity.
Defined.

Lemma sentinel_passthrough_witness :
  is_sentinel lenient_system (-1) = true
  ∧ observe (ctypes_dlsym lenient_system (-1) (cstr "printf")
                          (wrapped_world lenient_system 1%nat))
    = Some (7, 0, [EvDlsym (-1) (cstr "printf") 7 0])
  ∧ observe (ctypes_dlclose lenient_system (-1) (wrapped_world lenient_system 1%nat))
    = Some (0, 0, [EvDlclose (-1) 0]).
Proof.
  split; [reflexivity|].
  destruct (sentinel_passthrough lenient_system (wrapped_world lenient_system 1%nat)
              (-1) (cstr "printf") 0 eq_refl) as (Hc & Hs & _).
  rewrite Hc, Hs. split; reflexivity.
Defined.

Lemma libc_path_nul : NUL ∉ cstr "libc.a(shr.o,shr_64.o)".
Proof. apply strchr_None. reflexivity. Qed.

Lemma open_close_round_trip_witness :
  (NUL ∉ cstr "libc.a(shr.o,shr_64.o)")
  ∧ brk_fresh (initial_world libc_system 0%nat)
  ∧ is_sentinel libc_system 1 = false
  ∧ ∃ w1 w2,
      ctypes_dlopen libc_system (PathStr (cstr "libc.a(shr.o,shr_64.o)")) 4
                    (initial_world libc_system 0%nat) = Some (1, w1)
      ∧ ctypes_dlclose libc_system 1 w1 = Some (0, w2)
      ∧ dlclose_calls (trace w2) = [101; 102]
      ∧ heap w2 = ∅
      ∧ ctypes_dlclose libc_system 1 w2 = None.
Proof.
  split_and!; [apply libc_path_nul|apply initial_world_brk_fresh|reflexivity|].
  destruct (ctypes_dlopen libc_system (PathStr (cstr "libc.a(shr.o,shr_64.o)")) 4
              (initial_world libc_system 0%nat)) as [[r w1]|] eqn:Hrun;
    [|vm_compute in Hrun; discriminate].
  pose proof Hrun as Hrun'. vm_compute in Hrun'. injection Hrun' as Hr Hw. subst r.
  destruct (open_close_round_trip libc_system (cstr "libc.a(shr.o,shr_64.o)") 4
              (initial_world libc_system 0%nat) w1 1
              libc_path_nul (initial_world_brk_fresh _ _) Hrun)
    as (c & w2 & evs & Hclose & Htr & Hcl & _ & Hheap & Hdouble & _);
    [discriminate|reflexivity|].
  pose proof Hclose as Hclose'. rewrite <- Hw in Hclose'. vm_compute in Hclose'.
  injection Hclose' as Hc Hw2. subst c.
  exists w1, w2. split_and!; try done.
  rewrite <- Hw2. reflexivity.
Defined.

Lemma lookup_keeps_handle_witness :
  loader_handle (loaded_world libc_system 2%nat) 1 [101; 102]
  ∧ is_sentinel libc_system 1 = false
  ∧ ∃ w',
      ctypes_dlsym libc_system 1 (cstr "printf64") (loaded_world libc_system 2%nat)
      = Some (2002, w')
      ∧ heap w' = heap (loaded_world libc_system 2%nat)
      ∧ loader_handle w' 1 [101; 102].
Proof.
  assert (Hl : loader_handle (loaded_world libc_system 2%nat) 1 [101; 102])
    by (right; apply loaded_world_multiple).
  split_and!; [done|reflexivity|].
  destruct (lookup_keeps_handle libc_system (cstr "printf64")
              (loaded_world libc_system 2%nat) 1 [101; 102] Hl eq_refl)
    as (x & w' & evs & Hrun & _ & Hheap & Hl' & _).
  pose proof Hrun as Hrun'. vm_compute in Hrun'. injection Hrun' as Hx Hw. subst x.
  exists w'. split_and!; done.
Defined.

Lemma multiple_sym_not_found_witness :
  multiple_handle (loaded_world libc_system 2%nat) 1 [101; 102]
  ∧ ∃ w',
      multiple_sym libc_system 1 (cstr "nosuch") (loaded_world libc_system 2%nat)
      = Some (0, w')
      ∧ errno w' = 0
      ∧ dlsym_calls (trace w') = [101; 102].
Proof.
  split; [apply loaded_world_multiple|].
  destruct (multiple_sym_not_found libc_system (cstr "nosuch")
              (loaded_world libc_system 2%nat) 1 [101; 102]
              (loaded_world_multiple _ _))
    as (r & w' & evs & Hrun & Htr & Hiff); [discriminate|].
  pose proof Hrun as Hrun'. vm_compute in Hrun'. injection Hrun' as Hr Hw. subst r.
  assert (He : errno w' = 0) by (by rewrite <- Hw).
  destruct Hiff as [Hall _]. destruct (Hall (conj eq_refl He)) as [Hcalls _].
  exists w'. rewrite Htr. split_and!; done.
Defined.


Lemma ctypes_dlopen_failure_restores_witness :
  (NUL ∉ cstr "libc.a(shr.o,shr_64.o)")
  ∧ brk_fresh (initial_world libc32_system 0%nat)
  ∧ ∃ w',
      ctypes_dlopen libc32_system (PathStr (cstr "libc.a(shr.o,shr_64.o)")) 4
                    (initial_world libc32_system 0%nat) = Some (0, w')
      ∧ heap w' = ∅
      ∧ dlclose_calls (trace w') = opened (trace w').
Proof.
  split_and!; [apply libc_path_nul|apply initial_world_brk_fresh|].
  destruct (ctypes_dlopen_failure_restores libc32_system
              (cstr "libc.a(shr.o,shr_64.o)") 4
              (initial_world libc32_system 0%nat)
              libc_path_nul (initial_world_brk_fresh _ _))
    as (r & w' & evs & Hrun & Htr & _ & Hfail).
  pose proof Hrun as Hrun'. vm_compute in Hrun'. injection Hrun' as Hr Hw. subst r.
  destruct Hfail as (Hheap & Hcl & _); [done|].
  exists w'. rewrite Htr. split_and!; done.
Defined.

Lemma malformed_member_syntax_literal_witness :
  ("("%char ∉ cstr "b/c")
  ∧ ("/"%char ∈ cstr "b/c")
  ∧ member_path (cstr "a") (cstr "b/c") = cstr "a(b/c)"
  ∧ member_syntax (cstr "a(b/c)") = None.
Proof.
  assert (Hopen : "("%char ∉ cstr "b/c") by (apply strchr_None; reflexivity).
  assert (Hslash : "/"%char ∈ cstr "b/c")
    by (apply strchr_is_Some; vm_compute; eauto).
  split_and!; [done|done|reflexivity|].
  by destruct (malformed_member_syntax_literal libc_system (cstr "a") (cstr "b/c") 4
                 Hopen (or_intror (or_intror Hslash))) as [Hnone _].
Defined.

Lemma wrapped_world_brk_fresh (Sys : System) (o : OS Sys) : brk_fresh (wrapped_world Sys o).
Proof.
  intros a Ha. cbn in *. apply lookup_singleton_ne. lia.
Qed.

Lemma other_handles_untouched_witness :
  loader_handle (wrapped_world libc_system 1%nat) 1 [103]
  ∧ brk_fresh (wrapped_world libc_system 1%nat)
  ∧ (NUL ∉ cstr "libc.a(shr.o,shr_64.o)")
  ∧ ∃ w',
      ctypes_dlopen libc_system (PathStr (cstr "libc.a(shr.o,shr_64.o)")) 4
                    (wrapped_world libc_system 1%nat) = Some (2, w')
      ∧ loader_handle w' 1 [103].
Proof.
  assert (Hl : loader_handle (wrapped_world libc_system 1%nat) 1 [103]).
  { left. exists 103. split; [done|]. apply wrapped_world_single. }
  split_and!; [done|apply wrapped_world_brk_fresh|apply libc_path_nul|].
  destruct (other_handles_untouched libc_system (wrapped_world libc_system 1%nat)
              1 [103] Hl (wrapped_world_brk_fresh _ _)) as (Hopen & _).
  destruct (ctypes_dlopen libc_system (PathStr (cstr "libc.a(shr.o,shr_64.o)")) 4
              (wrapped_world libc_system 1%nat)) as [[r w']|] eqn:Hrun;
    [|vm_compute in Hrun; discriminate].
  pose proof Hrun as Hrun'. vm_compute in Hrun'. injection Hrun' as Hr Hw. subst r.
  destruct (Hopen _ 4 2 w' libc_path_nul Hrun) as [_ Hl'].
  exists w'. split; done.
Defined.

(** * loadquery *)

Module LoadqueryFacts.
Import Loadquery.
Local Open Scope lq_scope.

Section Retry.
Context (P : Platform).

Lemma retry_shape (flags : Z) :
  ∀ (fuel : nat) (buf0 : Buffer) (ef : option Z) (b : Z) (w w' : World P)
    (res : option Buffer * option Z * Z),
    loadquery_retry P fuel flags (Some buf0) ef b w = Some (res, w') →
    ∃ n : nat,
      (∃ buf c, res = (Some buf, Some c, b + 1024 * Z.of_nat n)
         ∧ trace w' = trace w ++ attempts flags b n
                              ++ [LqLoadquery flags (b + 1024 * Z.of_nat n) c]
         ∧ ¬ (c = -1 ∧ errno w' = ENOMEM P))
      ∨ (res = (None, Some (-1), b + 1024 * (Z.of_nat n + 1))
         ∧ trace w' = trace w ++ attempts flags b n
                              ++ [LqLoadquery flags (b + 1024 * Z.of_nat n) (-1);
                                  LqFree;
                                  LqMalloc (b + 1024 * (Z.of_nat n + 1)) false]).
Proof.
  induction fuel as [|fuel IH]; intros buf0 ef b w w' res Hrun.
  - cbn [loadquery_retry] in Hrun. unfold bind at 1, loadquery at 1 in Hrun.
    destruct (sys_loadquery P flags b (os w)) as [[[r e] buf] o] eqn:Hq.
    unfold bind at 1, get_errno in Hrun. cbn [errno] in Hrun.
    destruct ((r =? -1) && (errno_after e (errno w) =? ENOMEM P)) eqn:Hc.
    + unfold bind at 1, free in Hrun. destruct (INT_MAX P <? b + 1024); done.
    + injection Hrun as <- <-. exists 0%nat. left. exists buf, r. cbn.
      rewrite Z.add_0_r. split_and!; try done.
      intros [-> He]. rewrite He in Hc. by rewrite !Z.eqb_refl in Hc.
  - cbn [loadquery_retry] in Hrun. unfold bind at 1, loadquery at 1 in Hrun.
    destruct (sys_loadquery P flags b (os w)) as [[[r e] buf] o] eqn:Hq.
    unfold bind at 1, get_errno in Hrun. cbn [errno] in Hrun.
    destruct ((r =? -1) && (errno_after e (errno w) =? ENOMEM P)) eqn:Hc.
    + apply andb_true_iff in Hc as [Hr%Z.eqb_eq He]. subst r.
      unfold bind at 1, free in Hrun.
      destruct (INT_MAX P <? b + 1024); [done|].
      unfold bind at 1, malloc at 1 in Hrun. cbn [os errno pyerr trace] in Hrun.
      destruct (sys_malloc P (b + 1024) o) as [[ok e2] o2] eqn:Hm.
      destruct ok.
      * apply IH in Hrun as (n & Hn). exists (S n). cbn [trace] in Hn.
        replace (b + 1024 * Z.of_nat (S n)) with (b + 1024 + 1024 * Z.of_nat n) by lia.
        replace (b + 1024 * (Z.of_nat (S n) + 1))
          with (b + 1024 + 1024 * (Z.of_nat n + 1)) by lia.
        cbn [attempts].
        destruct Hn as [(buf' & c & -> & Htr & Hstop)|[-> Htr]]; [left|right].
        -- exists buf', c. rewrite Htr, <- !app_assoc. done.
        -- rewrite Htr, <- !app_assoc. done.
      * destruct fuel; cbn in Hrun; injection Hrun as <- <-;
          exists 0%nat; right; cbn; rewrite Z.add_0_r, <- !app_assoc; done.
    + injection Hrun as <- <-. exists 0%nat. left. exists buf, r. cbn.
      rewrite Z.add_0_r. split_and!; try done.
      intros [-> He]. rewrite He in Hc. by rewrite !Z.eqb_refl in Hc.
Qed.




Lemma retry_steps (flags need : Z) :
  (∀ size o, (sys_malloc P size o).1.1 = true) →
  (∀ size o, size < need →
     ∃ buf o', sys_loadquery P flags size o = (-1, Some (ENOMEM P), buf, o')) →
  (∀ size o, need ≤ size → (sys_loadquery P flags size o).1.1.1 ≠ -1) →
  ∀ (n fuel : nat) (b : Z) (buf0 : Buffer) (ef : option Z) (w : World P),
    (n ≤ fuel)%nat →
    (n = 0%nat ∨ b + 1024 * (Z.of_nat n - 1) < need) →
    need ≤ b + 1024 * Z.of_nat n →
    b + 1024 * Z.of_nat n ≤ INT_MAX P →
    ∃ buf c w',
      loadquery_retry P fuel flags (Some buf0) ef b w
      = Some ((Some buf, Some c, b + 1024 * Z.of_nat n), w')
      ∧ c ≠ -1
      ∧ trace w' = trace w ++ attempts flags b n
                           ++ [LqLoadquery flags (b + 1024 * Z.of_nat n) c].
Proof.
  intros Hm Hsmall Hbig.
  induction n as [|n IH]; intros fuel b buf0 ef w Hfuel Hlt Hge Hmax.
  - rewrite Z.mul_0_r, Z.add_0_r in *.
    assert (Hrun : ∀ fuel, ∃ buf c w',
      loadquery_retry P fuel flags (Some buf0) ef b w = Some ((Some buf, Some c, b), w')
      ∧ c ≠ -1 ∧ trace w' = trace w ++ [LqLoadquery flags b c]).
    { intros fuel0. pose proof (Hbig b (os w) Hge) as Hc.
      destruct fuel0; cbn [loadquery_retry]; unfold bind at 1, loadquery at 1;
        destruct (sys_loadquery P flags b (os w)) as [[[r e] buf] o] eqn:Hq;
        unfold bind at 1, get_errno; cbn [errno]; cbn in Hc;
        destruct (Z.eqb_spec r (-1)) as [|_]; try done; cbn [andb];
        eexists _, _, _; split_and!; done. }
    destruct (Hrun fuel) as (buf & c & w' & ? & ? & ?). exists buf, c, w'. done.
  - destruct fuel as [|fuel]; [lia|].
    assert (Hb : b < need) by lia.
    destruct (Hsmall b (os w) Hb) as (buf & o & Hq).
    cbn [loadquery_retry]. unfold bind at 1, loadquery at 1. rewrite Hq.
    unfold bind at 1, get_errno. cbn [errno errno_after default].
    rewrite !Z.eqb_refl. cbn [andb].
    unfold bind at 1, free.
    destruct (Z.ltb_spec (INT_MAX P) (b + 1024)) as [|_]; [lia|].
    unfold bind at 1, malloc at 1. cbn [os errno pyerr trace].
    pose proof (Hm (b + 1024) o) as Hok.
    destruct (sys_malloc P (b + 1024) o) as [[ok e2] o2]. cbn in Hok. subst ok.
    set (w1 := mkWorld _ _ _ _).
    destruct (IH fuel (b + 1024) BufJunk (Some (-1)) w1) as (buf' & c & w' & Hrun & Hc & Htr);
      [lia|lia|lia|lia|].
    exists buf', c, w'. rewrite Hrun.
    replace (b + 1024 + 1024 * Z.of_nat n) with (b + 1024 * Z.of_nat (S n)) by lia.
    split_and!; try done.
    rewrite Htr. cbn [trace w1 attempts]. rewrite <- !app_assoc.
    replace (b + 1024 + 1024 * Z.of_nat n) with (b + 1024 * Z.of_nat (S n)) by lia.
    done.
Qed.

(** X13.  On a platform where [malloc] succeeds and [loadquery] fails with
    ENOMEM exactly on buffers smaller than [need] bytes, the loop entered
    with the first buffer, of 1024 bytes, is left with a buffer of the least
    multiple of 1024 that is at least [need] and at least 1024: that size
    is enough, the size before it is not, and every size before it was
    tried once, in order. *)
Theorem loadquery_retry_grows (flags need : Z) (buf0 : Buffer) (ef : option Z)
    (w : World P) :
  1024 ≤ INT_MAX P →
  need + 1023 ≤ INT_MAX P →
  (∀ size o, (sys_malloc P size o).1.1 = true) →
  (∀ size o, size < need →
     ∃ buf o', sys_loadquery P flags size o = (-1, Some (ENOMEM P), buf, o')) →
  (∀ size o, need ≤ size → (sys_loadquery P flags size o).1.1.1 ≠ -1) →
  let q := Z.max 1 ((need + 1023) / 1024) in
  ∃ buf c w',
    loadquery_retry P (Z.to_nat (INT_MAX P / 1024)) flags (Some buf0) ef 1024 w
    = Some ((Some buf, Some c, 1024 * q), w')
    ∧ c ≠ -1
    ∧ need ≤ 1024 * q
    ∧ (1024 * q = 1024 ∨ 1024 * (q - 1) < need)
    ∧ trace w' = trace w ++ attempts flags 1024 (Z.to_nat (q - 1))
                         ++ [LqLoadquery flags (1024 * q) c].
Proof.
  intros Hint Hneed Hm Hsmall Hbig q.
  pose proof (Z.div_mod (need + 1023) 1024 ltac:(lia)) as Hdiv.
  pose proof (Z.mod_pos_bound (need + 1023) 1024 ltac:(lia)) as Hmod.
  set (d := (need + 1023) / 1024) in *.
  assert (Hq : 1 ≤ q) by (unfold q; lia).
  assert (Hq' : q = 1 ∨ q = d ∧ 2 ≤ d) by (unfold q; lia).
  assert (Hfuel : (Z.to_nat (q - 1) ≤ Z.to_nat (INT_MAX P / 1024))%nat).
  { apply Z2Nat.inj_le; [lia| |].
    - apply Z.div_pos; lia.
    - assert (q ≤ INT_MAX P / 1024); [|lia].
      apply Z.div_le_lower_bound; lia. }
  destruct (retry_steps flags need Hm Hsmall Hbig (Z.to_nat (q - 1))
              (Z.to_nat (INT_MAX P / 1024)) 1024 buf0 ef w Hfuel)
    as (buf & c & w' & Hrun & Hc & Htr).
  - rewrite Z2Nat.id by lia. destruct Hq' as [->|[-> Hd]]; [by left|right]. lia.
  - rewrite Z2Nat.id by lia. lia.
  - rewrite Z2Nat.id by lia. lia.
  - rewrite Z2Nat.id in Hrun, Htr by lia.
    replace (1024 + 1024 * (q - 1)) with (1024 * q) in Hrun, Htr by lia.
    exists buf, c, w'. split_and!; try done; lia.
Qed.

End Retry.

Section Fields.

Lemma strchr_Some (s : list ascii) (c : ascii) (k : nat) :
  strchr s c = Some k →
  s = take k s ++ c :: drop (S k) s ∧ c ∉ take k s.
Proof.
  revert k. induction s as [|x s IH]; intros k Hk; [done|].
  cbn in Hk. destruct (Ascii.eqb_spec x c) as [->|Hne].
  - injection Hk as <-. cbn. rewrite drop_0. split; [done|]. apply not_elem_of_nil.
  - destruct (strchr s c) as [k'|] eqn:Hs; [|done].
    injection Hk as <-. destruct (IH k' eq_refl) as [Heq Hnot].
    cbn. split; [by rewrite <- Heq|].
    rewrite not_elem_of_cons. split; [congruence|done].
Qed.

Lemma libpath_fields_nil (fuel : nat) : libpath_fields fuel [] = [].
Proof. by destruct fuel. Qed.

Lemma libpath_fields_spec :
  ∀ (fuel : nat) (s : list ascii),
    (length s ≤ fuel)%nat →
    let es := libpath_fields fuel s in
    Forall (fun e => ":"%char ∉ e) es
    ∧ (es = [] ↔ s = [])
    ∧ join_colons es ++ (if bool_decide (last s = Some ":"%char) then [":"%char] else [])
      = s.
Proof.
  induction fuel as [|fuel IH]; intros s Hlen es.
  - destruct s; [|cbn in Hlen; lia]. by cbn.
  - destruct s as [|c0 s0] eqn:Hs; [by cbn|].
    rewrite <- Hs in *. unfold es.
    replace (libpath_fields (S fuel) s)
      with (libpath_fields (S fuel) (c0 :: s0)) by (by rewrite Hs).
    cbn [libpath_fields]. rewrite <- Hs.
    assert (Hne : s ≠ []) by (by rewrite Hs).
    destruct (strchr s ":") as [k|] eqn:Hk.
    + destruct (strchr_Some _ _ _ Hk) as [Heq Hnot].
      assert (Hlk : (k < length s)%nat).
      { destruct (decide (k < length s)%nat); [done|].
        rewrite take_ge, drop_ge in Heq by lia.
        apply (f_equal length) in Heq. rewrite length_app in Heq. cbn in Heq. lia. }
      assert (Hdrop : drop k s = ":"%char :: drop (S k) s).
      { rewrite Heq at 1. rewrite drop_app_length'; [done|].
        rewrite length_take. lia. }
      rewrite Hdrop. set (rest := drop (S k) s) in *.
      assert (Hrest : (length rest ≤ fuel)%nat).
      { unfold rest. rewrite length_drop. lia. }
      destruct (IH rest Hrest) as (Hall & Hnil & Hjoin).
      split; [by constructor|]. split; [split; [done|by intros ->]|].
      cbn [join_colons].
      destruct (libpath_fields fuel rest) as [|e es'] eqn:Hf.
      * assert (rest = []) as Hr by (by apply Hnil). rewrite Hr in Heq.
        rewrite bool_decide_eq_true_2; [by rewrite <- Heq|].
        rewrite Heq. by rewrite last_snoc.
      * assert (Hrne : rest ≠ []).
        { intros Hr. destruct Hnil as [_ Hnil]. by specialize (Hnil Hr). }
        assert (Hlast : last s = last rest).
        { rewrite Heq. rewrite last_app_cons. rewrite last_cons.
          destruct (last rest) eqn:Hl; [done|].
          apply last_None in Hl. done. }
        rewrite Hlast, <- app_assoc. cbn [app]. rewrite Hjoin. by rewrite <- Heq.
    + apply strchr_None in Hk.
      unfold strlen. rewrite take_ge, drop_ge by lia.
      rewrite libpath_fields_nil. cbn [join_colons].
      split; [by repeat constructor|]. split; [split; [done|by intros ->]|].
      rewrite bool_decide_eq_false_2; [by rewrite app_nil_r|].
      intros Hl. apply Hk. by apply last_Some_elem_of.
Qed.

End Fields.

Section Entries.
Context (P : Platform).

(** One entry built, appended and released, or the [break]. *)
Lemma push_run {X : Type} (v : PyVal) (result : list PyVal) (x : X)
    (k : list PyVal → Cmd P (list PyVal * X)) (w : World P) :
  (entry <- Py_BuildValue P v ;;
   match entry with
   | None => ret (result, x)
   | Some entry =>
       y <- PyList_Append P result entry ;;
       let '(r, result) := y in
       if r <? 0 then ret (result, x)
       else Py_CLEAR P ;; k result
   end) w
  = let '(ok1, o1) := py_alloc P (os w) in
    if ok1 : bool then
      let '(ok2, o2) := py_alloc P o1 in
      if ok2 : bool then
        k (result ++ [v])
          (mkWorld (errno w) (pyerr w) o2 (trace w ++ entry_events v))
      else
        Some ((result, x),
              mkWorld (errno w) (Some ErrRaised) o2
                      (trace w ++ [LqBuildValue v true; LqAppend v false]))
    else
      Some ((result, x),
            mkWorld (errno w) (Some ErrRaised) o1 (trace w ++ [LqBuildValue v false])).
Proof.
  unfold bind at 1, Py_BuildValue at 1, bind at 1, py_call at 1.
  destruct (py_alloc P (os w)) as [[] o1]; cbn [ret]; [|done].
  unfold bind at 1, PyList_Append at 1, bind at 1, py_call at 1. cbn [os].
  destruct (py_alloc P o1) as [[] o2]; cbn [ret].
  - cbn. unfold bind, Py_CLEAR. cbn. by rewrite <- !app_assoc.
  - cbn. by rewrite <- !app_assoc.
Qed.

Lemma getmessages_loop_spec (pmsg : list (list ascii)) :
  ∀ (result : list PyVal) (w : World P),
    ∃ (k : nat) (more : bool) (w' : World P) (evs : list Event),
      getmessages_loop P pmsg result w
      = Some ((result ++ (PyStr <$> take k pmsg), more), w')
      ∧ trace w' = trace w ++ evs
      ∧ entry_trace evs
      ∧ (if more then (k < length pmsg)%nat ∧ pyerr w' = Some ErrRaised
         else k = length pmsg ∧ pyerr w' = pyerr w)
      ∧ ((∀ o, (py_alloc P o).1 = true) → more = false).
Proof.
  induction pmsg as [|msg pmsg IH]; intros result w.
  - exists 0%nat, false, w, []. cbn. rewrite !app_nil_r. split_and!; try done.
    constructor.
  - cbn [getmessages_loop]. rewrite push_run.
    destruct (py_alloc P (os w)) as [[] o1] eqn:H1.
    + destruct (py_alloc P o1) as [[] o2] eqn:H2.
      * set (w1 := mkWorld _ _ _ _).
        destruct (IH (result ++ [PyStr msg]) w1) as (k & more & w' & evs & Hrun & Htr & Hev & Hm & Hall).
        exists (S k), more, w', (entry_events (PyStr msg) ++ evs).
        rewrite Hrun, <- app_assoc.
        split; [done|]. split; [rewrite Htr; cbn [trace w1]; by rewrite <- app_assoc|].
        split; [apply Forall_app; split; [by repeat constructor|done]|].
        split; [|done].
        destruct more; cbn [length]; destruct Hm; split; try done; lia.
      * exists 0%nat, true. eexists _, _. rewrite take_0, fmap_nil, app_nil_r.
        split; [done|]. split; [done|]. split; [by repeat constructor|].
        split; [cbn; split; [lia|done]|].
        intros Hall. specialize (Hall o1). by rewrite H2 in Hall.
    + exists 0%nat, true. eexists _, _. rewrite take_0, fmap_nil, app_nil_r.
      split; [done|]. split; [done|]. split; [by repeat constructor|].
      split; [cbn; split; [lia|done]|].
      intros Hall. specialize (Hall (os w)). by rewrite H1 in Hall.
Qed.

Lemma rest_length (next : nat) (libpath : list ascii) :
  libpath ≠ [] →
  (length (match drop next libpath with
           | [] => []
           | _ :: rest => rest
           end) < length libpath)%nat.
Proof.
  intros Hne. pose proof (length_drop libpath next) as Hlen.
  destruct (drop next libpath) as [|c rest]; cbn in *.
  - destruct libpath; [done|cbn; lia].
  - lia.
Qed.

Lemma getlibpath_loop_spec :
  ∀ (fuel : nat) (libpath : list ascii) (result : list PyVal) (w : World P),
    (length libpath ≤ fuel)%nat →
    let fields := libpath_fields fuel libpath in
    ∃ (k : nat) (more : bool) (w' : World P) (evs : list Event),
      getlibpath_loop P fuel libpath result w
      = Some ((result ++ (PyStr <$> take k fields), more), w')
      ∧ trace w' = trace w ++ evs
      ∧ entry_trace evs
      ∧ (if more then (k < length fields)%nat ∧ pyerr w' = Some ErrRaised
         else k = length fields ∧ pyerr w' = pyerr w)
      ∧ ((∀ o, (py_alloc P o).1 = true) → more = false).
Proof.
  induction fuel as [|fuel IH]; intros libpath result w Hlen fields.
  - destruct libpath; [|cbn in Hlen; lia].
    exists 0%nat, false, w, []. cbn. rewrite !app_nil_r. split_and!; try done.
    constructor.
  - destruct libpath as [|c libpath'] eqn:Hlp.
    { exists 0%nat, false, w, []. cbn. rewrite !app_nil_r. split_and!; try done.
      constructor. }
    rewrite <- Hlp in *. unfold fields.
    assert (Hne : libpath ≠ []) by (by rewrite Hlp).
    replace (getlibpath_loop P (S fuel) libpath result w)
      with (getlibpath_loop P (S fuel) (c :: libpath') result w) by (by rewrite Hlp).
    replace (libpath_fields (S fuel) libpath)
      with (libpath_fields (S fuel) (c :: libpath')) by (by rewrite Hlp).
    cbn [getlibpath_loop libpath_fields]. rewrite <- Hlp.
    set (next := match strchr libpath ":" with
                 | Some k => k
                 | None => strlen libpath
                 end).
    set (rest := match drop next libpath with
                 | [] => []
                 | _ :: rest => rest
                 end).
    assert (Hrest : (length rest ≤ fuel)%nat).
    { pose proof (rest_length next libpath Hne). fold rest in H. lia. }
    rewrite push_run.
    destruct (py_alloc P (os w)) as [[] o1] eqn:H1.
    + destruct (py_alloc P o1) as [[] o2] eqn:H2.
      * set (w1 := mkWorld _ _ _ _).
        destruct (IH rest (result ++ [PyStr (take next libpath)]) w1 Hrest)
          as (k & more & w' & evs & Hrun & Htr & Hev & Hm & Hall).
        exists (S k), more, w', (entry_events (PyStr (take next libpath)) ++ evs).
        rewrite Hrun, <- app_assoc.
        split; [done|]. split; [rewrite Htr; cbn [trace w1]; by rewrite <- app_assoc|].
        split; [apply Forall_app; split; [by repeat constructor|done]|].
        split; [|done].
        destruct more; cbn [length]; destruct Hm; split; try done; lia.
      * exists 0%nat, true. eexists _, _. rewrite take_0, fmap_nil, app_nil_r.
        split; [done|]. split; [done|]. split; [by repeat constructor|].
        split; [cbn; split; [lia|done]|].
        intros Hall. specialize (Hall o1). by rewrite H2 in Hall.
    + exists 0%nat, true. eexists _, _. rewrite take_0, fmap_nil, app_nil_r.
      split; [done|]. split; [done|]. split; [by repeat constructor|].
      split; [cbn; split; [lia|done]|].
      intros Hall. specialize (Hall (os w)). by rewrite H1 in Hall.
Qed.

Section ChainLoop.
Context {R : Type} (next : R → N) (entry_of : R → PyVal) (ldibuf : gmap N R).

Lemma chain_loop_spec :
  ∀ (rs : list R) (off : N),
    chain next ldibuf off rs →
    ∀ (fuel : nat) (ldi : option (N * R)) (result : list PyVal) (w : World P),
      (length rs ≤ fuel)%nat →
      off = match ldi with
            | Some (p, r) => (next r + p)%N
            | None => 0%N
            end →
      ∃ (k : nat) (nx : N) (w' : World P) (evs : list Event),
        chain_loop P next entry_of fuel ldibuf ldi result w
        = Some ((result ++ (entry_of <$> take k rs), nx), w')
        ∧ trace w' = trace w ++ evs
        ∧ entry_trace evs
        ∧ (k = length rs ∧ nx = 0%N ∧ pyerr w' = pyerr w
           ∨ (k < length rs)%nat ∧ pyerr w' = Some ErrRaised
             ∧ ∃ r, rs !! k = Some r ∧ nx = next r)
        ∧ ((∀ o, (py_alloc P o).1 = true) → k = length rs).
Proof.
  induction 1 as [off r Hr Hn|off r rs Hr Hn Hc IH];
    intros fuel ldi result w Hfuel Hoff.
  - destruct fuel as [|fuel]; [cbn in Hfuel; lia|].
    cbn [chain_loop]. rewrite <- Hoff. unfold bind at 1. rewrite Hr. cbn [lift ret].
    rewrite push_run.
    destruct (py_alloc P (os w)) as [[] o1] eqn:H1.
    + destruct (py_alloc P o1) as [[] o2] eqn:H2.
      * rewrite Hn. cbn [N.eqb ret].
        exists 1%nat, 0%N. eexists _, _. split; [done|]. split; [done|].
        split; [by repeat constructor|]. split; [by left|done].
      * exists 0%nat, (next r). eexists _, _. rewrite take_0, fmap_nil, app_nil_r.
        split; [done|]. split; [done|]. split; [by repeat constructor|].
        split; [right; cbn; split_and!; [lia|done|by exists r]|].
        intros Hall. specialize (Hall o1). by rewrite H2 in Hall.
    + exists 0%nat, (next r). eexists _, _. rewrite take_0, fmap_nil, app_nil_r.
      split; [done|]. split; [done|]. split; [by repeat constructor|].
      split; [right; cbn; split_and!; [lia|done|by exists r]|].
      intros Hall. specialize (Hall (os w)). by rewrite H1 in Hall.
  - destruct fuel as [|fuel]; [cbn in Hfuel; lia|].
    cbn [chain_loop]. rewrite <- Hoff. unfold bind at 1. rewrite Hr. cbn [lift ret].
    rewrite push_run.
    destruct (py_alloc P (os w)) as [[] o1] eqn:H1.
    + destruct (py_alloc P o1) as [[] o2] eqn:H2.
      * destruct (N.eqb_spec (next r) 0) as [|_]; [done|].
        set (w1 := mkWorld _ _ _ _).
        destruct (IH fuel (Some (off, r)) (result ++ [entry_of r]) w1)
          as (k & nx & w' & evs & Hrun & Htr & Hev & Hout & Hall);
          [cbn in Hfuel; lia|done|].
        exists (S k), nx, w', (entry_events (entry_of r) ++ evs).
        rewrite Hrun, <- app_assoc.
        split; [done|]. split; [rewrite Htr; cbn [trace w1]; by rewrite <- app_assoc|].
        split; [apply Forall_app; split; [by repeat constructor|done]|].
        split.
        -- destruct Hout as [(-> & -> & Hp)|(Hlt & Hp & r' & Hr' & ->)]; [by left|right].
           cbn [length]. split_and!; [lia|done|by exists r'].
        -- intros Ha. cbn [length]. by rewrite (Hall Ha).
      * exists 0%nat, (next r). eexists _, _. rewrite take_0, fmap_nil, app_nil_r.
        split; [done|]. split; [done|]. split; [by repeat constructor|].
        split; [right; cbn; split_and!; [lia|done|by exists r]|].
        intros Hall. specialize (Hall o1). by rewrite H2 in Hall.
    + exists 0%nat, (next r). eexists _, _. rewrite take_0, fmap_nil, app_nil_r.
      split; [done|]. split; [done|]. split; [by repeat constructor|].
      split; [right; cbn; split_and!; [lia|done|by exists r]|].
      intros Hall. specialize (Hall (os w)). by rewrite H1 in Hall.
Qed.

(** The offsets of a chain grow: there are no more structures in a chain
    than in the buffer. *)
Lemma chain_keys (rs : list R) (off : N) :
  chain next ldibuf off rs →
  ∃ keys : list N,
    length keys = length rs
    ∧ NoDup keys
    ∧ Forall (fun k => (off ≤ k)%N ∧ is_Some (ldibuf !! k)) keys.
Proof.
  induction 1 as [off r Hr Hn|off r rs Hr Hn Hc (keys & Hlen & Hnd & Hall)].
  - exists [off]. split; [done|]. split; [apply NoDup_singleton|].
    repeat constructor; [lia|by rewrite Hr].
  - exists (off :: keys). split; [cbn; by rewrite Hlen|]. split.
    + constructor; [|done]. intros Hin.
      rewrite Forall_forall in Hall. destruct (Hall off Hin) as [Hle _]. lia.
    + constructor; [split; [lia|by rewrite Hr]|].
      eapply Forall_impl; [done|]. cbn. intros k [Hle Hk]. split; [lia|done].
Qed.

Lemma chain_length (rs : list R) :
  chain next ldibuf 0 rs → (length rs ≤ size ldibuf)%nat.
Proof.
  intros (keys & <- & Hnd & Hall)%chain_keys.
  rewrite <- (size_dom (D := gset N)).
  rewrite <- (size_list_to_set (C := gset N) keys) by done.
  apply subseteq_size. intros k Hk%elem_of_list_to_set.
  rewrite Forall_forall in Hall. destruct (Hall k Hk) as [_ Hs].
  by apply elem_of_dom.
Qed.

End ChainLoop.

End Entries.

Section Query.
Context (P : Platform).

Lemma chain_last_zero {R : Type} (next : R → N) (ldibuf : gmap N R)
    (rs : list R) (off : N) (k : nat) (r : R) :
  chain next ldibuf off rs → rs !! k = Some r → next r = 0%N → S k = length rs.
Proof.
  intros Hc. revert k.
  induction Hc as [off r0 Hr Hn|off r0 rs Hr Hn Hc IH]; intros k Hk Hz.
  - destruct k; [done|]. by destruct k.
  - destruct k as [|k]; cbn in Hk.
    + injection Hk as ->. done.
    + cbn. f_equal. by apply IH.
Qed.

(** What [py_loadquery] does once the buffer loop has left a buffer that
    [loadquery] filled. *)
Lemma py_loadquery_filled (flags : Z) (w w2 : World P) (buf : Buffer)
    (c bufsize : Z) :
  known_flags P flags = true →
  buffer_loop P flags w (Some buf, Some c, bufsize) w2 →
  c ≠ -1 →
  py_loadquery P (Some flags) w
  = let '(ok, o) := py_alloc P (os w2) in
    if ok : bool then
      match fill_list P flags buf []
              (mkWorld (errno w2) (pyerr w2) o (trace w2 ++ [LqListNew true])) with
      | Some ((l, broke), w4) =>
          if broke : bool
          then Some (None, mkWorld (errno w4) (pyerr w4) (os w4)
                                   (trace w4 ++ [LqDecref; LqFree]))
          else Some (Some l, mkWorld (errno w4) (pyerr w4) (os w4)
                                     (trace w4 ++ [LqFree]))
      | None => None
      end
    else Some (None, mkWorld (errno w2) (Some ErrRaised) o
                             (trace w2 ++ [LqListNew false; LqFree])).
Proof.
  intros Hk (ldibuf & w1 & Hm & Hretry) Hc.
  unfold py_loadquery. unfold bind at 1. cbn [PyArg_ParseTuple]. rewrite Hk.
  unfold bind at 1. rewrite Hm. unfold bind at 1. rewrite Hretry.
  unfold bind at 1, query at 1. cbn [lift]. unfold bind at 1. cbn [ret].
  destruct (Z.eqb_spec c (-1)) as [|_]; [done|].
  unfold bind at 1, PyList_New at 1, bind at 1, py_call at 1.
  destruct (py_alloc P (os w2)) as [[] o]; cbn [ret].
  - unfold bind at 1.
    destruct (fill_list P flags buf [] _) as [[[l broke] w4]|]; [|done].
    destruct broke; cbn; unfold bind, Py_DECREF, free; cbn;
      by rewrite <- ?app_assoc.
  - cbn. unfold bind, free. cbn. by rewrite <- ?app_assoc.
Qed.

Lemma lq_counts_app (t1 t2 : list Event) :
  lq_frees (t1 ++ t2) = (lq_frees t1 + lq_frees t2)%nat
  ∧ lq_decrefs (t1 ++ t2) = (lq_decrefs t1 + lq_decrefs t2)%nat
  ∧ lq_lists (t1 ++ t2) = (lq_lists t1 + lq_lists t2)%nat.
Proof.
  unfold lq_frees, lq_decrefs, lq_lists. by rewrite !omap_app, !length_app.
Qed.

Lemma entry_trace_counts (evs : list Event) :
  entry_trace evs →
  lq_frees evs = 0%nat ∧ lq_decrefs evs = 0%nat ∧ lq_lists evs = 0%nat.
Proof.
  induction 1 as [|ev evs Hev _ IH]; [done|].
  destruct ev; try done; exact IH.
Qed.

Lemma py_loadquery_outcome (flags : Z) (w w2 : World P) (buf : Buffer)
    (c bufsize : Z) :
  known_flags P flags = true →
  buffer_loop P flags w (Some buf, Some c, bufsize) w2 →
  c ≠ -1 →
  fills P flags buf →
  ∃ res w' evs,
    py_loadquery P (Some flags) w = Some (res, w')
    ∧ trace w' = trace w2 ++ evs
    ∧ lq_frees evs = 1%nat
    ∧ lq_decrefs evs = match res with Some _ => 0%nat | None => lq_lists evs end
    ∧ (res = None → pyerr w' = Some ErrRaised)
    ∧ ((∃ o, py_alloc P (os w2) = (false, o)) ∧ res = None
       ∨ ∃ o l broke w4,
           py_alloc P (os w2) = (true, o)
           ∧ fill_list P flags buf []
               (mkWorld (errno w2) (pyerr w2) o (trace w2 ++ [LqListNew true]))
             = Some ((l, broke), w4)
           ∧ pyerr w' = pyerr w4
           ∧ res = if broke : bool then None else Some l).
Proof.
  intros Hk Hloop Hc Hfill.
  rewrite (py_loadquery_filled flags w w2 _ c bufsize Hk Hloop Hc).
  destruct (py_alloc P (os w2)) as [[] o] eqn:Ha.
  - set (w3 := mkWorld _ _ _ _).
    destruct (Hfill w3) as (l & broke & w4 & evs & Hrun & Htr & Hev & Hbroke).
    rewrite Hrun.
    destruct (entry_trace_counts evs Hev) as (Hf & Hd & Hl).
    destruct broke.
    + eexists None, _, _. split; [done|]. cbn [trace].
      rewrite Htr. cbn [trace w3]. rewrite <- !app_assoc. split; [done|].
      destruct (lq_counts_app [LqListNew true] (evs ++ [LqDecref; LqFree]))
        as (H1 & H2 & H3).
      destruct (lq_counts_app evs [LqDecref; LqFree]) as (H4 & H5 & H6).
      rewrite ?H1, ?H2, ?H3, ?H4, ?H5, ?H6, ?Hf, ?Hd, ?Hl. cbn. split_and!; try done; [by intros; apply Hbroke|].
      right. by exists o, l, true, w4.
    + eexists (Some l), _, _. split; [done|]. cbn [trace].
      rewrite Htr. cbn [trace w3]. rewrite <- !app_assoc. split; [done|].
      destruct (lq_counts_app [LqListNew true] (evs ++ [LqFree]))
        as (H1 & H2 & H3).
      destruct (lq_counts_app evs [LqFree]) as (H4 & H5 & H6).
      rewrite ?H1, ?H2, ?H3, ?H4, ?H5, ?H6, ?Hf, ?Hd, ?Hl. cbn. split_and!; try done.
      right. by exists o, l, false, w4.
  - eexists None, _, _. split; [done|]. cbn. split_and!; try done.
    left. split; [by exists o|done].
Qed.

Lemma known_messages (flags : Z) : flags = L_GETMESSAGES P → known_flags P flags = true.
Proof. intros ->. unfold known_flags. rewrite Z.eqb_refl. by rewrite !orb_true_r. Qed.

Lemma known_libpath (flags : Z) : flags = L_GETLIBPATH P → known_flags P flags = true.
Proof. intros ->. unfold known_flags. rewrite Z.eqb_refl. by rewrite !orb_true_r. Qed.

Lemma known_info (flags : Z) : flags = L_GETINFO P → known_flags P flags = true.
Proof. intros ->. unfold known_flags. by rewrite Z.eqb_refl. Qed.

Lemma known_xinfo (flags : Z) : flags = L_GETXINFO P → known_flags P flags = true.
Proof. intros ->. unfold known_flags. rewrite Z.eqb_refl. by rewrite !orb_true_r. Qed.

(** X14.  L_GETMESSAGES.  Once the buffer holds the messages,
    [py_loadquery] returns either the list of all of them, as strings in
    their order, with the error indicator as it was, or NULL with the error
    indicator set; it returns the list when no Python call fails.  The
    buffer is freed once, and the list is released exactly when it was
    created and NULL is returned. *)
Theorem py_loadquery_messages (flags : Z) (w w2 : World P)
    (pmsg : list (list ascii)) (c bufsize : Z) :
  flags = L_GETMESSAGES P →
  buffer_loop P flags w (Some (BufMessages pmsg), Some c, bufsize) w2 →
  c ≠ -1 →
  ∃ res w' evs,
    py_loadquery P (Some flags) w = Some (res, w')
    ∧ trace w' = trace w2 ++ evs
    ∧ match res with
      | Some l => l = PyStr <$> pmsg ∧ pyerr w' = pyerr w2
      | None => pyerr w' = Some ErrRaised
      end
    ∧ lq_frees evs = 1%nat
    ∧ lq_decrefs evs = match res with Some _ => 0%nat | None => lq_lists evs end
    ∧ ((∀ o, (py_alloc P o).1 = true) → is_Some res).
Proof.
  intros Hf Hloop Hc.
  assert (Hfl : ∀ w3, fill_list P flags (BufMessages pmsg) [] w3
                      = getmessages_loop P pmsg [] w3).
  { intros w3. unfold fill_list. by rewrite Hf, Z.eqb_refl. }
  destruct (py_loadquery_outcome flags w w2 _ c bufsize (known_messages _ Hf) Hloop Hc)
    as (res & w' & evs & Hrun & Htr & Hfr & Hdec & Hnone & Hout).
  { intros w3. rewrite Hfl.
    destruct (getmessages_loop_spec P pmsg [] w3)
      as (k & more & w4 & evs & Hrun3 & Htr3 & Hev & Hm & _).
    eexists _, more, w4, evs. split_and!; try done. intros ->. by destruct Hm. }
  exists res, w', evs. split_and!; try done.
  - destruct Hout as [[_ ->]|(o & l & broke & w4 & Ha & Hrun4 & Hp & ->)]; [by apply Hnone|].
    rewrite Hfl in Hrun4.
    destruct (getmessages_loop_spec P pmsg []
                (mkWorld (errno w2) (pyerr w2) o (trace w2 ++ [LqListNew true])))
      as (k & more & w4' & evs4 & Hrun5 & _ & _ & Hm & _).
    rewrite Hrun5 in Hrun4. injection Hrun4 as <- <- <-.
    destruct more; [by apply Hnone|]. destruct Hm as [-> Hp4].
    rewrite firstn_all. split; [done|]. by rewrite Hp, Hp4.
  - intros Hall.
    destruct Hout as [[[o Ha] _]|(o & l & broke & w4 & Ha & Hrun4 & Hp & ->)].
    { specialize (Hall (os w2)). by rewrite Ha in Hall. }
    rewrite Hfl in Hrun4.
    destruct (getmessages_loop_spec P pmsg []
                (mkWorld (errno w2) (pyerr w2) o (trace w2 ++ [LqListNew true])))
      as (k & more & w4' & evs4 & Hrun5 & _ & _ & _ & Hok).
    rewrite Hrun5 in Hrun4. injection Hrun4 as <- <- <-.
    by rewrite (Hok Hall).
Qed.

(** X15.  L_GETLIBPATH.  Once the buffer holds the library path,
    [py_loadquery] returns either the list of its colon-separated entries
    or NULL with the error indicator set; it returns the list when no
    Python call fails.  No entry holds a colon; the entries joined by colons
    give the path back, but for one colon at its end, which is dropped; and
    the list is empty exactly for the empty path. *)
Theorem py_loadquery_libpath (flags : Z) (w w2 : World P)
    (libpath : list ascii) (c bufsize : Z) :
  flags = L_GETLIBPATH P →
  L_GETLIBPATH P ≠ L_GETMESSAGES P →
  buffer_loop P flags w (Some (BufLibpath libpath), Some c, bufsize) w2 →
  c ≠ -1 →
  ∃ res w' evs,
    py_loadquery P (Some flags) w = Some (res, w')
    ∧ trace w' = trace w2 ++ evs
    ∧ match res with
      | Some l =>
          ∃ es, l = PyStr <$> es
            ∧ Forall (fun e => ":"%char ∉ e) es
            ∧ (es = [] ↔ libpath = [])
            ∧ join_colons es
              ++ (if bool_decide (last libpath = Some ":"%char) then [":"%char] else [])
              = libpath
            ∧ pyerr w' = pyerr w2
      | None => pyerr w' = Some ErrRaised
      end
    ∧ lq_frees evs = 1%nat
    ∧ lq_decrefs evs = match res with Some _ => 0%nat | None => lq_lists evs end
    ∧ ((∀ o, (py_alloc P o).1 = true) → is_Some res).
Proof.
  intros Hf Hne Hloop Hc.
  assert (Hfl : ∀ w3, fill_list P flags (BufLibpath libpath) [] w3
                      = getlibpath_loop P (strlen libpath) libpath [] w3).
  { intros w3. unfold fill_list. rewrite Hf, Z.eqb_refl.
    by destruct (Z.eqb_spec (L_GETLIBPATH P) (L_GETMESSAGES P)). }
  destruct (py_loadquery_outcome flags w w2 _ c bufsize (known_libpath _ Hf) Hloop Hc)
    as (res & w' & evs & Hrun & Htr & Hfr & Hdec & Hnone & Hout).
  { intros w3. rewrite Hfl.
    destruct (getlibpath_loop_spec P (strlen libpath) libpath [] w3 (le_n _))
      as (k & more & w4 & evs & Hrun3 & Htr3 & Hev & Hm & _).
    eexists _, more, w4, evs. split_and!; try done. intros ->. by destruct Hm. }
  exists res, w', evs. split_and!; try done.
  - destruct Hout as [[_ ->]|(o & l & broke & w4 & Ha & Hrun4 & Hp & ->)]; [by apply Hnone|].
    rewrite Hfl in Hrun4.
    destruct (getlibpath_loop_spec P (strlen libpath) libpath []
                (mkWorld (errno w2) (pyerr w2) o (trace w2 ++ [LqListNew true]))
                (le_n _))
      as (k & more & w4' & evs4 & Hrun5 & _ & _ & Hm & _).
    rewrite Hrun5 in Hrun4. injection Hrun4 as <- <- <-.
    destruct more; [by apply Hnone|]. destruct Hm as [-> Hp4].
    rewrite firstn_all.
    destruct (libpath_fields_spec (strlen libpath) libpath (le_n _)) as (H1 & H2 & H3).
    eexists. split_and!; try done. by rewrite Hp, Hp4.
  - intros Hall.
    destruct Hout as [[[o Ha] _]|(o & l & broke & w4 & Ha & Hrun4 & Hp & ->)].
    { specialize (Hall (os w2)). by rewrite Ha in Hall. }
    rewrite Hfl in Hrun4.
    destruct (getlibpath_loop_spec P (strlen libpath) libpath []
                (mkWorld (errno w2) (pyerr w2) o (trace w2 ++ [LqListNew true]))
                (le_n _))
      as (k & more & w4' & evs4 & Hrun5 & _ & _ & _ & Hok).
    rewrite Hrun5 in Hrun4. injection Hrun4 as <- <- <-.
    by rewrite (Hok Hall).
Qed.

(** The listing of a chain of structures. *)
Lemma chain_listing {R : Type} (next : R → N) (entry_of : R → PyVal)
    (ldibuf : gmap N R) (rs : list R) (w3 : World P) :
  chain next ldibuf 0 rs →
  ∃ k nx w4 evs,
    chain_loop P next entry_of (size ldibuf) ldibuf None [] w3
    = Some ((entry_of <$> take k rs, nx), w4)
    ∧ trace w4 = trace w3 ++ evs
    ∧ entry_trace evs
    ∧ (nx = 0%N ∧ k = length rs ∧ pyerr w4 = pyerr w3
       ∨ nx = 0%N ∧ S k = length rs ∧ pyerr w4 = Some ErrRaised
       ∨ nx ≠ 0%N ∧ pyerr w4 = Some ErrRaised)
    ∧ ((∀ o, (py_alloc P o).1 = true) → nx = 0%N ∧ k = length rs).
Proof.
  intros Hc.
  destruct (chain_loop_spec P next entry_of ldibuf rs 0 Hc (size ldibuf) None [] w3
              (chain_length next ldibuf rs Hc) eq_refl)
    as (k & nx & w4 & evs & Hrun & Htr & Hev & Hout & Hall).
  exists k, nx, w4, evs. cbn [app] in Hrun. split_and!; try done.
  - destruct Hout as [(-> & -> & Hp)|(Hlt & Hp & r & Hr & ->)]; [by left|right].
    destruct (N.eq_dec (next r) 0%N) as [Hz|Hnz]; [left|right; done].
    split_and!; try done. by eapply chain_last_zero.
  - intros Ha. specialize (Hall Ha). subst k.
    destruct Hout as [(_ & -> & _)|(Hlt & _)]; [done|lia].
Qed.

(** X16.  L_GETINFO.  Given the chain of structures in the buffer,
    [py_loadquery] returns the list of one dictionary per structure, in
    chain order, when no Python call fails.  When one fails it returns NULL
    with the error indicator set, unless the call that failed was for the
    last structure of the chain: there [ldinfo_next] is 0, the [break] is
    taken for the end of the loop, and the list is returned without its
    last entry, with the error indicator set. *)
Theorem py_loadquery_info (flags : Z) (w w2 : World P)
    (ldi : gmap N ld_info) (rs : list ld_info) (c bufsize : Z) :
  flags = L_GETINFO P →
  L_GETINFO P ≠ L_GETMESSAGES P →
  L_GETINFO P ≠ L_GETLIBPATH P →
  buffer_loop P flags w (Some (BufInfo ldi), Some c, bufsize) w2 →
  c ≠ -1 →
  chain ldinfo_next ldi 0 rs →
  ∃ res w' evs,
    py_loadquery P (Some flags) w = Some (res, w')
    ∧ trace w' = trace w2 ++ evs
    ∧ match res with
      | Some l =>
          l = info_entry <$> rs ∧ pyerr w' = pyerr w2
          ∨ l = info_entry <$> take (length rs - 1) rs ∧ pyerr w' = Some ErrRaised
      | None => pyerr w' = Some ErrRaised
      end
    ∧ lq_frees evs = 1%nat
    ∧ lq_decrefs evs = match res with Some _ => 0%nat | None => lq_lists evs end
    ∧ ((∀ o, (py_alloc P o).1 = true) → res = Some (info_entry <$> rs)).
Proof.
  intros Hf Hne1 Hne2 Hloop Hc Hchain.
  assert (Hfl : ∀ w3, fill_list P flags (BufInfo ldi) [] w3
                      = (x <- chain_loop P ldinfo_next info_entry (size ldi) ldi None [] ;;
                         let '(result, next) := x in
                         ret (result, negb (next =? 0)%N)) w3).
  { intros w3. unfold fill_list. rewrite Hf, Z.eqb_refl.
    destruct (Z.eqb_spec (L_GETINFO P) (L_GETMESSAGES P)); [done|].
    by destruct (Z.eqb_spec (L_GETINFO P) (L_GETLIBPATH P)). }
  destruct (py_loadquery_outcome flags w w2 _ c bufsize (known_info _ Hf) Hloop Hc)
    as (res & w' & evs & Hrun & Htr & Hfr & Hdec & Hnone & Hout).
  { intros w3. rewrite Hfl.
    destruct (chain_listing ldinfo_next info_entry ldi rs w3 Hchain)
      as (k & nx & w4 & evs & Hrun3 & Htr3 & Hev & Hm & _).
    unfold bind. rewrite Hrun3. cbn [ret].
    eexists _, _, w4, evs. split_and!; try done.
    destruct Hm as [(-> & _)|[(-> & _)|(Hnz & Hp)]]; try done. }
  exists res, w', evs. split_and!; try done.
  - destruct Hout as [[_ ->]|(o & l & broke & w4 & Ha & Hrun4 & Hp & ->)]; [by apply Hnone|].
    rewrite Hfl in Hrun4.
    destruct (chain_listing ldinfo_next info_entry ldi rs
                (mkWorld (errno w2) (pyerr w2) o (trace w2 ++ [LqListNew true])) Hchain)
      as (k & nx & w4' & evs4 & Hrun5 & _ & _ & Hm & _).
    unfold bind in Hrun4. rewrite Hrun5 in Hrun4. cbn [ret] in Hrun4.
    injection Hrun4 as <- <- <-.
    destruct Hm as [(-> & -> & Hp4)|[(-> & Hk & Hp4)|(Hnz & Hp4)]]; cbn [N.eqb negb].
    + left. rewrite firstn_all. split; [done|]. by rewrite Hp, Hp4.
    + right. replace (length rs - 1)%nat with k by lia. split; [done|]. by rewrite Hp, Hp4.
    + destruct (N.eqb_spec nx 0) as [|_]; [done|]. cbn. by rewrite Hp, Hp4.
  - intros Hall.
    destruct Hout as [[[o Ha] _]|(o & l & broke & w4 & Ha & Hrun4 & Hp & ->)].
    { specialize (Hall (os w2)). by rewrite Ha in Hall. }
    rewrite Hfl in Hrun4.
    destruct (chain_listing ldinfo_next info_entry ldi rs
                (mkWorld (errno w2) (pyerr w2) o (trace w2 ++ [LqListNew true])) Hchain)
      as (k & nx & w4' & evs4 & Hrun5 & _ & _ & _ & Hok).
    unfold bind in Hrun4. rewrite Hrun5 in Hrun4. cbn [ret] in Hrun4.
    injection Hrun4 as <- <- <-.
    destruct (Hok Hall) as [-> ->]. cbn. by rewrite firstn_all.
Qed.

(** X17.  L_GETXINFO: as for L_GETINFO, with the dictionaries of
    [struct ld_xinfo]. *)
Theorem py_loadquery_xinfo (flags : Z) (w w2 : World P)
    (ldxi : gmap N ld_xinfo) (rs : list ld_xinfo) (c bufsize : Z) :
  flags = L_GETXINFO P →
  L_GETXINFO P ≠ L_GETMESSAGES P →
  L_GETXINFO P ≠ L_GETLIBPATH P →
  L_GETXINFO P ≠ L_GETINFO P →
  buffer_loop P flags w (Some (BufXInfo ldxi), Some c, bufsize) w2 →
  c ≠ -1 →
  chain ldxinfo_next ldxi 0 rs →
  ∃ res w' evs,
    py_loadquery P (Some flags) w = Some (res, w')
    ∧ trace w' = trace w2 ++ evs
    ∧ match res with
      | Some l =>
          l = xinfo_entry <$> rs ∧ pyerr w' = pyerr w2
          ∨ l = xinfo_entry <$> take (length rs - 1) rs ∧ pyerr w' = Some ErrRaised
      | None => pyerr w' = Some ErrRaised
      end
    ∧ lq_frees evs = 1%nat
    ∧ lq_decrefs evs = match res with Some _ => 0%nat | None => lq_lists evs end
    ∧ ((∀ o, (py_alloc P o).1 = true) → res = Some (xinfo_entry <$> rs)).
Proof.
  intros Hf Hne1 Hne2 Hne3 Hloop Hc Hchain.
  assert (Hfl : ∀ w3, fill_list P flags (BufXInfo ldxi) [] w3
                      = (x <- chain_loop P ldxinfo_next xinfo_entry (size ldxi) ldxi None [] ;;
                         let '(result, next) := x in
                         ret (result, negb (next =? 0)%N)) w3).
  { intros w3. unfold fill_list. rewrite Hf, Z.eqb_refl.
    destruct (Z.eqb_spec (L_GETXINFO P) (L_GETMESSAGES P)); [done|].
    destruct (Z.eqb_spec (L_GETXINFO P) (L_GETLIBPATH P)); [done|].
    by destruct (Z.eqb_spec (L_GETXINFO P) (L_GETINFO P)). }
  destruct (py_loadquery_outcome flags w w2 _ c bufsize (known_xinfo _ Hf) Hloop Hc)
    as (res & w' & evs & Hrun & Htr & Hfr & Hdec & Hnone & Hout).
  { intros w3. rewrite Hfl.
    destruct (chain_listing ldxinfo_next xinfo_entry ldxi rs w3 Hchain)
      as (k & nx & w4 & evs & Hrun3 & Htr3 & Hev & Hm & _).
    unfold bind. rewrite Hrun3. cbn [ret].
    eexists _, _, w4, evs. split_and!; try done.
    destruct Hm as [(-> & _)|[(-> & _)|(Hnz & Hp)]]; try done. }
  exists res, w', evs. split_and!; try done.
  - destruct Hout as [[_ ->]|(o & l & broke & w4 & Ha & Hrun4 & Hp & ->)]; [by apply Hnone|].
    rewrite Hfl in Hrun4.
    destruct (chain_listing ldxinfo_next xinfo_entry ldxi rs
                (mkWorld (errno w2) (pyerr w2) o (trace w2 ++ [LqListNew true])) Hchain)
      as (k & nx & w4' & evs4 & Hrun5 & _ & _ & Hm & _).
    unfold bind in Hrun4. rewrite Hrun5 in Hrun4. cbn [ret] in Hrun4.
    injection Hrun4 as <- <- <-.
    destruct Hm as [(-> & -> & Hp4)|[(-> & Hk & Hp4)|(Hnz & Hp4)]]; cbn [N.eqb negb].
    + left. rewrite firstn_all. split; [done|]. by rewrite Hp, Hp4.
    + right. replace (length rs - 1)%nat with k by lia. split; [done|]. by rewrite Hp, Hp4.
    + destruct (N.eqb_spec nx 0) as [|_]; [done|]. cbn. by rewrite Hp, Hp4.
  - intros Hall.
    destruct Hout as [[[o Ha] _]|(o & l & broke & w4 & Ha & Hrun4 & Hp & ->)].
    { specialize (Hall (os w2)). by rewrite Ha in Hall. }
    rewrite Hfl in Hrun4.
    destruct (chain_listing ldxinfo_next xinfo_entry ldxi rs
                (mkWorld (errno w2) (pyerr w2) o (trace w2 ++ [LqListNew true])) Hchain)
      as (k & nx & w4' & evs4 & Hrun5 & _ & _ & _ & Hok).
    unfold bind in Hrun4. rewrite Hrun5 in Hrun4. cbn [ret] in Hrun4.
    injection Hrun4 as <- <- <-.
    destruct (Hok Hall) as [-> ->]. cbn. by rewrite firstn_all.
Qed.

Lemma py_loadquery_unassigned (flags : Z) (w w2 : World P)
    (ldibuf : option Buffer) (errflag : option Z) (bufsize : Z) :
  known_flags P flags = true →
  buffer_loop P flags w (ldibuf, errflag, bufsize) w2 →
  ldibuf = None ∨ errflag = Some (-1) →
  py_loadquery P (Some flags) w = None.
Proof.
  intros Hk (ldibuf0 & w1 & Hm & Hretry) Hfail.
  unfold py_loadquery. unfold bind at 1. cbn [PyArg_ParseTuple]. rewrite Hk.
  unfold bind at 1. rewrite Hm. unfold bind at 1. rewrite Hretry.
  unfold bind at 1, query at 1.
  destruct ldibuf as [buf|].
  - destruct Hfail as [Hn | ->]; [done|]. cbn [lift]. unfold bind at 1. cbn [ret].
    cbn [Z.eqb]. rewrite Pos.eqb_refl.
    unfold bind at 1, get_errno. unfold bind at 1, PyErr_SetString. cbn [ret].
    by unfold bind at 1.
  - unfold bind at 1, get_errno. unfold bind at 1, PyErr_SetString. cbn [ret].
    by unfold bind at 1.
Qed.

(** X18.  When the buffer loop is left without a buffer (no memory), or
    after a [loadquery] that returned -1 (an error other than ENOMEM), the
    block is left with [final_result] null and [result] never assigned; the
    test [!final_result && result] then reads [result]: the behaviour of
    [py_loadquery] is undefined. *)
Theorem py_loadquery_unassigned_result (flags : Z) (w w2 : World P)
    (ldibuf : option Buffer) (errflag : option Z) (bufsize : Z) :
  known_flags P flags = true →
  buffer_loop P flags w (ldibuf, errflag, bufsize) w2 →
  ldibuf = None ∨ errflag = Some (-1) →
  py_loadquery P (Some flags) w = None
  ∧ (ldibuf = None → fst <$> query P flags ldibuf errflag w2
                     = Some (None, None))
  ∧ (ldibuf ≠ None → errflag = Some (-1) →
     fst <$> query P flags ldibuf errflag w2 = Some (None, None)).
Proof.
  intros Hk Hloop Hfail. split; [by eapply py_loadquery_unassigned|].
  split.
  - by intros ->.
  - intros Hne ->. destruct ldibuf; [|done]. unfold query. cbn [lift].
    unfold bind at 1. cbn [ret]. cbn [Z.eqb]. by rewrite Pos.eqb_refl.
Qed.

Lemma chain_loop_trace {R : Type} (next : R → N) (entry_of : R → PyVal)
    (ldibuf : gmap N R) :
  ∀ (fuel : nat) (ldi : option (N * R)) (result l : list PyVal) (nx : N)
    (w w' : World P),
    chain_loop P next entry_of fuel ldibuf ldi result w = Some ((l, nx), w') →
    ∃ evs, trace w' = trace w ++ evs
      ∧ entry_trace evs
      ∧ (nx ≠ 0%N → pyerr w' = Some ErrRaised).
Proof.
  induction fuel as [|fuel IH]; intros ldi result l nx w w' Hrun; [done|].
  cbn [chain_loop] in Hrun. unfold bind at 1 in Hrun.
  destruct (ldibuf !! _) as [r|]; [|done]. cbn [lift ret] in Hrun.
  rewrite push_run in Hrun.
  destruct (py_alloc P (os w)) as [[] o1].
  - destruct (py_alloc P o1) as [[] o2].
    + destruct (N.eqb_spec (next r) 0) as [Hz|Hnz].
      * injection Hrun as <- <- <-. eexists. split; [done|].
        split; [by repeat constructor|done].
      * apply IH in Hrun as (evs & Htr & Hev & Hp).
        exists (entry_events (entry_of r) ++ evs). cbn [trace] in Htr.
        rewrite Htr, <- app_assoc. split; [done|]. split; [|done].
        apply Forall_app. split; [by repeat constructor|done].
    + injection Hrun as <- <- <-. eexists. split; [done|].
      split; [by repeat constructor|done].
  - injection Hrun as <- <- <-. eexists. split; [done|].
    split; [by repeat constructor|done].
Qed.

Lemma fill_list_trace (flags : Z) (buf : Buffer) (l : list PyVal) (broke : bool)
    (w3 w4 : World P) :
  fill_list P flags buf [] w3 = Some ((l, broke), w4) →
  ∃ evs, trace w4 = trace w3 ++ evs
    ∧ entry_trace evs
    ∧ (broke = true → pyerr w4 = Some ErrRaised).
Proof.
  unfold fill_list. intros Hrun.
  destruct (flags =? L_GETMESSAGES P).
  { unfold bind at 1 in Hrun. destruct buf; try done. cbn [lift ret] in Hrun.
    destruct (getmessages_loop_spec P pmsg [] w3)
      as (k & more & w4' & evs & Hrun' & Htr & Hev & Hm & _).
    rewrite Hrun' in Hrun. injection Hrun as <- <- <-.
    exists evs. split_and!; try done. intros ->. by destruct Hm. }
  destruct (flags =? L_GETLIBPATH P).
  { unfold bind at 1 in Hrun. destruct buf; try done. cbn [lift ret] in Hrun.
    destruct (getlibpath_loop_spec P (strlen libpath) libpath [] w3 (le_n _))
      as (k & more & w4' & evs & Hrun' & Htr & Hev & Hm & _).
    rewrite Hrun' in Hrun. injection Hrun as <- <- <-.
    exists evs. split_and!; try done. intros ->. by destruct Hm. }
  destruct (flags =? L_GETINFO P).
  { unfold bind at 1 in Hrun. destruct buf; try done. cbn [lift ret] in Hrun.
    unfold bind at 1 in Hrun.
    destruct (chain_loop P ldinfo_next info_entry (size ldi) ldi None [] w3)
      as [[[l' nx] w4']|] eqn:Hloop; [|done].
    cbn [ret] in Hrun. injection Hrun as <- <- <-.
    apply chain_loop_trace in Hloop as (evs & Htr & Hev & Hp).
    exists evs. split_and!; try done.
    intros Hb. apply Hp. by destruct (N.eqb_spec nx 0). }
  destruct (flags =? L_GETXINFO P).
  { unfold bind at 1 in Hrun. destruct buf; try done. cbn [lift ret] in Hrun.
    unfold bind at 1 in Hrun.
    destruct (chain_loop P ldxinfo_next xinfo_entry (size ldxi) ldxi None [] w3)
      as [[[l' nx] w4']|] eqn:Hloop; [|done].
    cbn [ret] in Hrun. injection Hrun as <- <- <-.
    apply chain_loop_trace in Hloop as (evs & Htr & Hev & Hp).
    exists evs. split_and!; try done.
    intros Hb. apply Hp. by destruct (N.eqb_spec nx 0). }
  injection Hrun as <- <- <-. exists []. rewrite app_nil_r. split_and!; try done.
  constructor.
Qed.

Lemma lq_mallocs_app (t1 t2 : list Event) :
  lq_mallocs (t1 ++ t2) = (lq_mallocs t1 + lq_mallocs t2)%nat.
Proof. unfold lq_mallocs. by rewrite omap_app, length_app. Qed.

Lemma entry_trace_mallocs (evs : list Event) : entry_trace evs → lq_mallocs evs = 0%nat.
Proof.
  induction 1 as [|ev evs Hev _ IH]; [done|].
  destruct ev; try done; exact IH.
Qed.

Lemma attempts_counts (flags b : Z) (n : nat) :
  lq_frees (attempts flags b n) = n
  ∧ lq_mallocs (attempts flags b n) = n
  ∧ lq_decrefs (attempts flags b n) = 0%nat
  ∧ lq_lists (attempts flags b n) = 0%nat.
Proof.
  revert b. induction n as [|n IH]; intros b; [done|].
  destruct (IH (b + 1024)) as (H1 & H2 & H3 & H4).
  cbn [attempts app]. unfold lq_frees, lq_mallocs, lq_decrefs, lq_lists in *.
  cbn. rewrite H1, H2, H3, H4. done.
Qed.

(** X19.  Whenever [py_loadquery] returns: every buffer it allocated it has
    freed; the list it created it has released exactly when it returns
    NULL; and NULL comes with the error indicator set. *)
Theorem py_loadquery_releases (args : option Z) (w w' : World P)
    (res : option (list PyVal)) :
  py_loadquery P args w = Some (res, w') →
  ∃ evs,
    trace w' = trace w ++ evs
    ∧ lq_mallocs evs = lq_frees evs
    ∧ lq_decrefs evs = match res with Some _ => 0%nat | None => lq_lists evs end
    ∧ (res = None → is_Some (pyerr w')).
Proof.
  intros Hrun. destruct args as [flags|].
  2:{ injection Hrun as <- <-. exists []. rewrite app_nil_r. cbn. split_and!; eauto. }
  destruct (known_flags P flags) eqn:Hk.
  2:{ unfold py_loadquery in Hrun. unfold bind at 1 in Hrun.
      cbn [PyArg_ParseTuple] in Hrun. rewrite Hk in Hrun.
      injection Hrun as <- <-. eexists. split; [done|]. cbn. split_and!; eauto. }
  destruct (malloc P 1024 w) as [[ldibuf0 w1]|] eqn:Hm.
  2:{ unfold malloc in Hm. by destruct (sys_malloc P 1024 (os w)) as [[? ?] ?]. }
  destruct (loadquery_retry P (Z.to_nat (INT_MAX P / 1024)) flags ldibuf0 None 1024 w1)
    as [[[[ldibuf errflag] bufsize] w2]|] eqn:Hretry.
  2:{ unfold py_loadquery in Hrun. unfold bind at 1 in Hrun.
      cbn [PyArg_ParseTuple] in Hrun. rewrite Hk in Hrun.
      unfold bind at 1 in Hrun. rewrite Hm in Hrun.
      unfold bind at 1 in Hrun. by rewrite Hretry in Hrun. }
  assert (Hloop : buffer_loop P flags w (ldibuf, errflag, bufsize) w2)
    by (by exists ldibuf0, w1).
  assert (Hm1 : ∃ ok, trace w1 = trace w ++ [LqMalloc 1024 ok]
                      ∧ ldibuf0 = if ok : bool then Some BufJunk else None).
  { unfold malloc in Hm. destruct (sys_malloc P 1024 (os w)) as [[ok e] o].
    injection Hm as <- <-. by exists ok. }
  destruct Hm1 as (ok & Htr1 & ->).
  destruct ok.
  2:{ cbn in Hretry.
      assert (ldibuf = None).
      { destruct (Z.to_nat _); cbn in Hretry; by injection Hretry as <- _ _ _. }
      rewrite (py_loadquery_unassigned flags w w2 ldibuf errflag bufsize Hk Hloop) in Hrun;
        [done|by left]. }
  destruct (retry_shape P flags _ _ _ _ _ _ _ Hretry) as (n & Hn).
  destruct Hn as [(buf & c & [= -> -> ->] & Htr2 & _)|[[= -> -> ->] _]].
  2:{ rewrite (py_loadquery_unassigned flags w w2 None _ _ Hk Hloop) in Hrun;
        [done|by left]. }
  destruct (Z.eq_dec c (-1)) as [->|Hc].
  { rewrite (py_loadquery_unassigned flags w w2 _ _ _ Hk Hloop) in Hrun;
      [done|by right]. }
  rewrite (py_loadquery_filled flags w w2 _ c _ Hk Hloop Hc) in Hrun.
  destruct (attempts_counts flags 1024 n) as (Ha1 & Ha2 & Ha3 & Ha4).
  set (pre := [LqMalloc 1024 true] ++ attempts flags 1024 n
              ++ [LqLoadquery flags (1024 + 1024 * Z.of_nat n) c]).
  assert (Hpre : trace w2 = trace w ++ pre).
  { rewrite Htr2, Htr1. unfold pre. by rewrite <- !app_assoc. }
  assert (Hcpre : lq_mallocs pre = S n ∧ lq_frees pre = n
                  ∧ lq_decrefs pre = 0%nat ∧ lq_lists pre = 0%nat).
  { unfold pre.
    destruct (lq_counts_app [LqMalloc 1024 true]
                (attempts flags 1024 n
                 ++ [LqLoadquery flags (1024 + 1024 * Z.of_nat n) c])) as (-> & -> & ->).
    destruct (lq_counts_app (attempts flags 1024 n)
                [LqLoadquery flags (1024 + 1024 * Z.of_nat n) c]) as (-> & -> & ->).
    rewrite !lq_mallocs_app, Ha1, Ha2, Ha3, Ha4. cbn. lia. }
  destruct Hcpre as (Hp1 & Hp2 & Hp3 & Hp4).
  destruct (py_alloc P (os w2)) as [[] o].
  - destruct (fill_list P flags buf [] _) as [[[l broke] w4]|] eqn:Hfill; [|done].
    apply fill_list_trace in Hfill as (evs & Htr4 & Hev & Hbroke).
    cbn [trace] in Htr4.
    destruct (entry_trace_counts evs Hev) as (Hf & Hd & Hl).
    pose proof (entry_trace_mallocs evs Hev) as Hmal.
    destruct broke; injection Hrun as <- <-; cbn [trace pyerr].
    + exists (pre ++ [LqListNew true] ++ evs ++ [LqDecref; LqFree]).
      rewrite Htr4, Hpre, <- !app_assoc. split; [done|].
      destruct (lq_counts_app pre ([LqListNew true] ++ evs ++ [LqDecref; LqFree]))
        as (-> & -> & ->).
      destruct (lq_counts_app [LqListNew true] (evs ++ [LqDecref; LqFree]))
        as (-> & -> & ->).
      destruct (lq_counts_app evs [LqDecref; LqFree]) as (-> & -> & ->).
      rewrite !lq_mallocs_app, Hp1, Hp2, Hp3, Hp4, Hf, Hd, Hl, Hmal. cbn.
      split_and!; try lia. intros _. rewrite Hbroke by done. eauto.
    + exists (pre ++ [LqListNew true] ++ evs ++ [LqFree]).
      rewrite Htr4, Hpre, <- !app_assoc. split; [done|].
      destruct (lq_counts_app pre ([LqListNew true] ++ evs ++ [LqFree]))
        as (H1 & H2 & H3).
      destruct (lq_counts_app [LqListNew true] (evs ++ [LqFree])) as (H4 & H5 & H6).
      destruct (lq_counts_app evs [LqFree]) as (H7 & H8 & H9).
      rewrite ?H1, ?H2, ?H3, ?H4, ?H5, ?H6, ?H7, ?H8, ?H9.
      rewrite !lq_mallocs_app, ?Hp1, ?Hp2, ?Hp3, ?Hp4, ?Hf, ?Hd, ?Hl, ?Hmal. cbn.
      split_and!; try lia. done.
  - injection Hrun as <- <-. cbn [trace pyerr].
    exists (pre ++ [LqListNew false; LqFree]).
    rewrite Hpre, <- !app_assoc. split; [done|].
    destruct (lq_counts_app pre [LqListNew false; LqFree]) as (-> & -> & ->).
    rewrite !lq_mallocs_app, Hp1, Hp2, Hp3, Hp4. cbn. split_and!; try lia. eauto.
Qed.

(** X20.  For flags other than the four listings [py_loadquery] returns
    NULL with ValueError (EINVAL) and calls neither [malloc] nor
    [loadquery]; when the arguments do not parse it returns NULL at once. *)
Theorem py_loadquery_rejects (flags : Z) (w : World P) :
  known_flags P flags = false →
  py_loadquery P (Some flags) w
  = Some (None, mkWorld (errno w) (Some (ErrString PyExc_ValueError (EINVAL P)))
                        (os w) (trace w ++ [LqSetString PyExc_ValueError (EINVAL P)]))
  ∧ py_loadquery P None w
    = Some (None, mkWorld (errno w) (Some ErrRaised) (os w) (trace w)).
Proof.
  intros Hk. unfold py_loadquery. split; [|done].
  unfold bind at 1. cbn [PyArg_ParseTuple]. by rewrite Hk.
Qed.

End Query.

(** ** Concrete runs *)

Section Tables.
Context (mallocs : Z → bool) (need : Z) (listing : Z → Buffer)
        (py_fails : nat → bool).

(** On a table platform whose listing fits the first buffer, the buffer
    loop ends at once. *)
Lemma table_buffer_loop (flags : Z)
    (w : World (table_platform mallocs need listing py_fails)) :
  mallocs 1024 = true →
  need ≤ 1024 →
  buffer_loop (table_platform mallocs need listing py_fails) flags w
    (Some (listing flags), Some 0, 1024)
    (mkWorld (errno w) (pyerr w) (os w)
             (trace w ++ [LqMalloc 1024 true; LqLoadquery flags 1024 0])).
Proof.
  intros Hm Hneed. eexists _, _. split.
  - unfold malloc. cbn. rewrite Hm. done.
  - destruct (Z.to_nat (INT_MAX (table_platform mallocs need listing py_fails) / 1024));
      cbn [loadquery_retry];
      unfold bind at 1, loadquery at 1; cbn;
      destruct (Z.ltb_spec 1024 need); try lia; cbn;
      by rewrite <- app_assoc.
Qed.

End Tables.

Lemma table_allocs (mallocs : Z → bool) (need : Z) (listing : Z → Buffer) :
  ∀ o, (py_alloc (table_platform mallocs need listing (fun _ => false)) o).1 = true.
Proof. done. Qed.

Lemma small_buffer_loop (flags : Z) :
  buffer_loop small_platform flags (initial_world small_platform 0%nat)
    (Some (example_listing flags), Some 0, 1024)
    (mkWorld (P := small_platform) 0 None 0%nat
             [LqMalloc 1024 true; LqLoadquery flags 1024 0]).
Proof.
  apply (table_buffer_loop (fun _ => true) 100 example_listing (fun _ => false)
           flags (initial_world small_platform 0%nat)); done.
Qed.

Lemma short_buffer_loop (flags : Z) :
  buffer_loop short_platform flags (initial_world short_platform 0%nat)
    (Some (example_listing flags), Some 0, 1024)
    (mkWorld (P := short_platform) 0 None 0%nat
             [LqMalloc 1024 true; LqLoadquery flags 1024 0]).
Proof.
  apply (table_buffer_loop (fun _ => true) 100 example_listing
           (fun n => (n =? 3)%nat) flags (initial_world short_platform 0%nat)); done.
Qed.

Lemma example_chain :
  chain ldinfo_next example_ldi 0
    [mk_ld_info 40 (cstr "/usr/bin/python") [];
     mk_ld_info 0 (cstr "/usr/lib/libc.a") (cstr "shr.o")].
Proof.
  apply chain_next; [reflexivity|done|]. apply chain_last; [reflexivity|done].
Qed.


Lemma loadquery_retry_grows_witness :
  ∃ buf w',
    loadquery_retry example_platform (Z.to_nat (INT_MAX example_platform / 1024)) 3
                    (Some BufJunk) None 1024 (initial_world example_platform 0%nat)
    = Some ((Some buf, Some 0, 3072), w')
    ∧ loadquery_calls (trace w') = [(3, 1024); (3, 2048); (3, 3072)].
Proof.
  destruct (loadquery_retry_grows example_platform 3 3000 BufJunk None
              (initial_world example_platform 0%nat))
    as (buf & c & w' & Hrun & Hc & _ & _ & Htr); try done.
  - intros size o Hlt. cbn. destruct (Z.ltb_spec size 3000); [eauto|lia].
  - intros size o Hge. cbn. destruct (Z.ltb_spec size 3000); [lia|done].
  - assert (c = 0) as ->.
    { apply (f_equal (fun t => last t)) in Htr. rewrite last_app in Htr.
      rewrite last_app in Htr. cbn in Htr.
      pose proof Hrun as Hrun'. vm_compute in Hrun'. by injection Hrun' as _ <- _. }
    exists buf, w'. split; [done|]. rewrite Htr. reflexivity.
Defined.

Lemma py_loadquery_messages_witness :
  observe (py_loadquery small_platform (Some 1) (initial_world small_platform 0%nat))
  = Some (Some [PyStr (cstr "0509-022 Cannot load module.");
                PyStr (cstr "0509-026 System error.")],
          None,
          [LqMalloc 1024 true; LqLoadquery 1 1024 0; LqListNew true]
          ++ entry_events (PyStr (cstr "0509-022 Cannot load module."))
          ++ entry_events (PyStr (cstr "0509-026 System error."))
          ++ [LqFree]).
Proof.
  destruct (py_loadquery_messages small_platform 1
              (initial_world small_platform 0%nat) _ _ 0 1024 eq_refl
              (small_buffer_loop 1) ltac:(done))
    as (res & w' & evs & Hrun & Htr & Hres & _ & _ & Hok).
  destruct (Hok (table_allocs _ _ _)) as [l ->]. destruct Hres as [-> Hp].
  rewrite Hrun. cbn [observe mbind option_bind]. rewrite Hp. cbn [pyerr initial_world].
  do 3 f_equal. pose proof Hrun as Hrun'. vm_compute in Hrun'.
  injection Hrun' as Hw. rewrite <- Hw. reflexivity.
Defined.

Lemma py_loadquery_libpath_witness :
  observe (py_loadquery small_platform (Some 3) (initial_world small_platform 0%nat))
  = Some (Some [PyStr (cstr "/usr/lib"); PyStr (cstr "/lib")],
          None,
          [LqMalloc 1024 true; LqLoadquery 3 1024 0; LqListNew true]
          ++ entry_events (PyStr (cstr "/usr/lib"))
          ++ entry_events (PyStr (cstr "/lib"))
          ++ [LqFree]).
Proof.
  destruct (py_loadquery_libpath small_platform 3
              (initial_world small_platform 0%nat) _ _ 0 1024 eq_refl ltac:(done)
              (small_buffer_loop 3) ltac:(done))
    as (res & w' & evs & Hrun & Htr & Hres & _ & _ & Hok).
  destruct (Hok (table_allocs _ _ _)) as [l ->].
  rewrite Hrun. vm_compute in Hrun. injection Hrun as <- <-. reflexivity.
Defined.

(** The Python runtime fails when the entry of the second, last structure
    is built: the list returned holds the first entry only, and the error
    indicator is set. *)
Lemma py_loadquery_info_witness :
  chain ldinfo_next example_ldi 0
    [mk_ld_info 40 (cstr "/usr/bin/python") [];
     mk_ld_info 0 (cstr "/usr/lib/libc.a") (cstr "shr.o")]
  ∧ ∃ w',
      py_loadquery short_platform (Some 2) (initial_world short_platform 0%nat)
      = Some (Some [info_entry (mk_ld_info 40 (cstr "/usr/bin/python") [])], w')
      ∧ pyerr w' = Some ErrRaised.
Proof.
  split; [apply example_chain|].
  destruct (py_loadquery_info short_platform 2
              (initial_world short_platform 0%nat) _ _ _ 0 1024 eq_refl
              ltac:(done) ltac:(done)
              (short_buffer_loop 2) ltac:(done)
              example_chain)
    as (res & w' & evs & Hrun & Htr & Hres & _).
  pose proof Hrun as Hrun'. vm_compute in Hrun'. injection Hrun' as Hr Hw.
  subst res. destruct Hres as [[[=] _]|[_ Hp]].
  exists w'. split; done.
Defined.

Lemma py_loadquery_xinfo_witness :
  chain ldxinfo_next example_ldxi 0
    [mk_ld_xinfo 0 (cstr "/usr/lib/libc.a") (cstr "shr_64.o") 4096 512 0 0 0]
  ∧ ∃ w',
      py_loadquery small_platform (Some 8) (initial_world small_platform 0%nat)
      = Some (Some [PyDict [("filename"%string, ItemStr (cstr "/usr/lib/libc.a"));
                            ("member"%string, ItemStr (cstr "shr_64.o"));
                            ("textsize"%string, ItemInt 4096);
                            ("datasize"%string, ItemInt 512);
                            ("tdatasize"%string, ItemInt 0);
                            ("tdataoff"%string, ItemInt 0);
                            ("tls_rnum"%string, ItemInt 0)]], w')
      ∧ pyerr w' = None.
Proof.
  assert (Hc : chain ldxinfo_next example_ldxi 0
                 [mk_ld_xinfo 0 (cstr "/usr/lib/libc.a") (cstr "shr_64.o") 4096 512 0 0 0])
    by (apply chain_last; [reflexivity|done]).
  split; [done|].
  destruct (py_loadquery_xinfo small_platform 8
              (initial_world small_platform 0%nat) _ _ _ 0 1024 eq_refl
              ltac:(done) ltac:(done) ltac:(done)
              (small_buffer_loop 8) ltac:(done) Hc)
    as (res & w' & evs & Hrun & Htr & Hres & _ & _ & Hok).
  rewrite (Hok (table_allocs _ _ _)) in *.
  destruct Hres as [[_ Hp]|[_ Hp]].
  - exists w'. split; done.
  - exfalso. vm_compute in Hrun. injection Hrun as Hw. rewrite <- Hw in Hp. done.
Defined.

(** No memory for the buffer: the error is set, and then [result] is read. *)
Lemma py_loadquery_unassigned_result_witness :
  known_flags oom_platform 1 = true
  ∧ buffer_loop oom_platform 1 (initial_world oom_platform 0%nat) (None, None, 1024)
      (mkWorld (P := oom_platform) 12 None 0%nat [LqMalloc 1024 false])
  ∧ py_loadquery oom_platform (Some 1) (initial_world oom_platform 0%nat) = None.
Proof.
  assert (Hloop : buffer_loop oom_platform 1 (initial_world oom_platform 0%nat)
                    (None, None, 1024)
                    (mkWorld (P := oom_platform) 12 None 0%nat [LqMalloc 1024 false])).
  { eexists _, _. split; [reflexivity|].
    by destruct (Z.to_nat (INT_MAX oom_platform / 1024)). }
  split_and!; [done|done|].
  apply (py_loadquery_unassigned_result oom_platform 1 _ _ None None 1024 eq_refl Hloop).
  by left.
Defined.

Lemma py_loadquery_rejects_witness :
  known_flags small_platform 7 = false
  ∧ observe (py_loadquery small_platform (Some 7) (initial_world small_platform 0%nat))
    = Some (None, Some (ErrString PyExc_ValueError 22),
            [LqSetString PyExc_ValueError 22]).
Proof.
  split; [done|].
  destruct (py_loadquery_rejects small_platform 7
              (initial_world small_platform 0%nat) eq_refl) as [-> _].
  reflexivity.
Defined.

(** The Python runtime fails while the library path is listed: NULL is
    returned, the list is released, the buffer is freed. *)
Lemma py_loadquery_releases_witness :
  ∃ w',
    py_loadquery short_platform (Some 3) (initial_world short_platform 0%nat)
    = Some (None, w')
    ∧ lq_mallocs (trace w') = 1%nat
    ∧ lq_frees (trace w') = 1%nat
    ∧ lq_lists (trace w') = 1%nat
    ∧ lq_decrefs (trace w') = 1%nat
    ∧ pyerr w' = Some ErrRaised.
Proof.
  destruct (py_loadquery short_platform (Some 3) (initial_world short_platform 0%nat))
    as [[res w']|] eqn:Hrun; [|vm_compute in Hrun; discriminate].
  destruct (py_loadquery_releases short_platform (Some 3) _ w' res Hrun)
    as (evs & Htr & Hbal & Hdec & _).
  pose proof Hrun as Hrun'. vm_compute in Hrun'. injection Hrun' as <- Hw.
  cbn [trace initial_world app] in Htr. rewrite <- Htr in Hbal, Hdec.
  assert (Hf : lq_frees (trace w') = 1%nat) by (by rewrite <- Hw).
  assert (Hl : lq_lists (trace w') = 1%nat) by (by rewrite <- Hw).
  exists w'. split; [done|]. rewrite Hdec, Hbal, Hf, Hl. split_and!; try done.
  by rewrite <- Hw.
Defined.

End LoadqueryFacts.
